(** * kiprec: the preference-based recommender

    A shallow embedding of [kiprec/PreferenceBasedRecommender.py]
    (DFKI/kiprec) and the properties of its query path:
    [__filter_courses__], [__rank_courses__], [__decision_tree_split__],
    [recommend], and the similarity pre-processing step of [train].

    Number model.  On the query path Python floats are embedded as real
    numbers ([R]): rounding and overflow are idealised away there, and
    the properties stated of it are those that do not turn on them.
    Where the source relies on the IEEE special values (the
    [float('inf')] start value of the split search, the [0/0] of numpy's
    array division) the reals are extended by [nan] and the two
    infinities, see [Module Np].  The normalisation of the preferences is
    embedded twice more: in [Module Rounded] every operation is followed
    by a rounding function that is only known to meet the error bounds of
    binary64, which is what the numerical property of the normalised
    weights is proved of; and in [Module Binary64] it runs on the
    primitive binary64 floats, which shows what the code does on
    concrete weights, overflow included.

    Attribute values are strings on the query path; [Module ListValued]
    has the split search on values that may also be lists of strings, as
    [train] stores them. *)

From Stdlib Require Import List String ZArith Reals Lra Lia Bool.
From Stdlib Require Import Permutation Sorted.
From Stdlib Require Import PrimFloat.
Import ListNotations.

Set Implicit Arguments.

(* ================================================================== *)
(** * Python values: exceptions, results, insertion-ordered dicts      *)
(* ================================================================== *)

Module Py.

(** The exceptions the embedded code can raise. *)
Inductive exn : Type :=
| ValueError
| KeyError
| IndexError
| TypeError
| ZeroDivisionError.

(** The outcome of a computation that may raise. *)
Inductive result (A : Type) : Type :=
| Ok (a : A)
| Raise (e : exn).

Arguments Ok {A} a.
Arguments Raise {A} e.

(** Sequencing of computations; instantiated below for [result] and for
    computations that also read and write the heap. *)
Class Monad (m : Type -> Type) : Type :=
  { ret : forall {A}, A -> m A;
    bind : forall {A B}, m A -> (A -> m B) -> m B }.

#[export] Instance Monad_result : Monad result :=
  { ret := fun A a => Ok a;
    bind := fun A B m k =>
              match m with
              | Ok a => k a
              | Raise e => Raise e
              end }.

(** A [dict] with [str] keys: the entries in insertion order.  In a
    well-formed dict no key occurs twice ([NoDup (keys d)]). *)
Definition dict (V : Type) : Type := list (string * V).

Definition keys {V} (d : dict V) : list string := map fst d.
Definition values {V} (d : dict V) : list V := map snd d.

(** [d.get(k)] *)
Fixpoint dict_get {V} (d : dict V) (k : string) : option V :=
  match d with
  | [] => None
  | (k', v) :: rest => if String.eqb k' k then Some v else dict_get rest k
  end.

(** [k in d] *)
Definition dict_in {V} (k : string) (d : dict V) : bool :=
  match dict_get d k with Some _ => true | None => false end.

(** [d[k]], raising [KeyError] for a missing key. *)
Definition subscript {V} (d : dict V) (k : string) : result V :=
  match dict_get d k with
  | Some v => Ok v
  | None => Raise KeyError
  end.

(** [d[k] = v]: an existing key keeps its position, a new one is
    appended. *)
Fixpoint dict_set {V} (d : dict V) (k : string) (v : V) : dict V :=
  match d with
  | [] => [(k, v)]
  | (k', v') :: rest =>
      if String.eqb k' k then (k', v) :: rest
      else (k', v') :: dict_set rest k v
  end.

(** [x in l] for a list of strings. *)
Definition str_in (x : string) (l : list string) : bool :=
  existsb (String.eqb x) l.

End Py.

Import Py.

Declare Scope py_scope.
Delimit Scope py_scope with py.
Notation "x <- m ;; k" := (Py.bind m (fun x => k))
  (at level 61, m at next level, right associativity) : py_scope.
Notation "m ;;; k" := (Py.bind m (fun _ => k))
  (at level 61, right associativity) : py_scope.
Open Scope py_scope.

(* ================================================================== *)
(** * Floats with the IEEE special values                              *)
(* ================================================================== *)

Module Np.

(** [x < y] on reals as a boolean. *)
Definition Rltb (x y : R) : bool := if Rlt_dec x y then true else false.

(** [x == y] on reals as a boolean. *)
Definition Reqb (x y : R) : bool := if Req_dec_T x y then true else false.

(** A float: a real number, an infinity or [nan].  Signed zeros are not
    distinguished. *)
Inductive float : Type :=
| Fin (x : R)
| PosInf
| NegInf
| NaN.

(** [x < y]; every comparison with [nan] is false. *)
Definition lt (x y : float) : bool :=
  match x, y with
  | NaN, _ | _, NaN => false
  | Fin a, Fin b => Rltb a b
  | _, NegInf => false
  | PosInf, _ => false
  | NegInf, _ => true
  | Fin _, PosInf => true
  end.

(** [x - y] *)
Definition sub (x y : float) : float :=
  match x, y with
  | NaN, _ | _, NaN => NaN
  | Fin a, Fin b => Fin (a - b)
  | PosInf, PosInf | NegInf, NegInf => NaN
  | PosInf, _ => PosInf
  | NegInf, _ => NegInf
  | Fin _, PosInf => NegInf
  | Fin _, NegInf => PosInf
  end.

Definition neg (x : float) : float :=
  match x with
  | PosInf => NegInf
  | NegInf => PosInf
  | _ => x
  end.

(** numpy's [x / y]: a zero divisor gives [nan] or an infinity (with a
    RuntimeWarning), never an exception. *)
Definition div (x y : float) : float :=
  match x, y with
  | NaN, _ | _, NaN => NaN
  | Fin a, Fin b =>
      if Reqb b 0 then
        if Reqb a 0 then NaN else if Rltb 0 a then PosInf else NegInf
      else Fin (a / b)
  | Fin _, _ => Fin 0
  | _, Fin b => if Rltb b 0 then neg x else x
  | _, _ => NaN
  end.

(** [np.fmin] and [np.fmax]: the smaller (larger) argument, where a
    [nan] argument is ignored when the other one is a number. *)
Definition fmin (x y : float) : float :=
  match x, y with
  | NaN, _ => y
  | _, NaN => x
  | _, _ => if lt y x then y else x
  end.

Definition fmax (x y : float) : float :=
  match x, y with
  | NaN, _ => y
  | _, NaN => x
  | _, _ => if lt x y then y else x
  end.

(** A two-dimensional array, row by row. *)
Definition matrix : Type := list (list float).

Definition flatten (Sk : matrix) : list float := List.concat Sk.

(** [np.nanmin(S)] and [np.nanmax(S)] over all entries.  A zero-size
    array raises [ValueError]; an all-[nan] array gives [nan]. *)
Definition nanmin (Sk : matrix) : result float :=
  match flatten Sk with
  | [] => Raise ValueError
  | x :: rest => Ok (fold_left fmin rest x)
  end.

Definition nanmax (Sk : matrix) : result float :=
  match flatten Sk with
  | [] => Raise ValueError
  | x :: rest => Ok (fold_left fmax rest x)
  end.

(** An elementwise operation with a scalar. *)
Definition broadcast (f : float -> float) (Sk : matrix) : matrix :=
  map (map f) Sk.

(** An elementwise operation on two arrays of one shape; arrays of
    different shapes cannot be stacked ([ValueError]). *)
Fixpoint zip_row (f : float -> float -> float) (r1 r2 : list float)
  : result (list float) :=
  match r1, r2 with
  | [], [] => Ok []
  | x :: r1', y :: r2' => r <- zip_row f r1' r2' ;; Ok (f x y :: r)
  | _, _ => Raise ValueError
  end.

Fixpoint zip_matrix (f : float -> float -> float) (S1 S2 : matrix)
  : result matrix :=
  match S1, S2 with
  | [], [] => Ok []
  | r1 :: S1', r2 :: S2' =>
      r <- zip_row f r1 r2 ;;
      Sk <- zip_matrix f S1' S2' ;;
      Ok (r :: Sk)
  | _, _ => Raise ValueError
  end.

(** The shape of an array: the lengths of its rows. *)
Definition shape (Sk : matrix) : list nat := map (@List.length float) Sk.

(** An array of finite numbers. *)
Definition finite (rows : list (list R)) : matrix := map (map Fin) rows.

End Np.

(* ================================================================== *)
(** * [train]: pre-processing of the similarities (lines 160-169)      *)
(* ================================================================== *)

Module Train.
Import Np.

(** One round of the loop over [Sims]:
    [lo = np.nanmin(S); hi = np.nanmax(S); S = (S - lo) / (hi - lo)]. *)
Definition rescale (Sk : matrix) : result matrix :=
  lo <- nanmin Sk ;;
  hi <- nanmax Sk ;;
  Ok (broadcast (fun x => div (sub x lo) (sub hi lo)) Sk).

(** [S = np.nanmax(np.stack(Sims, 2), 2)] for the three channels. *)
Definition combine (Scat Stag Sname : matrix) : result matrix :=
  Sk <- zip_matrix fmax Scat Stag ;;
  zip_matrix fmax Sk Sname.

(** The pre-processing step: the three rescaled channels ([Sims]) and
    their elementwise maximum ([S]). *)
Definition preprocess (Scat Stag Sname : matrix)
  : result (matrix * matrix * matrix * matrix) :=
  Scat' <- rescale Scat ;;
  Stag' <- rescale Stag ;;
  Sname' <- rescale Sname ;;
  Sk <- combine Scat' Stag' Sname' ;;
  Ok (Scat', Stag', Sname', Sk).

End Train.

(* ================================================================== *)
(** * The recommender: data                                            *)
(* ================================================================== *)

(** An entry of [model['courses']] (the fields the query path reads).
    The query path is modelled for similarities that are numbers. *)
Record course : Type :=
  { course_id : Z;
    name : string;
    Sim : list R;
    features : dict string;
    count : nat }.

(** An entry of [model['features']]: an attribute and its known values. *)
Record feature : Type :=
  { feature_name : string;
    feature_values : list string }.

(** The trained model, [self.model]. *)
Record Model : Type :=
  { meta_categories : list string;
    model_features : list feature;
    model_courses : list course }.

(** An active filter, [{'name': ..., 'value': ...}]. *)
Record filter : Type :=
  { filter_name : string;
    filter_value : string }.

(** A ranked course, the [crs] dict of [__rank_courses__]. *)
Record crs : Type :=
  { crs_course_id : Z;
    crs_name : string;
    crs_features : dict string;
    crs_sim : R;
    crs_score : R }.

(** What a call can read and write besides its own locals: the
    recommender's [model] attribute and the dict object the caller passes
    as [preferences] (passed by reference, so that an update of it is seen
    by the caller). *)
Record heap : Type :=
  { self_model : option Model;
    preferences : dict R }.

(** A computation on the heap that may raise. *)
Definition M (A : Type) : Type := heap -> result A * heap.

#[export] Instance Monad_M : Monad M :=
  { ret := fun A a h => (Ok a, h);
    bind := fun A B m k h =>
              match m h with
              | (Ok a, h') => k a h'
              | (Raise e, h') => (Raise e, h')
              end }.

(** A computation that does not touch the heap. *)
Definition lift {A} (r : result A) : M A := fun h => (r, h).

Definition get_preferences : M (dict R) := fun h => (Ok (preferences h), h).

Definition set_preferences (d : dict R) : M unit :=
  fun h => (Ok tt, {| self_model := self_model h; preferences := d |}).

(** [self.model[...]]: subscripting [None] is a [TypeError]. *)
Definition get_model : M Model :=
  fun h => match self_model h with
           | Some m => (Ok m, h)
           | None => (Raise TypeError, h)
           end.

(** Python's [sum]: starts from 0 and adds from the left. *)
Definition py_sum (l : list R) : R := fold_left Rplus l 0%R.

(** Python's [x / y] on numbers: a zero divisor raises. *)
Definition truediv (x y : R) : result R :=
  if Np.Reqb y 0 then Raise ZeroDivisionError else Ok (x / y)%R.

(* ================================================================== *)
(** * [__filter_courses__] (lines 288-294)                             *)
(* ================================================================== *)

(** [[course for course in courses
      if course['features'][filter['name']] == filter['value']]] *)
Fixpoint keep_matching (courses : list course) (f : filter)
  : result (list course) :=
  match courses with
  | [] => Ok []
  | c :: rest =>
      v <- subscript (features c) (filter_name f) ;;
      rest' <- keep_matching rest f ;;
      Ok (if String.eqb v (filter_value f) then c :: rest' else rest')
  end.

Fixpoint __filter_courses__ (courses : list course) (filters : list filter)
  : result (list course) :=
  match filters with
  | [] => Ok courses
  | f :: filters' =>
      courses' <- keep_matching courses f ;;
      __filter_courses__ courses' filters'
  end.

(** A course matches a filter when it has the attribute with exactly the
    filter's value. *)
Definition matches (f : filter) (c : course) : bool :=
  match dict_get (features c) (filter_name f) with
  | Some v => String.eqb v (filter_value f)
  | None => false
  end.

Definition matches_all (filters : list filter) (c : course) : bool :=
  forallb (fun f => matches f c) filters.

(* ================================================================== *)
(** * [__rank_courses__] (lines 296-338)                               *)
(* ================================================================== *)

(** [_LAMBDA_ = np.log(10) * 10] *)
Definition _LAMBDA_ : R := (ln 10 * 10)%R.

(** Lines 305-306: [normalized_preferences] is another name of the
    caller's dict, and every entry of it is overwritten in place:
    [[normalized_preferences.update({key: value / normalization})
      for key, value in normalized_preferences.items()]]. *)
Fixpoint update_each (items : list (string * R)) (normalization : R)
  : M unit :=
  match items with
  | [] => ret tt
  | (key, value) :: rest =>
      q <- lift (truediv value normalization) ;;
      d <- get_preferences ;;
      set_preferences (dict_set d key q) ;;;
      update_each rest normalization
  end.

(** Line 309: [{key: normalized_preferences[key]
               for key in self.model['meta_categories']}]. *)
Fixpoint reorder (d : dict R) (categories : list string) (acc : dict R)
  : result (dict R) :=
  match categories with
  | [] => Ok acc
  | key :: rest =>
      v <- subscript d key ;;
      reorder d rest (dict_set acc key v)
  end.

(** Lines 299-309, the normalisation of the preferences: the result is
    the re-ordered dict; the caller's dict is left rescaled. *)
Definition normalize_preferences : M (dict R) :=
  prefs <- get_preferences ;;
  let normalization := py_sum (values prefs) in
  normalization <-
    (if Np.Rltb normalization 1e-3%R
     then lift (truediv 1 (INR (List.length prefs)))
     else ret normalization) ;;
  update_each prefs normalization ;;;
  m <- get_model ;;
  d <- get_preferences ;;
  lift (reorder d (meta_categories m) []).

(** Lines 326-327:
    [for i in range(len(sim)):
       crs['sim'] += sim[i] * list(normalized_preferences.values())[i]]. *)
Fixpoint accumulate_sim (acc : R) (sim weights : list R) : result R :=
  match sim, weights with
  | [], _ => Ok acc
  | s :: sim', w :: weights' => accumulate_sim (acc + s * w)%R sim' weights'
  | _ :: _, [] => Raise IndexError
  end.

(** [id in [d['course_id'] for d in self.model['courses']]] *)
Definition known (m : Model) (id : Z) : bool :=
  existsb (fun d => Z.eqb (course_id d) id) (model_courses m).

(** [self.model['courses'][[...].index(id)]]: the first entry with this
    id; [list.index] raises [ValueError] when there is none. *)
Definition model_entry (m : Model) (id : Z) : result course :=
  match find (fun d => Z.eqb (course_id d) id) (model_courses m) with
  | Some d => Ok d
  | None => Raise ValueError
  end.

(** Lines 314-333, the body of the loop over [courses]. *)
Definition score_course (m : Model) (normalized_preferences : dict R)
    (c : course) : result crs :=
  let unscored :=
    {| crs_course_id := course_id c; crs_name := name c;
       crs_features := features c; crs_sim := 0; crs_score := 0 |} in
  if negb (known m (course_id c)) then Ok unscored
  else
    entry <- model_entry m (course_id c) ;;
    sim <- accumulate_sim 0 (Sim entry) (values normalized_preferences) ;;
    entry' <- model_entry m (course_id c) ;;
    Ok {| crs_course_id := course_id c; crs_name := name c;
          crs_features := features c; crs_sim := sim;
          crs_score := (_LAMBDA_ * sim + ln (INR (count entry') + 1))%R |}.

Fixpoint score_courses (m : Model) (normalized_preferences : dict R)
    (courses : list course) : result (list crs) :=
  match courses with
  | [] => Ok []
  | c :: rest =>
      x <- score_course m normalized_preferences c ;;
      xs <- score_courses m normalized_preferences rest ;;
      Ok (x :: xs)
  end.

(** [sorted(ranked_courses, key=lambda k: k['score'], reverse=True)]:
    a stable sort into descending order of the score (courses of equal
    score keep their order). *)
Fixpoint insert_by_score (x : crs) (l : list crs) : list crs :=
  match l with
  | [] => [x]
  | y :: l' =>
      if Np.Rltb (crs_score x) (crs_score y)
      then y :: insert_by_score x l'
      else x :: l
  end.

Fixpoint sorted_by_score (l : list crs) : list crs :=
  match l with
  | [] => []
  | x :: l' => insert_by_score x (sorted_by_score l')
  end.

Definition __rank_courses__ (courses : list course) : M (list crs) :=
  normalized_preferences <- normalize_preferences ;;
  m <- get_model ;;
  ranked_courses <- lift (score_courses m normalized_preferences courses) ;;
  ret (sorted_by_score ranked_courses).

(* ================================================================== *)
(** * [__decision_tree_split__] (lines 340-398)                        *)
(* ================================================================== *)

(** Lines 361-366: the number of courses per value of the feature. *)
Fixpoint count_values (courses : list crs) (feature_name : string)
    (counts : dict Z) : result (dict Z) :=
  match courses with
  | [] => Ok counts
  | c :: rest =>
      value <- subscript (crs_features c) feature_name ;;
      let counts :=
        if dict_in value counts then counts else dict_set counts value 0%Z in
      n <- subscript counts value ;;
      count_values rest feature_name (dict_set counts value (n + 1)%Z)
  end.

(** Lines 370-373.  The test is written
    [counts[value] > 0 & counts[value] < len(courses)]; [&] binds tighter
    than the comparisons, so this is the chain
    [counts[value] > (0 & counts[value]) < len(courses)]. *)
Definition non_trivial_choice (counts : dict Z) (courses : list crs) : bool :=
  existsb
    (fun entry =>
       let n := snd entry in
       let z := Z.land 0 n in
       Z.ltb z n && Z.ltb z (Z.of_nat (List.length courses)))
    counts.

(** Line 388: [sum([1 for c in courses
      if c['features'][feature_name] == value and c['score'] > score])]. *)
Fixpoint course_number (courses : list crs) (feature_name value : string)
    (score : R) : result Z :=
  match courses with
  | [] => Ok 0%Z
  | c :: rest =>
      v <- subscript (crs_features c) feature_name ;;
      n <- course_number rest feature_name value score ;;
      Ok (if String.eqb v value && Np.Rltb score (crs_score c)
          then (1 + n)%Z else n)
  end.

(** Lines 385-391, the loop that adds up [loss] ([min_course_number] is
    written there but never read, and is left out). *)
Fixpoint accumulate_loss (courses rest : list crs) (feature_name : string)
    (loss : R) : result R :=
  match rest with
  | [] => Ok loss
  | c :: rest' =>
      let score := crs_score c in
      value <- subscript (crs_features c) feature_name ;;
      n <- course_number courses feature_name value score ;;
      accumulate_loss courses rest' feature_name (loss + score * IZR n)%R
  end.

(** Lines 354-393, one candidate: [None] when it is skipped by the
    [continue], else its loss. *)
Definition candidate_loss (courses : list crs) (sum_scores : R)
    (feature_name : string) : result (option R) :=
  counts <- count_values courses feature_name [] ;;
  if negb (non_trivial_choice counts courses) then Ok None
  else
    loss <- accumulate_loss courses courses feature_name 0 ;;
    loss <- truediv loss sum_scores ;;
    Ok (Some loss).

(** Lines 353-396, the loop over [range(len(remaining_features))], from
    position [j] on. *)
Fixpoint split_loop (courses : list crs) (sum_scores : R)
    (remaining_features : list string) (j min_j : Z) (min_loss : Np.float)
  : result Z :=
  match remaining_features with
  | [] => Ok min_j
  | feature_name :: rest =>
      l <- candidate_loss courses sum_scores feature_name ;;
      match l with
      | None => split_loop courses sum_scores rest (j + 1)%Z min_j min_loss
      | Some loss =>
          if Np.lt (Np.Fin loss) min_loss
          then split_loop courses sum_scores rest (j + 1)%Z j (Np.Fin loss)
          else split_loop courses sum_scores rest (j + 1)%Z min_j min_loss
      end
  end.

Definition __decision_tree_split__ (courses : list crs)
    (remaining_features : list string) : result Z :=
  let sum_scores := py_sum (map crs_score courses) in
  if Np.Rltb sum_scores 1e-3%R then Ok (-1)%Z
  else split_loop courses sum_scores remaining_features 0%Z (-1)%Z Np.PosInf.

(* ================================================================== *)
(** * [recommend] (lines 227-286)                                      *)
(* ================================================================== *)

(** Lines 266-272, the loop over [self.model['features']] that sorts the
    features into active filters and remaining features. *)
Fixpoint resolve_filters (model_features : list feature)
    (active_filters : dict string) : list filter * list string :=
  match model_features with
  | [] => ([], [])
  | feature :: rest =>
      let (filters, remaining_features) := resolve_filters rest active_filters in
      match dict_get active_filters (feature_name feature) with
      | Some v =>
          if str_in v (feature_values feature)
          then ({| filter_name := feature_name feature; filter_value := v |}
                  :: filters, remaining_features)
          else (filters, feature_name feature :: remaining_features)
      | None => (filters, feature_name feature :: remaining_features)
      end
  end.

(** [if self.model is None: raise ValueError(...)] *)
Definition trained_model : M Model :=
  fun h => match self_model h with
           | Some m => (Ok m, h)
           | None => (Raise ValueError, h)
           end.

(** [recommend(preferences, active_filters)]; the [preferences] argument
    is the dict object of the heap. *)
Definition recommend (active_filters : option (dict string))
  : M (list filter * list string * list crs * Z) :=
  m <- trained_model ;;
  let (filters, remaining_features) :=
    match active_filters with
    | Some af => resolve_filters (model_features m) af
    | None => ([], map feature_name (model_features m))
    end in
  filtered_courses <- lift (__filter_courses__ (model_courses m) filters) ;;
  filtered_courses <- __rank_courses__ filtered_courses ;;
  split_index <-
    lift (__decision_tree_split__ filtered_courses remaining_features) ;;
  ret (filters, remaining_features, filtered_courses, split_index).

(* ================================================================== *)
(** * Notions used to state the properties                             *)
(* ================================================================== *)

(** Every weight of a preference dict divided by [n]. *)
Definition scale (n : R) (d : dict R) : dict R :=
  map (fun kv => (fst kv, (snd kv / n)%R)) d.

(** The number the weights are divided by: their sum, or [1/len] when
    the sum is below [1e-3]. *)
Definition normalizer (prefs : dict R) : R :=
  if Np.Rltb (py_sum (values prefs)) 1e-3%R
  then (1 / INR (List.length prefs))%R
  else py_sum (values prefs).

(** The inner product of two vectors. *)
Fixpoint dot (xs ys : list R) : R :=
  match xs, ys with
  | x :: xs', y :: ys' => (x * y + dot xs' ys')%R
  | _, _ => 0%R
  end.

(** The sum of a list, from the right. *)
Fixpoint Rsum (l : list R) : R :=
  match l with
  | [] => 0%R
  | x :: l' => (x + Rsum l')%R
  end.

(** The entries of [d] for the given keys, in the order of the keys (a
    missing key reads as 0). *)
Definition pick (d : dict R) (categories : list string) : dict R :=
  map (fun k => (k, match dict_get d k with Some v => v | None => 0%R end))
      categories.

(** The ranked course the specification asks for: for a course of the
    similarity table [sim] is the inner product of its similarity vector
    with the weights and [score = 10 * ln 10 * sim + ln (count + 1)]; for
    any other course both are 0. *)
Definition scored (m : Model) (weights : list R) (c : course) : crs :=
  match find (fun d => Z.eqb (course_id d) (course_id c)) (model_courses m) with
  | Some entry =>
      {| crs_course_id := course_id c; crs_name := name c;
         crs_features := features c;
         crs_sim := dot (Sim entry) weights;
         crs_score := (10 * ln 10 * dot (Sim entry) weights
                       + ln (INR (count entry) + 1))%R |}
  | None =>
      {| crs_course_id := course_id c; crs_name := name c;
         crs_features := features c; crs_sim := 0; crs_score := 0 |}
  end.

(** [x] may stand before [y] in a list in descending order of score. *)
Definition score_ge (x y : crs) : Prop := (crs_score y <= crs_score x)%R.

(** The similarity vectors of the courses of the table are not longer
    than the list of meta categories. *)
Definition sims_fit (m : Model) : Prop :=
  forall entry, In entry (model_courses m) ->
                (List.length (Sim entry) <= List.length (meta_categories m))%nat.

(** The query of the heap is well-formed for the model: a non-empty dict
    (no key twice) that has a weight for each of the distinct meta
    categories. *)
Definition well_formed_query (m : Model) (prefs : dict R) : Prop :=
  prefs <> []
  /\ NoDup (keys prefs)
  /\ NoDup (meta_categories m)
  /\ incl (meta_categories m) (keys prefs).

(** The candidate at position [k] of the list is considered by the split
    search (not skipped), and its loss is [loss]. *)
Definition considered (courses : list crs) (sum_scores : R)
    (remaining_features : list string) (k : nat) (loss : R) : Prop :=
  exists feature_name,
    nth_error remaining_features k = Some feature_name
    /\ candidate_loss courses sum_scores feature_name = Ok (Some loss).

(** [j] is the earliest position of least loss among the considered
    candidates. *)
Definition best_split (courses : list crs) (sum_scores : R)
    (remaining_features : list string) (j : nat) : Prop :=
  exists loss,
    considered courses sum_scores remaining_features j loss
    /\ forall k loss_k,
        considered courses sum_scores remaining_features k loss_k ->
        (loss <= loss_k)%R /\ ((k < j)%nat -> (loss < loss_k)%R).

(** The state of the search after the candidates [pre]: nothing was
    considered yet, or [min_j] is the best split so far and [min_loss] its
    loss. *)
Definition search_state (courses : list crs) (s : R) (pre : list string)
    (min_j : Z) (min_loss : Np.float) : Prop :=
  (min_j = (-1)%Z /\ min_loss = Np.PosInf
   /\ forall k loss, ~ considered courses s pre k loss)
  \/ (exists loss,
         min_loss = Np.Fin loss
         /\ (0 <= min_j)%Z
         /\ considered courses s pre (Z.to_nat min_j) loss
         /\ forall k loss_k,
             considered courses s pre k loss_k ->
             (loss <= loss_k)%R
             /\ ((k < Z.to_nat min_j)%nat -> (loss < loss_k)%R)).

(** Every ranked course has a value for every candidate feature. *)
Definition features_defined (courses : list crs)
    (remaining_features : list string) : Prop :=
  forall c f, In c courses -> In f remaining_features ->
              dict_in f (crs_features c) = true.

(** The data-model invariant of the catalogue: every course of the model
    has a value for every attribute of the schema. *)
Definition schema_respected (m : Model) : Prop :=
  forall c feature,
    In c (model_courses m) -> In feature (model_features m) ->
    dict_in (feature_name feature) (features c) = true.

(** A computation that leaves [self.model] as it finds it. *)
Definition keeps_model {A} (c : M A) : Prop :=
  forall h, self_model (snd (c h)) = self_model h.

(** A computation that leaves the whole heap as it finds it. *)
Definition read_only {A} (c : M A) : Prop :=
  forall h, snd (c h) = h.


(** A course is unknown when its id is not in the similarity table. *)
Definition unknown (m : Model) (c : course) : Prop :=
  known m (course_id c) = false.

(* ================================================================== *)
(** * Concrete catalogues and queries                                  *)
(* ================================================================== *)

Module Scenario.

Open Scope string_scope.

(** Two courses over the meta categories [['X', 'Y']]: [A] matches [X]
    only and has no enrolment, [B] matches [Y] only and has 100. *)
Definition A : course :=
  {| course_id := 1; name := "A"; Sim := [1%R; 0%R];
     features := [("price", "free")]; count := 0 |}.

Definition B : course :=
  {| course_id := 2; name := "B"; Sim := [0%R; 1%R];
     features := [("price", "free")]; count := 100 |}.

(** Both courses are free: the only attribute, [price], has the same
    value for every course. *)
Definition xy_model : Model :=
  {| meta_categories := ["X"; "Y"];
     model_features :=
       [{| feature_name := "price"; feature_values := ["All"; "free"] |}];
     model_courses := [A; B] |}.

(** The query [{'X': 1, 'Y': 0}]. *)
Definition prefer_X : heap :=
  {| self_model := Some xy_model;
     preferences := [("X", 1%R); ("Y", 0%R)] |}.

(** The query [{'X': 0, 'Y': 0}]. *)
Definition prefer_nothing : heap :=
  {| self_model := Some xy_model;
     preferences := [("X", 0%R); ("Y", 0%R)] |}.

(** A model over the single meta category [['X']] whose course has two
    similarities. *)
Definition long_course : course :=
  {| course_id := 7; name := "long"; Sim := [1%R; 1%R];
     features := []; count := 0 |}.

Definition x_model : Model :=
  {| meta_categories := ["X"];
     model_features := [];
     model_courses := [long_course] |}.

(** Two courses without enrolments. *)
Definition P : course :=
  {| course_id := 1; name := "P"; Sim := [0%R; 1%R];
     features := []; count := 0 |}.

Definition Q : course :=
  {| course_id := 2; name := "Q"; Sim := [1%R; 0%R];
     features := []; count := 0 |}.

Definition pq_model : Model :=
  {| meta_categories := ["X"; "Y"];
     model_features := [];
     model_courses := [P; Q] |}.

(** A course that is not in the similarity table. *)
Definition C : course :=
  {| course_id := 3; name := "C"; Sim := [];
     features := []; count := 0 |}.

Definition unranked_C : crs :=
  {| crs_course_id := 3; crs_name := "C"; crs_features := [];
     crs_sim := 0; crs_score := 0 |}.

(** What the specification expects for [A] and [B] under [prefer_X]. *)
Definition ranked_A : crs :=
  {| crs_course_id := 1; crs_name := "A";
     crs_features := [("price", "free")];
     crs_sim := 1; crs_score := _LAMBDA_ |}.

Definition ranked_B : crs :=
  {| crs_course_id := 2; crs_name := "B";
     crs_features := [("price", "free")];
     crs_sim := 0; crs_score := ln 101 |}.



(** Ranked courses with two attributes: [badges] has the same value for
    both, [price] separates them. *)
Definition cheap : crs :=
  {| crs_course_id := 1; crs_name := "Python for Data Science";
     crs_features := [("badges", "no"); ("price", "free")];
     crs_sim := 0; crs_score := 3 |}.

Definition dear : crs :=
  {| crs_course_id := 2; crs_name := "Python for Business";
     crs_features := [("badges", "no"); ("price", "100 EUR")];
     crs_sim := 0; crs_score := 1 |}.

(** The filters [price == free] and [price == 100 EUR]. *)
Definition price_free : filter :=
  {| filter_name := "price"; filter_value := "free" |}.

Definition price_100 : filter :=
  {| filter_name := "price"; filter_value := "100 EUR" |}.

(** The category channel of a catalogue of one course without categories
    and two meta categories, [np.zeros((1, 2))]. *)
Definition Scat_zeros : Np.matrix := [[Np.Fin 0; Np.Fin 0]].

(** The active filter [{'price': 'free'}]. *)
Definition only_free : dict string := [("price", "free")].

(** Active filters that name an attribute the schema does not have, and
    a value the schema does not have for [price]. *)
Definition colour_red : dict string := [("colour", "red")].

Definition price_expensive : dict string := [("price", "expensive")].

End Scenario.

(* ================================================================== *)
(** * [train]: the attribute schema (lines 73-84)                      *)
(* ================================================================== *)

(** The value of an attribute of a catalogue course: a scalar or a list
    ([isinstance(value, list)]). *)
Inductive attribute_value : Type :=
| Scalar (v : string)
| Multiple (vs : list string).

(** A course of [course_data], as far as the schema and the enrolment
    counts read it; [attributes] is [None] when the key is missing. *)
Record catalogue_course : Type :=
  { cc_course_id : Z;
    cc_name : string;
    cc_attributes : option (dict attribute_value) }.

(** [names.index(key)] followed by the subscript: the values of the first
    feature of this name; [list.index] raises [ValueError] when there is
    none. *)
Fixpoint values_of (features : list feature) (key : string)
  : result (list string) :=
  match features with
  | [] => Raise ValueError
  | f :: rest =>
      if String.eqb (feature_name f) key then Ok (feature_values f)
      else values_of rest key
  end.

(** [features[names.index(key)]['values'].append(val)] *)
Fixpoint append_value (features : list feature) (key val : string)
  : result (list feature) :=
  match features with
  | [] => Raise ValueError
  | f :: rest =>
      if String.eqb (feature_name f) key
      then Ok ({| feature_name := feature_name f;
                  feature_values := feature_values f ++ [val] |} :: rest)
      else rest' <- append_value rest key val ;; Ok (f :: rest')
  end.

(** [for val in value: features[...]['values'].append(val)] *)
Fixpoint append_values (features : list feature) (key : string)
    (vals : list string) : result (list feature) :=
  match vals with
  | [] => Ok features
  | val :: rest =>
      features' <- append_value features key val ;;
      append_values features' key rest
  end.

(** [value in values] for a list of strings: a list is equal to none of
    them. *)
Definition value_in (value : attribute_value) (values : list string) : bool :=
  match value with
  | Scalar v => str_in v values
  | Multiple _ => false
  end.

(** Lines 77-84, the body of the loop over the attributes of a course. *)
Definition add_attribute (features : list feature) (key : string)
    (value : attribute_value) : result (list feature) :=
  let features :=
    if negb (str_in key (map feature_name features))
    then features ++ [{| feature_name := key; feature_values := ["All"%string] |}]
    else features in
  values <- values_of features key ;;
  if negb (value_in value values) then
    match value with
    | Multiple vs => append_values features key vs
    | Scalar v => append_value features key v
    end
  else Ok features.

Fixpoint add_attributes (features : list feature)
    (items : list (string * attribute_value)) : result (list feature) :=
  match items with
  | [] => Ok features
  | (key, value) :: rest =>
      features' <- add_attribute features key value ;;
      add_attributes features' rest
  end.

(** Lines 73-84: the schema of a catalogue, starting from the features
    collected so far. *)
Fixpoint extract_features (course_data : list catalogue_course)
    (features : list feature) : result (list feature) :=
  match course_data with
  | [] => Ok features
  | c :: rest =>
      match cc_attributes c with
      | Some attributes =>
          features' <- add_attributes features attributes ;;
          extract_features rest features'
      | None => extract_features rest features
      end
  end.

(* ================================================================== *)
(** * [train]: the enrolment counts (lines 204-221)                    *)
(* ================================================================== *)

(** A [Counter] keyed by course ids, in insertion order. *)
Definition counter : Type := list (Z * Z).

(** [counts[id]]: a missing key reads as 0. *)
Fixpoint counter_get (counts : counter) (id : Z) : Z :=
  match counts with
  | [] => 0%Z
  | (id', n) :: rest => if Z.eqb id' id then n else counter_get rest id
  end.

(** [id in counts] *)
Definition counter_in (id : Z) (counts : counter) : bool :=
  existsb (fun e => Z.eqb (fst e) id) counts.

(** [counts[id] = n] *)
Fixpoint counter_set (counts : counter) (id n : Z) : counter :=
  match counts with
  | [] => [(id, n)]
  | (id', n') :: rest =>
      if Z.eqb id' id then (id', n) :: rest
      else (id', n') :: counter_set rest id n
  end.

(** Lines 208-210: the histogram of the course ids over all enrolments;
    an entry of [enrollment_data] is given by the course ids of its
    ['enrolments']. *)
Fixpoint count_enrolments (ids : list Z) (counts : counter) : counter :=
  match ids with
  | [] => counts
  | id :: rest =>
      count_enrolments rest (counter_set counts id (counter_get counts id + 1)%Z)
  end.

Fixpoint histogram (enrollment_data : list (list Z)) (counts : counter)
  : counter :=
  match enrollment_data with
  | [] => counts
  | enrolments :: rest => histogram rest (count_enrolments enrolments counts)
  end.

(** Lines 205-221: the ['count'] of every course of the catalogue. *)
Definition course_counts (course_data : list catalogue_course)
    (enrollment_data : option (list (list Z))) : list Z :=
  match enrollment_data with
  | Some data =>
      let counts := histogram data [] in
      map (fun c => if counter_in (cc_course_id c) counts
                    then counter_get counts (cc_course_id c)
                    else 0%Z)
          course_data
  | None => map (fun _ => 0%Z) course_data
  end.

(* ================================================================== *)
(** * [TopicRecommender.recommend] (TopicRecommender.py, lines 153-225) *)
(* ================================================================== *)

(** A ranked course of the topic recommender. *)
Record topic_crs : Type :=
  { topic_course_id : Z;
    topic_name : string;
    topic_score : R }.

(** Lines 203-219, the body of the loop over [course_data] (the course is
    also printed). *)
Definition topic_score_course (m : Model) (normalized_preferences : dict R)
    (c : course) : result topic_crs :=
  if negb (known m (course_id c))
  then Ok {| topic_course_id := course_id c; topic_name := name c;
             topic_score := 0 |}
  else
    entry <- model_entry m (course_id c) ;;
    score <- accumulate_sim 0 (Sim entry) (values normalized_preferences) ;;
    Ok {| topic_course_id := course_id c; topic_name := name c;
          topic_score := score |}.

Fixpoint topic_score_courses (m : Model) (normalized_preferences : dict R)
    (courses : list course) : result (list topic_crs) :=
  match courses with
  | [] => Ok []
  | c :: rest =>
      x <- topic_score_course m normalized_preferences c ;;
      xs <- topic_score_courses m normalized_preferences rest ;;
      Ok (x :: xs)
  end.

(** [sorted(ranked_courses, key=lambda k: k['score'], reverse=True)] *)
Fixpoint topic_insert (x : topic_crs) (l : list topic_crs) : list topic_crs :=
  match l with
  | [] => [x]
  | y :: l' =>
      if Np.Rltb (topic_score x) (topic_score y)
      then y :: topic_insert x l'
      else x :: l
  end.

Fixpoint topic_sorted (l : list topic_crs) : list topic_crs :=
  match l with
  | [] => []
  | x :: l' => topic_insert x (topic_sorted l')
  end.

(** [recommend(course_data, preferences)]; lines 189-199 are the
    normalisation of [__rank_courses__] word for word. *)
Definition topic_recommend (course_data : list course) : M (list topic_crs) :=
  _ <- trained_model ;;
  normalized_preferences <- normalize_preferences ;;
  m <- get_model ;;
  ranked_courses <-
    lift (topic_score_courses m normalized_preferences course_data) ;;
  ret (topic_sorted ranked_courses).

(* ================================================================== *)
(** * Further notions used to state properties                         *)
(* ================================================================== *)

(** The ranked course has the score [s]. *)
Definition has_score (s : R) (x : crs) : bool := Np.Reqb (crs_score x) s.


(** The values a schema offers for an attribute (none for an attribute
    it does not have). *)
Definition schema_values (features : list feature) (key : string)
  : list string :=
  match values_of features key with
  | Ok vs => vs
  | Raise _ => []
  end.

(** The attribute value contains the string: it is this scalar, or a list
    with this element. *)
Definition provides (value : attribute_value) (v : string) : Prop :=
  match value with
  | Scalar w => w = v
  | Multiple vs => In v vs
  end.

(** Some course of the catalogue has the attribute with this value. *)
Definition occurs (course_data : list catalogue_course) (key : string)
    (value : attribute_value) : Prop :=
  exists c attributes,
    In c course_data
    /\ cc_attributes c = Some attributes
    /\ In (key, value) attributes.

(** Every attribute value of the catalogue is a scalar. *)
Definition scalar_catalogue (course_data : list catalogue_course) : Prop :=
  forall key value,
    occurs course_data key value -> exists v, value = Scalar v.

(** What the loops of the schema construction keep: distinct attribute
    names, and ['All'] as the first value of every attribute. *)
Definition schema_invariant (features : list feature) : Prop :=
  NoDup (map feature_name features)
  /\ forall f, In f features ->
               exists rest, feature_values f = "All"%string :: rest.

(** The attributes of all courses of a catalogue, in the order in which
    the schema construction visits them. *)
Definition all_items (course_data : list catalogue_course)
  : list (string * attribute_value) :=
  List.concat
    (map (fun c => match cc_attributes c with
                   | Some attributes => attributes
                   | None => []
                   end)
         course_data).

(** [features] is the schema of the attributes [items]: its attribute
    names are distinct and are the keys of the items; every attribute
    offers ['All'] first; it offers every string the items provide for the
    attribute, and nothing else. *)
Definition schema_of (items : list (string * attribute_value))
    (features : list feature) : Prop :=
  NoDup (map feature_name features)
  /\ (forall k, In k (map feature_name features)
                <-> exists value, In (k, value) items)
  /\ (forall k, In k (map feature_name features) ->
                exists rest, schema_values features k = "All"%string :: rest)
  /\ (forall k v,
         In v (schema_values features k)
         <-> (In k (map feature_name features) /\ v = "All"%string)
             \/ exists value, In (k, value) items /\ provides value v).

(** Every attribute value of the items is a scalar. *)
Definition scalar_items (items : list (string * attribute_value)) : Prop :=
  forall k value, In (k, value) items -> exists v, value = Scalar v.

(* ================================================================== *)
(** * The catalogue of [testit.py]                                     *)
(* ================================================================== *)

Module Testit.

Open Scope string_scope.

Definition attributes_of (duration badges certificate price type_ : string)
  : dict attribute_value :=
  [("duration", Scalar duration); ("badges", Scalar badges);
   ("certificate", Scalar certificate); ("price", Scalar price);
   ("type", Scalar type_)].

Definition course_data : list catalogue_course :=
  [{| cc_course_id := 1; cc_name := "Python for Data Science";
      cc_attributes :=
        Some (attributes_of "4 weeks" "yes" "A" "free" "mooc_course") |};
   {| cc_course_id := 2; cc_name := "Python for Business";
      cc_attributes :=
        Some (attributes_of "2 months" "no" "C" "100 EUR" "blended_course") |};
   {| cc_course_id := 3; cc_name := "Python for Health";
      cc_attributes :=
        Some (attributes_of "2 months" "no" "A" "50 EUR" "blended_course") |};
   {| cc_course_id := 4; cc_name := "Python for Business and Health";
      cc_attributes :=
        Some (attributes_of "4 weeks" "no" "A" "free" "blended_course") |}].

(** The course ids of the enrolments of the three students. *)
Definition enrollment_data : list (list Z) :=
  [[1; 2]; [1; 3]; [2; 3]]%Z.

End Testit.

(** A ranked course of the preference-based recommender and one of the
    topic recommender that stand for the same course with the same
    similarity. *)
Definition same_course (x : crs) (t : topic_crs) : Prop :=
  crs_course_id x = topic_course_id t /\ crs_sim x = topic_score t.

(** The order of the topic recommender's result. *)
Definition topic_ge (t u : topic_crs) : Prop :=
  (topic_score u <= topic_score t)%R.

(** The entry [Sk[i, j]] of an array, if there is one. *)
Definition entry (Sk : Np.matrix) (i j : nat) : option Np.float :=
  match nth_error Sk i with
  | Some row => nth_error row j
  | None => None
  end.

(** [r] is the maximum of [xs] that ignores [nan]: [nan] when every
    element is [nan], else an element that is a number (or an infinity)
    and is not below any other element. *)
Definition nan_ignoring_max (xs : list Np.float) (r : Np.float) : Prop :=
  (Forall (fun x => x = Np.NaN) xs -> r = Np.NaN)
  /\ (Exists (fun x => x <> Np.NaN) xs ->
      In r xs /\ r <> Np.NaN /\ forall x, In x xs -> Np.lt r x = false).

(* ================================================================== *)
(** * [__decision_tree_split__] when attribute values may be lists     *)
(* ================================================================== *)

(** [train] copies [course['attributes']] into the model (line 200), and
    its values may be lists of strings (line 80); the ranking hands them
    on to the split search as they are.  This is the split search on such
    courses. *)
Module ListValued.

(** A ranked course whose attribute values are strings or lists. *)
Record crs : Type :=
  { crs_course_id : Z;
    crs_name : string;
    crs_features : dict attribute_value;
    crs_sim : R;
    crs_score : R }.

(** The key under which a value is stored in a dict: a list is
    unhashable, so that [value in counts] and [counts[value]] raise
    [TypeError] for it. *)
Definition hashed (value : attribute_value) : result string :=
  match value with
  | Scalar v => Ok v
  | Multiple _ => Raise TypeError
  end.

(** Python's [==] on attribute values: a string never equals a list. *)
Definition value_eqb (v w : attribute_value) : bool :=
  match v, w with
  | Scalar s, Scalar t => String.eqb s t
  | Multiple l, Multiple l' =>
      if list_eq_dec string_dec l l' then true else false
  | _, _ => false
  end.

(** Lines 361-366. *)
Fixpoint count_values (courses : list crs) (feature_name : string)
    (counts : dict Z) : result (dict Z) :=
  match courses with
  | [] => Ok counts
  | c :: rest =>
      value <- subscript (crs_features c) feature_name ;;
      key <- hashed value ;;
      let counts :=
        if dict_in key counts then counts else dict_set counts key 0%Z in
      n <- subscript counts key ;;
      count_values rest feature_name (dict_set counts key (n + 1)%Z)
  end.

(** Lines 370-373. *)
Definition non_trivial_choice (counts : dict Z) (courses : list crs) : bool :=
  existsb
    (fun entry =>
       let n := snd entry in
       let z := Z.land 0 n in
       Z.ltb z n && Z.ltb z (Z.of_nat (List.length courses)))
    counts.

(** Line 388. *)
Fixpoint course_number (courses : list crs) (feature_name : string)
    (value : attribute_value) (score : R) : result Z :=
  match courses with
  | [] => Ok 0%Z
  | c :: rest =>
      v <- subscript (crs_features c) feature_name ;;
      n <- course_number rest feature_name value score ;;
      Ok (if value_eqb v value && Np.Rltb score (crs_score c)
          then (1 + n)%Z else n)
  end.

(** Lines 385-391. *)
Fixpoint accumulate_loss (courses rest : list crs) (feature_name : string)
    (loss : R) : result R :=
  match rest with
  | [] => Ok loss
  | c :: rest' =>
      let score := crs_score c in
      value <- subscript (crs_features c) feature_name ;;
      n <- course_number courses feature_name value score ;;
      accumulate_loss courses rest' feature_name (loss + score * IZR n)%R
  end.

(** Lines 354-393. *)
Definition candidate_loss (courses : list crs) (sum_scores : R)
    (feature_name : string) : result (option R) :=
  counts <- count_values courses feature_name [] ;;
  if negb (non_trivial_choice counts courses) then Ok None
  else
    loss <- accumulate_loss courses courses feature_name 0 ;;
    loss <- truediv loss sum_scores ;;
    Ok (Some loss).

(** Lines 353-396. *)
Fixpoint split_loop (courses : list crs) (sum_scores : R)
    (remaining_features : list string) (j min_j : Z) (min_loss : Np.float)
  : result Z :=
  match remaining_features with
  | [] => Ok min_j
  | feature_name :: rest =>
      l <- candidate_loss courses sum_scores feature_name ;;
      match l with
      | None => split_loop courses sum_scores rest (j + 1)%Z min_j min_loss
      | Some loss =>
          if Np.lt (Np.Fin loss) min_loss
          then split_loop courses sum_scores rest (j + 1)%Z j (Np.Fin loss)
          else split_loop courses sum_scores rest (j + 1)%Z min_j min_loss
      end
  end.

Definition __decision_tree_split__ (courses : list crs)
    (remaining_features : list string) : result Z :=
  let sum_scores := py_sum (map crs_score courses) in
  if Np.Rltb sum_scores 1e-3%R then Ok (-1)%Z
  else split_loop courses sum_scores remaining_features 0%Z (-1)%Z Np.PosInf.

End ListValued.







(* ================================================================== *)
(** * The normalisation in rounded arithmetic                          *)
(* ================================================================== *)

(** The unit roundoff of binary64, [2^-53]; half the smallest positive
    subnormal number, [2^-1075]; and the largest finite number,
    [2^1024 - 2^971]. *)
Definition two_53 : Z := Eval cbv in (2 ^ 53)%Z.

Definition two_1075 : Z := Eval cbv in (2 ^ 1075)%Z.

Definition largest_binary64 : Z := Eval cbv in (2 ^ 1024 - 2 ^ 971)%Z.

Definition unit_roundoff : R := (/ IZR two_53)%R.

Definition underflow_error : R := (/ IZR two_1075)%R.

Definition max_finite : R := IZR largest_binary64.

(** What the rounding of binary64 (to nearest) does to a real number
    within the finite range: zero is kept, the order is kept, and the
    result is off by at most the unit roundoff relative to the number,
    or by the underflow error. *)
Record rounding (rnd : R -> R) : Prop :=
  { rnd_0 : rnd 0%R = 0%R;
    rnd_monotone : forall x y, (x <= y)%R -> (rnd x <= rnd y)%R;
    rnd_error :
      forall x, (Rabs x <= max_finite)%R ->
                (Rabs (rnd x - x) <= unit_roundoff * Rabs x + underflow_error)%R }.

(** Lines 299-309 where the result of every addition and division, and
    the literal [1e-3], is rounded by [rnd]; the rest is the
    normalisation of [__rank_courses__] word for word. *)
Module Rounded.
Section Rounding.
Variable rnd : R -> R.

(** Python's [sum] on floats: every partial sum is rounded. *)
Definition py_sum (l : list R) : R :=
  fold_left (fun acc v => rnd (acc + v)%R) l 0%R.

(** Python's [x / y] on floats. *)
Definition truediv (x y : R) : result R :=
  if Np.Reqb y 0 then Raise ZeroDivisionError else Ok (rnd (x / y)%R).

Fixpoint update_each (items : list (string * R)) (normalization : R)
  : M unit :=
  match items with
  | [] => ret tt
  | (key, value) :: rest =>
      q <- lift (truediv value normalization) ;;
      d <- get_preferences ;;
      set_preferences (dict_set d key q) ;;;
      update_each rest normalization
  end.

Definition normalize_preferences : M (dict R) :=
  prefs <- get_preferences ;;
  let normalization := py_sum (values prefs) in
  normalization <-
    (if Np.Rltb normalization (rnd 1e-3%R)
     then lift (truediv 1 (INR (List.length prefs)))
     else ret normalization) ;;
  update_each prefs normalization ;;;
  m <- get_model ;;
  d <- get_preferences ;;
  lift (reorder d (meta_categories m) []).

End Rounding.
End Rounded.

(** Every weight of a preference dict divided by [n] and rounded. *)
Definition rounded_scale (rnd : R -> R) (n : R) (d : dict R) : dict R :=
  map (fun kv => (fst kv, rnd (snd kv / n)%R)) d.

(** A function that meets [rounding] and errs on every number but zero:
    it adds half a unit roundoff, relative to the number. *)
Definition half_a_roundoff_up (x : R) : R :=
  (x * (1 + unit_roundoff / 2))%R.

(* ================================================================== *)
(** * The normalisation in binary64 arithmetic                          *)
(* ================================================================== *)

(** Lines 299-309 on the floats of CPython, IEEE 754 binary64 with
    rounding to nearest, which the primitive floats of the kernel are;
    this version can be run.  The state is the caller's dict, and
    [meta_categories] is [self.model['meta_categories']]. *)
Module Binary64.

(** Python's [sum]: starts from 0 and adds from the left. *)
Definition py_sum (l : list float) : float :=
  fold_left PrimFloat.add l 0%float.

(** Python's [x / y] on floats: a zero divisor raises. *)
Definition truediv (x y : float) : result float :=
  if PrimFloat.eqb y 0%float then Raise ZeroDivisionError
  else Ok (PrimFloat.div x y).

(** An [int] as a float (exact below [2^53]). *)
Fixpoint float_of_nat (n : nat) : float :=
  match n with
  | O => 0%float
  | S n' => PrimFloat.add (float_of_nat n') 1%float
  end.

Fixpoint update_each (items : list (string * float)) (normalization : float)
    (d : dict float) : result unit * dict float :=
  match items with
  | [] => (Ok tt, d)
  | (key, value) :: rest =>
      match truediv value normalization with
      | Ok q => update_each rest normalization (dict_set d key q)
      | Raise e => (Raise e, d)
      end
  end.

Fixpoint reorder (d : dict float) (categories : list string)
    (acc : dict float) : result (dict float) :=
  match categories with
  | [] => Ok acc
  | key :: rest =>
      v <- subscript d key ;;
      reorder d rest (dict_set acc key v)
  end.

(** The normalised preferences and the caller's dict after the call. *)
Definition normalize_preferences (meta_categories : list string)
    (preferences : dict float) : result (dict float) * dict float :=
  let normalization := py_sum (values preferences) in
  match (if PrimFloat.ltb normalization 1e-3%float
         then truediv 1%float (float_of_nat (List.length preferences))
         else Ok normalization) with
  | Raise e => (Raise e, preferences)
  | Ok normalization =>
      match update_each preferences normalization preferences with
      | (Raise e, d) => (Raise e, d)
      | (Ok _, d) => (reorder d meta_categories [], d)
      end
  end.

(** Two weights near the largest float, three everyday weights, and two
    small integers. *)
Definition huge : dict float := [("X", 1e308); ("Y", 1e308)]%string%float.

Definition three_and_one : dict float := [("Y", 3); ("X", 1)]%string%float.

Definition everyday : dict float :=
  [("X", 0.5); ("Y", 0.2); ("Z", 0.2)]%string%float.

End Binary64.

(* ================================================================== *)
(** * Properties                                                       *)
(* ================================================================== *)

(** ** Results and dicts *)

Lemma bind_Ok_inv {A B} (m : result A) (k : A -> result B) (b : B) :
  (x <- m ;; k x) = Ok b -> exists a, m = Ok a /\ k a = Ok b.
Proof.
  destruct m as [a | e]; cbn; intros H.
  - exists a. split; [reflexivity | exact H].
  - discriminate H.
Qed.

Lemma subscript_Ok {V} (d : dict V) (k : string) (v : V) :
  subscript d k = Ok v <-> dict_get d k = Some v.
Proof.
  unfold subscript. destruct (dict_get d k); split; intros H;
    inversion H; reflexivity.
Qed.

Lemma subscript_dict_in {V} (d : dict V) (k : string) :
  dict_in k d = true -> exists v, subscript d k = Ok v.
Proof.
  unfold dict_in, subscript. destruct (dict_get d k) as [v |]; intros H.
  - exists v. reflexivity.
  - discriminate H.
Qed.

(** ** [__filter_courses__] *)

Lemma keep_matching_filter (f : filter) (courses out : list course) :
  keep_matching courses f = Ok out -> out = List.filter (matches f) courses.
Proof.
  revert out. induction courses as [| c rest IH]; intros out H.
  - cbn in H. inversion H. reflexivity.
  - cbn [keep_matching] in H.
    apply bind_Ok_inv in H. destruct H as (v & Hv & H).
    apply bind_Ok_inv in H. destruct H as (rest' & Hrest & H).
    inversion H; subst out; clear H.
    apply subscript_Ok in Hv.
    assert (Hm : matches f c = String.eqb v (filter_value f))
      by (unfold matches; rewrite Hv; reflexivity).
    cbn [List.filter]. rewrite Hm.
    rewrite (IH rest' Hrest). reflexivity.
Qed.

Lemma keep_matching_total (f : filter) (courses : list course) :
  (forall c, In c courses -> dict_in (filter_name f) (features c) = true) ->
  keep_matching courses f = Ok (List.filter (matches f) courses).
Proof.
  induction courses as [| c rest IH]; intros Hin.
  - reflexivity.
  - cbn [keep_matching].
    destruct (subscript_dict_in _ _ (Hin c (or_introl eq_refl))) as (v & Hv).
    rewrite Hv. cbn [bind Monad_result].
    rewrite IH by (intros c' Hc'; apply Hin; right; exact Hc').
    cbn [bind Monad_result List.filter].
    apply subscript_Ok in Hv.
    assert (Hm : matches f c = String.eqb v (filter_value f))
      by (unfold matches; rewrite Hv; reflexivity).
    rewrite Hm. reflexivity.
Qed.

Lemma filter_matches_all (f : filter) (filters : list filter)
    (courses : list course) :
  List.filter (matches_all filters) (List.filter (matches f) courses)
  = List.filter (matches_all (f :: filters)) courses.
Proof.
  induction courses as [| c rest IH].
  - reflexivity.
  - cbn [List.filter matches_all forallb].
    destruct (matches f c); cbn [List.filter andb];
      fold (matches_all filters c); rewrite IH; reflexivity.
Qed.

Lemma filter_matches_nil (courses : list course) :
  List.filter (matches_all []) courses = courses.
Proof.
  induction courses as [| c rest IH]; [reflexivity |].
  cbn. f_equal. exact IH.
Qed.

Lemma filter_courses_spec (filters : list filter) (courses out : list course) :
  __filter_courses__ courses filters = Ok out ->
  out = List.filter (matches_all filters) courses.
Proof.
  revert courses. induction filters as [| f filters IH]; intros courses H.
  - cbn in H. inversion H; subst out.
    symmetry. apply filter_matches_nil.
  - cbn [__filter_courses__] in H.
    apply bind_Ok_inv in H. destruct H as (courses' & Hk & H).
    apply keep_matching_filter in Hk. subst courses'.
    rewrite (IH _ H). apply filter_matches_all.
Qed.

Lemma filter_courses_total (filters : list filter) (courses : list course) :
  (forall c f, In c courses -> In f filters ->
               dict_in (filter_name f) (features c) = true) ->
  __filter_courses__ courses filters
  = Ok (List.filter (matches_all filters) courses).
Proof.
  revert courses. induction filters as [| f filters IH]; intros courses Hin.
  - cbn [__filter_courses__]. rewrite filter_matches_nil. reflexivity.
  - cbn [__filter_courses__].
    rewrite keep_matching_total
      by (intros c Hc; apply Hin; [exact Hc | left; reflexivity]).
    cbn [bind Monad_result].
    rewrite IH.
    + rewrite filter_matches_all. reflexivity.
    + intros c f' Hc Hf'. apply filter_In in Hc. destruct Hc as [Hc _].
      apply Hin; [exact Hc | right; exact Hf'].
Qed.

(** C8.  An empty filter list returns the courses unchanged; filtering
    by one filter and then by another is the same computation as filtering
    by the list of both; whenever the filtering returns, the result is the
    sub-list of the courses that match every filter by exact equality; and
    it does return (with that sub-list) when every course has every
    filtered attribute. *)
Theorem C8_filter_identity_and_conjunction :
  (forall courses, __filter_courses__ courses [] = Ok courses)
  /\ (forall courses f1 f2,
        (courses' <- __filter_courses__ courses [f1] ;;
         __filter_courses__ courses' [f2])
        = __filter_courses__ courses [f1; f2])
  /\ (forall courses filters out,
        __filter_courses__ courses filters = Ok out ->
        out = List.filter (matches_all filters) courses)
  /\ (forall courses filters,
        (forall c f, In c courses -> In f filters ->
                     dict_in (filter_name f) (features c) = true) ->
        __filter_courses__ courses filters
        = Ok (List.filter (matches_all filters) courses)).
Proof.
  split; [| split; [| split]].
  - reflexivity.
  - intros courses f1 f2. cbn [__filter_courses__].
    destruct (keep_matching courses f1) as [courses' | e]; cbn.
    + destruct (keep_matching courses' f2); reflexivity.
    + reflexivity.
  - intros courses filters out. apply filter_courses_spec.
  - intros courses filters. apply filter_courses_total.
Qed.

(** ** Reals *)

Lemma Rltb_true (x y : R) : Np.Rltb x y = true <-> (x < y)%R.
Proof.
  unfold Np.Rltb. destruct (Rlt_dec x y); split; intros H;
    solve [assumption | reflexivity | discriminate H | contradiction].
Qed.

Lemma Rltb_false (x y : R) : Np.Rltb x y = false <-> (y <= x)%R.
Proof.
  unfold Np.Rltb. destruct (Rlt_dec x y); split; intros H;
    solve [reflexivity | discriminate H | lra].
Qed.

Lemma Reqb_true (x y : R) : Np.Reqb x y = true <-> x = y.
Proof.
  unfold Np.Reqb. destruct (Req_dec_T x y); split; intros H;
    solve [assumption | reflexivity | discriminate H | contradiction].
Qed.

Lemma Reqb_false (x y : R) : Np.Reqb x y = false <-> x <> y.
Proof.
  unfold Np.Reqb. destruct (Req_dec_T x y); split; intros H;
    solve [assumption | reflexivity | discriminate H | contradiction].
Qed.

Lemma truediv_nonzero (x y : R) : y <> 0%R -> truediv x y = Ok (x / y)%R.
Proof.
  intros Hy. unfold truediv. apply Reqb_false in Hy. rewrite Hy. reflexivity.
Qed.

Lemma truediv_zero (x : R) : truediv x 0 = Raise ZeroDivisionError.
Proof.
  unfold truediv. rewrite (proj2 (Reqb_true 0 0) eq_refl). reflexivity.
Qed.

Lemma fold_left_Rplus (l : list R) (a : R) :
  fold_left Rplus l a = (a + Rsum l)%R.
Proof.
  revert a. induction l as [| x l IH]; intros a; cbn.
  - lra.
  - rewrite IH. lra.
Qed.

Lemma py_sum_Rsum (l : list R) : py_sum l = Rsum l.
Proof. unfold py_sum. rewrite fold_left_Rplus. lra. Qed.


Lemma Rsum_Permutation (l1 l2 : list R) :
  Permutation l1 l2 -> Rsum l1 = Rsum l2.
Proof.
  induction 1 as [| x l l' _ IH | x y l | l l' l'' _ IH1 _ IH2]; cbn.
  - reflexivity.
  - rewrite IH. reflexivity.
  - lra.
  - congruence.
Qed.


(** ** Dicts *)

Lemma keys_app {V} (d1 d2 : dict V) : keys (d1 ++ d2) = keys d1 ++ keys d2.
Proof. unfold keys. apply map_app. Qed.

Lemma dict_get_None {V} (d : dict V) (k : string) :
  dict_get d k = None <-> ~ In k (keys d).
Proof.
  induction d as [| [k' v] d IH]; cbn.
  - tauto.
  - destruct (String.eqb_spec k' k) as [-> | Hne].
    + split; [discriminate | intros H; exfalso; apply H; left; reflexivity].
    + rewrite IH. split; [intros H [Heq | Hin]; [exact (Hne Heq) | exact (H Hin)]
                         | intros H Hin; apply H; right; exact Hin].
Qed.

Lemma dict_get_In {V} (d : dict V) (k : string) :
  In k (keys d) -> exists v, dict_get d k = Some v.
Proof.
  intros Hin. destruct (dict_get d k) as [v |] eqn:E.
  - exists v. reflexivity.
  - apply dict_get_None in E. contradiction.
Qed.

Lemma dict_get_Some_In {V} (d : dict V) (k : string) (v : V) :
  dict_get d k = Some v -> In (k, v) d.
Proof.
  induction d as [| [k' v'] d IH]; cbn; [discriminate |].
  destruct (String.eqb_spec k' k) as [-> | Hne]; intros H.
  - inversion H. left. reflexivity.
  - right. apply IH. exact H.
Qed.


Lemma dict_set_fresh {V} (d : dict V) (k : string) (v : V) :
  ~ In k (keys d) -> dict_set d k v = d ++ [(k, v)].
Proof.
  induction d as [| [k' v'] d IH]; cbn; intros Hnotin.
  - reflexivity.
  - destruct (String.eqb_spec k' k) as [-> | Hne].
    + exfalso. apply Hnotin. left. reflexivity.
    + rewrite IH; [reflexivity |]. intros Hin. apply Hnotin. right. exact Hin.
Qed.

Lemma dict_set_middle {V} (pre rest : dict V) (k : string) (v v' : V) :
  ~ In k (keys pre) ->
  dict_set (pre ++ (k, v) :: rest) k v' = pre ++ (k, v') :: rest.
Proof.
  induction pre as [| [k' w] pre IH]; cbn; intros Hnotin.
  - rewrite String.eqb_refl. reflexivity.
  - destruct (String.eqb_spec k' k) as [-> | Hne].
    + exfalso. apply Hnotin. left. reflexivity.
    + rewrite IH; [reflexivity |]. intros Hin. apply Hnotin. right. exact Hin.
Qed.

Lemma keys_scale (n : R) (d : dict R) : keys (scale n d) = keys d.
Proof.
  unfold keys, scale. rewrite map_map. apply map_ext. reflexivity.
Qed.

Lemma values_scale (n : R) (d : dict R) :
  values (scale n d) = map (fun v => v / n)%R (values d).
Proof.
  unfold values, scale. rewrite !map_map. apply map_ext. reflexivity.
Qed.


(** ** The normalisation of the preferences *)

Lemma normalizer_nonzero (prefs : dict R) :
  prefs <> [] -> normalizer prefs <> 0%R.
Proof.
  intros Hne. unfold normalizer.
  destruct (Np.Rltb (py_sum (values prefs)) 1e-3) eqn:E.
  - assert (0 < INR (List.length prefs))%R as Hlen.
    { apply lt_0_INR. destruct prefs; [contradiction | cbn; lia]. }
    intros H0. unfold Rdiv in H0. rewrite Rmult_1_l in H0.
    apply Rinv_neq_0_compat in H0; [exact H0 | lra].
  - apply Rltb_false in E. lra.
Qed.

Lemma update_each_run (items : list (string * R)) :
  forall (pre : dict R) (n : R) (h : heap),
    n <> 0%R ->
    preferences h = pre ++ items ->
    NoDup (keys (pre ++ items)) ->
    update_each items n h
    = (Ok tt, {| self_model := self_model h;
                 preferences := pre ++ scale n items |}).
Proof.
  induction items as [| [k v] rest IH]; intros pre n h Hn Hh Hnd.
  - cbn. rewrite app_nil_r in *. destruct h as [m d]. cbn in *. subst d.
    reflexivity.
  - cbn [update_each]. unfold lift, get_preferences, set_preferences.
    cbn [bind Monad_M]. rewrite (truediv_nonzero v Hn). rewrite Hh.
    assert (Hfresh : ~ In k (keys pre)).
    { rewrite keys_app in Hnd. cbn in Hnd. apply NoDup_remove_2 in Hnd.
      intros Hin. apply Hnd. apply in_or_app. left. exact Hin. }
    rewrite dict_set_middle by exact Hfresh.
    rewrite (IH (pre ++ [(k, (v / n)%R)]) n).
    + cbn [self_model preferences scale map fst snd].
      rewrite <- app_assoc. reflexivity.
    + exact Hn.
    + cbn [preferences]. rewrite <- app_assoc. reflexivity.
    + rewrite <- app_assoc. cbn [app].
      rewrite keys_app in *. exact Hnd.
Qed.

Lemma reorder_run (d : dict R) (categories : list string) :
  forall acc : dict R,
    NoDup categories ->
    (forall k, In k categories -> ~ In k (keys acc)) ->
    (forall k, In k categories -> In k (keys d)) ->
    reorder d categories acc = Ok (acc ++ pick d categories).
Proof.
  induction categories as [| key rest IH]; intros acc Hnd Hfresh Hin.
  - cbn. rewrite app_nil_r. reflexivity.
  - cbn [reorder pick map].
    destruct (dict_get_In d key (Hin key (or_introl eq_refl))) as (v & Hv).
    unfold subscript. rewrite Hv. cbn [bind Monad_result].
    rewrite dict_set_fresh by (apply Hfresh; left; reflexivity).
    inversion Hnd as [| ? ? Hnotin Hnd']; subst.
    rewrite IH.
    + rewrite <- app_assoc. reflexivity.
    + exact Hnd'.
    + intros k Hk. rewrite keys_app. intros Hin'.
      apply in_app_or in Hin'. destruct Hin' as [Hin' | Hin'].
      * apply (Hfresh k); [right; exact Hk | exact Hin'].
      * cbn in Hin'. destruct Hin' as [<- | []]. contradiction.
    + intros k Hk. apply Hin. right. exact Hk.
Qed.

Lemma reorder_missing (d : dict R) (categories : list string) :
  forall acc : dict R,
    (exists k, In k categories /\ ~ In k (keys d)) ->
    reorder d categories acc = Raise KeyError.
Proof.
  induction categories as [| key rest IH]; intros acc (k & Hk & Hmiss).
  - contradiction.
  - cbn [reorder]. unfold subscript.
    destruct (dict_get d key) as [v |] eqn:E; cbn [bind Monad_result].
    + apply IH. exists k. split; [| exact Hmiss].
      destruct Hk as [-> | Hk]; [| exact Hk].
      exfalso. apply dict_get_None in Hmiss. congruence.
    + reflexivity.
Qed.

(** The first half of the normalisation: the caller's dict is rescaled in
    place. *)
Lemma rescale_in_place (m : option Model) (prefs : dict R) :
  prefs <> [] ->
  NoDup (keys prefs) ->
  forall (B : Type) (k : M B),
    (prefs' <- get_preferences ;;
     let normalization := py_sum (values prefs') in
     normalization <-
       (if Np.Rltb normalization 1e-3%R
        then lift (truediv 1 (INR (List.length prefs')))
        else ret normalization) ;;
     update_each prefs' normalization ;;; k)
      {| self_model := m; preferences := prefs |}
    = k {| self_model := m; preferences := scale (normalizer prefs) prefs |}.
Proof.
  intros Hne Hnd B k.
  pose proof (normalizer_nonzero Hne) as Hn. unfold normalizer in *.
  unfold get_preferences. cbn [bind Monad_M preferences].
  destruct (Np.Rltb (py_sum (values prefs)) 1e-3) eqn:E.
  - unfold lift. rewrite (truediv_nonzero 1).
    + rewrite (@update_each_run prefs [] _
                 {| self_model := m; preferences := prefs |} Hn eq_refl Hnd).
      reflexivity.
    + apply not_0_INR. destruct prefs; [contradiction | discriminate].
  - cbn [ret Monad_M].
    rewrite (@update_each_run prefs [] _
                 {| self_model := m; preferences := prefs |} Hn eq_refl Hnd).
    reflexivity.
Qed.

Lemma normalize_preferences_run (m : Model) (prefs : dict R) :
  prefs <> [] ->
  NoDup (keys prefs) ->
  NoDup (meta_categories m) ->
  incl (meta_categories m) (keys prefs) ->
  normalize_preferences {| self_model := Some m; preferences := prefs |}
  = (Ok (pick (scale (normalizer prefs) prefs) (meta_categories m)),
     {| self_model := Some m;
        preferences := scale (normalizer prefs) prefs |}).
Proof.
  intros Hne Hnd Hmeta Hincl. unfold normalize_preferences.
  rewrite (rescale_in_place (Some m) Hne Hnd).
  unfold get_model, get_preferences, lift.
  cbn [bind Monad_M self_model preferences].
  rewrite reorder_run.
  - reflexivity.
  - exact Hmeta.
  - intros k _ [].
  - intros k Hk. rewrite keys_scale. apply Hincl. exact Hk.
Qed.

Lemma normalize_preferences_empty (m : option Model) :
  normalize_preferences {| self_model := m; preferences := [] |}
  = (Raise ZeroDivisionError, {| self_model := m; preferences := [] |}).
Proof.
  unfold normalize_preferences, get_preferences.
  cbn [bind Monad_M preferences values map py_sum fold_left].
  rewrite (proj2 (Rltb_true 0 1e-3)) by lra.
  unfold lift. cbn [List.length INR]. rewrite truediv_zero. reflexivity.
Qed.

Lemma keys_pick (d : dict R) (categories : list string) :
  keys (pick d categories) = categories.
Proof.
  unfold keys, pick. rewrite map_map. cbn. apply map_id.
Qed.

Lemma dict_get_pick (d : dict R) (categories : list string) (k : string) (v : R) :
  In k categories ->
  dict_get d k = Some v ->
  dict_get (pick d categories) k = Some v.
Proof.
  intros Hin Hv. induction categories as [| key rest IH]; [contradiction |].
  cbn [pick map dict_get]. destruct (String.eqb_spec key k) as [-> | Hne].
  - rewrite Hv. reflexivity.
  - destruct Hin as [Heq | Hin]; [contradiction |]. apply IH. exact Hin.
Qed.

Lemma pick_cons (d : dict R) (k : string) (l : list string) :
  pick d (k :: l)
  = (k, match dict_get d k with Some v => v | None => 0%R end) :: pick d l.
Proof. reflexivity. Qed.

Lemma pick_cons_fresh (d : dict R) (k : string) (v : R) (l : list string) :
  ~ In k l -> pick ((k, v) :: d) l = pick d l.
Proof.
  intros Hfresh. unfold pick. apply map_ext_in. intros k' Hk'.
  cbn [dict_get]. destruct (String.eqb_spec k k') as [-> | Hne].
  - contradiction.
  - reflexivity.
Qed.

Lemma pick_keys (d : dict R) : NoDup (keys d) -> pick d (keys d) = d.
Proof.
  induction d as [| [k v] d IH]; intros Hnd.
  - reflexivity.
  - inversion Hnd as [| ? ? Hnotin Hnd']; subst.
    change (keys ((k, v) :: d)) with (k :: keys d).
    rewrite pick_cons. cbn [dict_get]. rewrite String.eqb_refl.
    rewrite pick_cons_fresh by exact Hnotin.
    rewrite IH by exact Hnd'. reflexivity.
Qed.

Lemma Rsum_pick (d : dict R) (categories : list string) :
  NoDup (keys d) ->
  NoDup categories ->
  (forall k, In k (keys d) <-> In k categories) ->
  Rsum (values (pick d categories)) = Rsum (values d).
Proof.
  intros Hd Hc Hsame.
  assert (Hperm : Permutation categories (keys d)).
  { apply NoDup_Permutation; [exact Hc | exact Hd |].
    intros k. symmetry. apply Hsame. }
  rewrite <- (@pick_keys d Hd) at 2.
  apply Rsum_Permutation. unfold values, pick.
  apply Permutation_map. apply Permutation_map. exact Hperm.
Qed.

Lemma NoDup_XY : NoDup ["X"; "Y"]%string.
Proof. repeat constructor; cbn; intuition discriminate. Qed.

Lemma Rdiv_0_l (n : R) : (0 / n)%R = 0%R.
Proof. unfold Rdiv. apply Rmult_0_l. Qed.

(** C2, evaluated.  For the all-zero query [{'X': 0, 'Y': 0}] the sum is
    below 1e-3, [normalization] becomes [1/2], and dividing by it leaves
    both weights at 0: the result is not the uniform distribution
    [{'X': 1/2, 'Y': 1/2}]. *)
Theorem C2_zero_preferences_stay_zero :
  normalize_preferences Scenario.prefer_nothing
  = (Ok [("X", 0%R); ("Y", 0%R)]%string, Scenario.prefer_nothing)
  /\ normalizer (preferences Scenario.prefer_nothing) = (1 / 2)%R
  /\ (0 <> 1 / 2)%R.
Proof.
  split; [| split].
  - unfold Scenario.prefer_nothing.
    rewrite normalize_preferences_run.
    + cbn. rewrite !Rdiv_0_l. reflexivity.
    + discriminate.
    + exact NoDup_XY.
    + exact NoDup_XY.
    + intros k Hk. exact Hk.
  - unfold normalizer. cbn.
    rewrite (proj2 (Rltb_true _ _)) by lra. lra.
  - lra.
Qed.

(** ** Scoring *)

Lemma accumulate_sim_dot (sim : list R) :
  forall (weights : list R) (acc : R),
    (List.length sim <= List.length weights)%nat ->
    accumulate_sim acc sim weights = Ok (acc + dot sim weights)%R.
Proof.
  induction sim as [| s sim IH]; intros weights acc Hlen.
  - cbn. f_equal. destruct weights; cbn; lra.
  - destruct weights as [| w weights]; cbn in Hlen; [lia |].
    cbn [accumulate_sim dot]. rewrite IH by lia. f_equal. lra.
Qed.

Lemma accumulate_sim_short (sim : list R) :
  forall (weights : list R) (acc : R),
    (List.length weights < List.length sim)%nat ->
    accumulate_sim acc sim weights = Raise IndexError.
Proof.
  induction sim as [| s sim IH]; intros weights acc Hlen; cbn in Hlen.
  - lia.
  - destruct weights as [| w weights]; cbn in Hlen |- *.
    + reflexivity.
    + apply IH. lia.
Qed.

Lemma known_find (m : Model) (id : Z) :
  known m id = true
  <-> exists entry,
      find (fun d => Z.eqb (course_id d) id) (model_courses m) = Some entry.
Proof.
  unfold known. induction (model_courses m) as [| d l IH]; cbn.
  - split; [discriminate | intros (? & H); discriminate H].
  - destruct (Z.eqb (course_id d) id); cbn.
    + split; [intros _; exists d; reflexivity | reflexivity].
    + exact IH.
Qed.

Lemma unknown_find (m : Model) (id : Z) :
  known m id = false
  <-> find (fun d => Z.eqb (course_id d) id) (model_courses m) = None.
Proof.
  unfold known. induction (model_courses m) as [| d l IH]; cbn.
  - tauto.
  - destruct (Z.eqb (course_id d) id); cbn.
    + split; discriminate.
    + exact IH.
Qed.

Lemma LAMBDA_value : _LAMBDA_ = (10 * ln 10)%R.
Proof. unfold _LAMBDA_. apply Rmult_comm. Qed.

Lemma score_course_unknown (m : Model) (np : dict R) (c : course) :
  unknown m c ->
  score_course m np c
  = Ok {| crs_course_id := course_id c; crs_name := name c;
          crs_features := features c; crs_sim := 0; crs_score := 0 |}.
Proof.
  unfold unknown, score_course. intros ->. reflexivity.
Qed.

Lemma score_course_known (m : Model) (np : dict R) (c entry : course) :
  find (fun d => Z.eqb (course_id d) (course_id c)) (model_courses m)
  = Some entry ->
  (List.length (Sim entry) <= List.length (values np))%nat ->
  score_course m np c
  = Ok {| crs_course_id := course_id c; crs_name := name c;
          crs_features := features c;
          crs_sim := dot (Sim entry) (values np);
          crs_score := (10 * ln 10 * dot (Sim entry) (values np)
                        + ln (INR (count entry) + 1))%R |}.
Proof.
  intros Hfind Hlen. unfold score_course.
  assert (Hk : known m (course_id c) = true)
    by (apply known_find; exists entry; exact Hfind).
  rewrite Hk. cbn [negb]. unfold model_entry. rewrite Hfind.
  cbn [bind Monad_result]. rewrite accumulate_sim_dot by exact Hlen.
  cbn [bind Monad_result]. rewrite LAMBDA_value. rewrite Rplus_0_l.
  reflexivity.
Qed.

Lemma score_course_scored (m : Model) (np : dict R) (c : course) :
  (forall entry,
      find (fun d => Z.eqb (course_id d) (course_id c)) (model_courses m)
      = Some entry ->
      (List.length (Sim entry) <= List.length (values np))%nat) ->
  score_course m np c = Ok (scored m (values np) c).
Proof.
  intros Hlen. unfold scored.
  destruct (find _ (model_courses m)) as [entry |] eqn:Hfind.
  - apply score_course_known; [exact Hfind | apply Hlen; reflexivity].
  - apply score_course_unknown. apply unknown_find. exact Hfind.
Qed.

Lemma score_courses_scored (m : Model) (np : dict R) (courses : list course) :
  (forall entry, In entry (model_courses m) ->
                 (List.length (Sim entry) <= List.length (values np))%nat) ->
  score_courses m np courses = Ok (map (scored m (values np)) courses).
Proof.
  intros Hlen. induction courses as [| c rest IH].
  - reflexivity.
  - cbn [score_courses map]. rewrite score_course_scored.
    + rewrite IH. reflexivity.
    + intros entry Hfind. apply Hlen. apply find_some in Hfind.
      apply Hfind.
Qed.

(** ** Sorting *)

Lemma insert_by_score_perm (x : crs) (l : list crs) :
  Permutation (insert_by_score x l) (x :: l).
Proof.
  induction l as [| y l IH]; cbn.
  - apply Permutation_refl.
  - destruct (Np.Rltb (crs_score x) (crs_score y)).
    + apply perm_trans with (y :: x :: l).
      * apply perm_skip. exact IH.
      * apply perm_swap.
    + apply Permutation_refl.
Qed.

Lemma sorted_by_score_perm (l : list crs) : Permutation (sorted_by_score l) l.
Proof.
  induction l as [| x l IH]; cbn.
  - apply perm_nil.
  - apply perm_trans with (x :: sorted_by_score l).
    + apply insert_by_score_perm.
    + apply perm_skip. exact IH.
Qed.

Lemma insert_by_score_sorted (x : crs) (l : list crs) :
  StronglySorted score_ge l -> StronglySorted score_ge (insert_by_score x l).
Proof.
  induction l as [| y l IH]; intros Hs; cbn.
  - constructor; constructor.
  - inversion Hs as [| ? ? Hs' Hall]; subst.
    destruct (Np.Rltb (crs_score x) (crs_score y)) eqn:E.
    + constructor; [apply IH; exact Hs' |].
      apply Forall_forall. intros z Hz.
      apply (Permutation_in _ (insert_by_score_perm x l)) in Hz.
      destruct Hz as [<- | Hz].
      * apply Rltb_true in E. unfold score_ge. lra.
      * rewrite Forall_forall in Hall. apply Hall. exact Hz.
    + apply Rltb_false in E. constructor; [exact Hs |].
      constructor; [exact E |].
      apply Forall_forall. intros z Hz. rewrite Forall_forall in Hall.
      specialize (Hall z Hz). unfold score_ge in *. lra.
Qed.

Lemma sorted_by_score_sorted (l : list crs) :
  StronglySorted score_ge (sorted_by_score l).
Proof.
  induction l as [| x l IH]; cbn.
  - constructor.
  - apply insert_by_score_sorted. exact IH.
Qed.

Lemma sorted_after (l1 l2 : list crs) (x y : crs) :
  StronglySorted score_ge (l1 ++ x :: l2) -> In y l2 -> score_ge x y.
Proof.
  induction l1 as [| z l1 IH]; cbn; intros Hs Hy.
  - inversion Hs as [| ? ? _ Hall]; subst.
    rewrite Forall_forall in Hall. apply Hall. exact Hy.
  - inversion Hs; subst. apply IH; assumption.
Qed.

(** ** [__rank_courses__] as a whole *)

Lemma values_pick_length (d : dict R) (categories : list string) :
  List.length (values (pick d categories)) = List.length categories.
Proof. unfold values, pick. rewrite !length_map. reflexivity. Qed.

Lemma rank_courses_run (m : Model) (prefs : dict R) (courses : list course) :
  well_formed_query m prefs ->
  sims_fit m ->
  __rank_courses__ courses {| self_model := Some m; preferences := prefs |}
  = (Ok (sorted_by_score
           (map (scored m (values (pick (scale (normalizer prefs) prefs)
                                        (meta_categories m))))
                courses)),
     {| self_model := Some m;
        preferences := scale (normalizer prefs) prefs |}).
Proof.
  intros (Hne & Hnd & Hmeta & Hincl) Hfit. unfold __rank_courses__.
  cbn [bind Monad_M].
  rewrite (normalize_preferences_run m Hne Hnd Hmeta Hincl).
  unfold get_model, lift. cbn [bind Monad_M self_model ret].
  rewrite score_courses_scored.
  - reflexivity.
  - intros entry Hin. rewrite values_pick_length. apply Hfit. exact Hin.
Qed.

(** ** The two-course scenario *)

Lemma ln_101_lt_LAMBDA : (ln 101 < _LAMBDA_)%R.
Proof.
  rewrite LAMBDA_value.
  assert (H10 : (0 < ln 10)%R).
  { rewrite <- ln_1. apply ln_increasing; lra. }
  assert (H1000 : (ln 1000 = ln 10 + ln 10 + ln 10)%R).
  { replace 1000%R with (10 * 10 * 10)%R by lra.
    rewrite !ln_mult by lra. reflexivity. }
  assert (H101 : (ln 101 < ln 1000)%R) by (apply ln_increasing; lra).
  lra.
Qed.

Lemma normalizer_prefer_X :
  normalizer (preferences Scenario.prefer_X) = 1%R.
Proof.
  unfold normalizer. cbn.
  rewrite (proj2 (Rltb_false _ _)) by lra. lra.
Qed.

Lemma well_formed_prefer_X :
  well_formed_query Scenario.xy_model (preferences Scenario.prefer_X).
Proof.
  repeat split.
  - discriminate.
  - exact NoDup_XY.
  - exact NoDup_XY.
  - intros k Hk. exact Hk.
Qed.

Lemma sims_fit_xy : sims_fit Scenario.xy_model.
Proof.
  intros entry [<- | [<- | []]]; cbn; lia.
Qed.

Lemma scored_A :
  scored Scenario.xy_model
    (values (pick (scale 1 (preferences Scenario.prefer_X)) ["X"; "Y"]%string))
    Scenario.A
  = Scenario.ranked_A.
Proof.
  unfold scored, Scenario.ranked_A. cbn.
  f_equal.
  - lra.
  - rewrite LAMBDA_value.
    replace (0 + 1)%R with 1%R by lra. rewrite ln_1. lra.
Qed.

Lemma scored_B :
  scored Scenario.xy_model
    (values (pick (scale 1 (preferences Scenario.prefer_X)) ["X"; "Y"]%string))
    Scenario.B
  = Scenario.ranked_B.
Proof.
  unfold scored, Scenario.ranked_B.
  cbn -[INR]. f_equal.
  - lra.
  - rewrite INR_IZR_INZ. cbn [Z.of_nat Pos.of_succ_nat Pos.succ].
    replace (100 + 1)%R with 101%R by lra. lra.
Qed.

Lemma rank_scenario (courses : list course) :
  __rank_courses__ courses Scenario.prefer_X
  = (Ok (sorted_by_score
           (map (scored Scenario.xy_model
                   (values (pick (scale 1 (preferences Scenario.prefer_X))
                                 ["X"; "Y"]%string)))
                courses)),
     {| self_model := Some Scenario.xy_model;
        preferences := scale 1 (preferences Scenario.prefer_X) |}).
Proof.
  unfold Scenario.prefer_X at 1.
  rewrite (rank_courses_run _ well_formed_prefer_X sims_fit_xy).
  rewrite normalizer_prefer_X. reflexivity.
Qed.

Lemma sorted_A_B :
  sorted_by_score [Scenario.ranked_A; Scenario.ranked_B]
  = [Scenario.ranked_A; Scenario.ranked_B].
Proof.
  cbn [sorted_by_score insert_by_score].
  rewrite (proj2 (Rltb_false _ _)); [reflexivity |].
  cbn [Scenario.ranked_A Scenario.ranked_B crs_score].
  pose proof ln_101_lt_LAMBDA. lra.
Qed.

Lemma sorted_B_A :
  sorted_by_score [Scenario.ranked_B; Scenario.ranked_A]
  = [Scenario.ranked_A; Scenario.ranked_B].
Proof.
  cbn [sorted_by_score insert_by_score].
  rewrite (proj2 (Rltb_true _ _)); [reflexivity |].
  cbn [Scenario.ranked_A Scenario.ranked_B crs_score].
  exact ln_101_lt_LAMBDA.
Qed.

(** C5.  [_LAMBDA_] is [10 * ln 10]; a course of the similarity table is
    scored [_LAMBDA_ * sim + ln (count + 1)] with [sim] the inner product
    of its similarity vector and the normalised weights, and the ranking
    is a permutation of these scored courses; in the scenario with
    [A(sim=[1,0], count=0)], [B(sim=[0,1], count=100)] and the query
    [{'X': 1, 'Y': 0}], [A] scores [_LAMBDA_], [B] scores [ln 101], and the
    ranking is [[A, B]] from either input order. *)
Theorem C5_score_formula_and_scenario :
  _LAMBDA_ = (10 * ln 10)%R
  /\ (forall m np c entry,
        find (fun d => Z.eqb (course_id d) (course_id c)) (model_courses m)
        = Some entry ->
        (List.length (Sim entry) <= List.length (values np))%nat ->
        score_course m np c
        = Ok {| crs_course_id := course_id c; crs_name := name c;
                crs_features := features c;
                crs_sim := dot (Sim entry) (values np);
                crs_score := (_LAMBDA_ * dot (Sim entry) (values np)
                              + ln (INR (count entry) + 1))%R |})
  /\ (forall m prefs courses,
        well_formed_query m prefs ->
        sims_fit m ->
        exists np out h',
          normalize_preferences {| self_model := Some m; preferences := prefs |}
          = (Ok np, h')
          /\ __rank_courses__ courses
               {| self_model := Some m; preferences := prefs |}
             = (Ok out, h')
          /\ Permutation out (map (scored m (values np)) courses))
  /\ (exists h',
        __rank_courses__ [Scenario.A; Scenario.B] Scenario.prefer_X
        = (Ok [Scenario.ranked_A; Scenario.ranked_B], h'))
  /\ (exists h',
        __rank_courses__ [Scenario.B; Scenario.A] Scenario.prefer_X
        = (Ok [Scenario.ranked_A; Scenario.ranked_B], h'))
  /\ (crs_score Scenario.ranked_B < crs_score Scenario.ranked_A)%R.
Proof.
  split; [exact LAMBDA_value |].
  split.
  { intros m np c entry Hfind Hlen. rewrite LAMBDA_value.
    apply score_course_known; assumption. }
  split.
  { intros m prefs courses Hwf Hfit.
    pose proof Hwf as (Hne & Hnd & Hmeta & Hincl).
    eexists. eexists. eexists. split; [| split].
    - apply (normalize_preferences_run m Hne Hnd Hmeta Hincl).
    - apply (rank_courses_run courses Hwf Hfit).
    - apply sorted_by_score_perm. }
  split.
  { eexists. rewrite rank_scenario. cbn [map].
    rewrite scored_A, scored_B, sorted_A_B. reflexivity. }
  split.
  { eexists. rewrite rank_scenario. cbn [map].
    rewrite scored_A, scored_B, sorted_B_A. reflexivity. }
  exact ln_101_lt_LAMBDA.
Qed.

(** The general parts of C5 at the scenario: [B] is scored by the
    formula, and the ranking of [[B, A]] is a permutation of the scored
    courses. *)
Lemma C5_witness_scenario :
  score_course Scenario.xy_model [("X", 1%R); ("Y", 0%R)]%string Scenario.B
  = Ok {| crs_course_id := 2; crs_name := "B";
          crs_features := [("price", "free")]%string;
          crs_sim := dot [0; 1]%R [1; 0]%R;
          crs_score := (_LAMBDA_ * dot [0; 1]%R [1; 0]%R
                        + ln (INR 100 + 1))%R |}
  /\ exists np out h',
       normalize_preferences Scenario.prefer_X = (Ok np, h')
       /\ __rank_courses__ [Scenario.B; Scenario.A] Scenario.prefer_X
          = (Ok out, h')
       /\ Permutation out
            (map (scored Scenario.xy_model (values np))
                 [Scenario.B; Scenario.A]).
Proof.
  split.
  - apply (proj1 (proj2 C5_score_formula_and_scenario)
             Scenario.xy_model [("X", 1%R); ("Y", 0%R)]%string
             Scenario.B Scenario.B).
    + reflexivity.
    + cbn. lia.
  - apply (proj1 (proj2 (proj2 C5_score_formula_and_scenario))
             Scenario.xy_model (preferences Scenario.prefer_X)
             [Scenario.B; Scenario.A]).
    + exact well_formed_prefer_X.
    + exact sims_fit_xy.
Defined.

(** ** Unknown courses *)

Lemma scored_course_id (m : Model) (w : list R) (c : course) :
  crs_course_id (scored m w c) = course_id c.
Proof. unfold scored. destruct (find _ _); reflexivity. Qed.

Lemma scored_unknown (m : Model) (w : list R) (c : course) :
  unknown m c ->
  scored m w c
  = {| crs_course_id := course_id c; crs_name := name c;
       crs_features := features c; crs_sim := 0; crs_score := 0 |}.
Proof.
  intros Hu. apply unknown_find in Hu. unfold scored. rewrite Hu. reflexivity.
Qed.

(** C7.  A course whose id is not in the similarity table is given
    [sim = 0] and [score = 0] without an exception; the ranking of a list
    with such courses returns, contains them with these values, and, when
    every course of the table has a positive score, no course of the table
    is ranked after an unknown one. *)
Theorem C7_unknown_courses_rank_last :
  (forall m np c,
      unknown m c ->
      score_course m np c
      = Ok {| crs_course_id := course_id c; crs_name := name c;
              crs_features := features c; crs_sim := 0; crs_score := 0 |})
  /\ (forall m prefs courses,
        well_formed_query m prefs ->
        sims_fit m ->
        exists out h',
          __rank_courses__ courses
            {| self_model := Some m; preferences := prefs |}
          = (Ok out, h')
          /\ (forall c, In c courses -> unknown m c ->
                In {| crs_course_id := course_id c; crs_name := name c;
                      crs_features := features c;
                      crs_sim := 0; crs_score := 0 |} out)
          /\ ((forall x, In x out -> known m (crs_course_id x) = true ->
                         (0 < crs_score x)%R) ->
              forall l1 u l2,
                out = l1 ++ u :: l2 ->
                known m (crs_course_id u) = false ->
                forall y, In y l2 -> known m (crs_course_id y) = false)).
Proof.
  split.
  { intros m np c Hu. apply score_course_unknown. exact Hu. }
  intros m prefs courses Hwf Hfit.
  set (w := values (pick (scale (normalizer prefs) prefs) (meta_categories m))).
  exists (sorted_by_score (map (scored m w) courses)).
  eexists. split; [apply (rank_courses_run courses Hwf Hfit) |].
  assert (Hperm := sorted_by_score_perm (map (scored m w) courses)).
  split.
  - intros c Hc Hu.
    apply (Permutation_in _ (Permutation_sym Hperm)).
    rewrite <- (scored_unknown w Hu). apply in_map. exact Hc.
  - intros Hpos l1 u l2 Hsplit Hku y Hy.
    assert (Hsorted := sorted_by_score_sorted (map (scored m w) courses)).
    rewrite Hsplit in Hsorted, Hperm.
    assert (Hu0 : crs_score u = 0%R).
    { assert (Hin : In u (map (scored m w) courses)).
      { apply (Permutation_in _ Hperm). apply in_or_app. right. left.
        reflexivity. }
      apply in_map_iff in Hin. destruct Hin as (c & <- & _).
      rewrite scored_course_id in Hku.
      rewrite (scored_unknown w (c := c) Hku). reflexivity. }
    pose proof (@sorted_after l1 l2 u y Hsorted Hy) as Hge. unfold score_ge in Hge.
    destruct (known m (crs_course_id y)) eqn:Hky; [| reflexivity].
    exfalso.
    assert (0 < crs_score y)%R.
    { apply Hpos; [| exact Hky]. rewrite Hsplit.
      apply in_or_app. right. right. exact Hy. }
    lra.
Qed.

Lemma scored_C (w : list R) :
  scored Scenario.xy_model w Scenario.C = Scenario.unranked_C.
Proof. reflexivity. Qed.

Lemma sorted_C_A_B :
  sorted_by_score [Scenario.unranked_C; Scenario.ranked_A; Scenario.ranked_B]
  = [Scenario.ranked_A; Scenario.ranked_B; Scenario.unranked_C].
Proof.
  change (sorted_by_score
            [Scenario.unranked_C; Scenario.ranked_A; Scenario.ranked_B])
    with (insert_by_score Scenario.unranked_C
            (sorted_by_score [Scenario.ranked_A; Scenario.ranked_B])).
  rewrite sorted_A_B. cbn [insert_by_score].
  pose proof ln_101_lt_LAMBDA as Hlt.
  assert (H101 : (0 < ln 101)%R).
  { rewrite <- ln_1. apply ln_increasing; lra. }
  rewrite (proj2 (Rltb_true _ _))
    by (cbn [Scenario.unranked_C Scenario.ranked_A crs_score]; lra).
  rewrite (proj2 (Rltb_true _ _))
    by (cbn [Scenario.unranked_C Scenario.ranked_B crs_score]; lra).
  reflexivity.
Qed.

Lemma rank_C_A_B :
  __rank_courses__ [Scenario.C; Scenario.A; Scenario.B] Scenario.prefer_X
  = (Ok [Scenario.ranked_A; Scenario.ranked_B; Scenario.unranked_C],
     {| self_model := Some Scenario.xy_model;
        preferences := scale 1 (preferences Scenario.prefer_X) |}).
Proof.
  rewrite rank_scenario. cbn [map].
  rewrite scored_A, scored_B, scored_C, sorted_C_A_B. reflexivity.
Qed.

(** C7 at the query [[C, A, B]], where [C] is not in the table: [C] is
    ranked with score 0, and nothing of the table stands after it. *)
Lemma C7_witness_C_A_B :
  score_course Scenario.xy_model [] Scenario.C = Ok Scenario.unranked_C
  /\ exists out h',
       __rank_courses__ [Scenario.C; Scenario.A; Scenario.B] Scenario.prefer_X
       = (Ok out, h')
       /\ In Scenario.unranked_C out
       /\ (forall l1 u l2,
             out = l1 ++ u :: l2 ->
             known Scenario.xy_model (crs_course_id u) = false ->
             forall y, In y l2 ->
                       known Scenario.xy_model (crs_course_id y) = false).
Proof.
  split.
  - apply (proj1 C7_unknown_courses_rank_last Scenario.xy_model []
             Scenario.C).
    reflexivity.
  - destruct (proj2 C7_unknown_courses_rank_last Scenario.xy_model
                (preferences Scenario.prefer_X)
                [Scenario.C; Scenario.A; Scenario.B]
                well_formed_prefer_X sims_fit_xy)
      as (out & h' & Hrun & Hin & Hlast).
    exists out, h'. split; [exact Hrun |]. split.
    + apply (Hin Scenario.C); [left; reflexivity | reflexivity].
    + apply Hlast. intros x Hx Hknown.
      change {| self_model := Some Scenario.xy_model;
                preferences := preferences Scenario.prefer_X |}
        with Scenario.prefer_X in Hrun.
      rewrite rank_C_A_B in Hrun. inversion Hrun; subst out.
      pose proof ln_101_lt_LAMBDA as Hlt.
      assert (H101 : (0 < ln 101)%R).
      { rewrite <- ln_1. apply ln_increasing; lra. }
      destruct Hx as [<- | [<- | [<- | []]]];
        cbn [Scenario.ranked_A Scenario.ranked_B crs_score].
      * lra.
      * exact H101.
      * discriminate Hknown.
Defined.

(** ** The split search *)

Lemma considered_app_l (courses : list crs) (s : R) (pre rest : list string)
    (k : nat) (loss : R) :
  (k < List.length pre)%nat ->
  considered courses s (pre ++ rest) k loss <-> considered courses s pre k loss.
Proof.
  intros Hk. unfold considered.
  rewrite nth_error_app1 by exact Hk. tauto.
Qed.

Lemma considered_bound (courses : list crs) (s : R) (l : list string)
    (k : nat) (loss : R) :
  considered courses s l k loss -> (k < List.length l)%nat.
Proof.
  intros (fn & Hnth & _). apply nth_error_Some. congruence.
Qed.

Lemma considered_last (courses : list crs) (s : R) (pre : list string)
    (fn : string) (loss : R) :
  considered courses s (pre ++ [fn]) (List.length pre) loss
  <-> candidate_loss courses s fn = Ok (Some loss).
Proof.
  unfold considered. rewrite nth_error_app2 by lia.
  rewrite Nat.sub_diag. cbn [nth_error]. split.
  - intros (fn' & Heq & H). inversion Heq; subst. exact H.
  - intros H. exists fn. split; [reflexivity | exact H].
Qed.

Lemma considered_snoc (courses : list crs) (s : R) (pre : list string)
    (fn : string) (k : nat) (loss : R) :
  considered courses s (pre ++ [fn]) k loss ->
  considered courses s pre k loss
  \/ (k = List.length pre /\ candidate_loss courses s fn = Ok (Some loss)).
Proof.
  intros H. pose proof (considered_bound H) as Hk.
  rewrite length_app in Hk. cbn in Hk.
  destruct (Nat.eq_dec k (List.length pre)) as [-> | Hne].
  - right. split; [reflexivity |]. apply considered_last in H. exact H.
  - left. apply considered_app_l in H; [exact H | lia].
Qed.

Lemma split_loop_invariant (courses : list crs) (s : R) (rest : list string) :
  forall (pre : list string) (min_j : Z) (min_loss : Np.float) (r : Z),
    search_state courses s pre min_j min_loss ->
    split_loop courses s rest (Z.of_nat (List.length pre)) min_j min_loss
    = Ok r ->
    exists min_loss',
      search_state courses s (pre ++ rest) r min_loss'.
Proof.
  induction rest as [| fn rest IH]; intros pre min_j min_loss r Hst Hrun.
  - cbn in Hrun. inversion Hrun; subst r. exists min_loss.
    rewrite app_nil_r. exact Hst.
  - cbn [split_loop] in Hrun.
    apply bind_Ok_inv in Hrun. destruct Hrun as (l & Hl & Hrun).
    replace (Z.of_nat (List.length pre) + 1)%Z
      with (Z.of_nat (List.length (pre ++ [fn]))) in Hrun
      by (rewrite length_app; cbn; lia).
    replace (pre ++ fn :: rest) with ((pre ++ [fn]) ++ rest)
      by (rewrite <- app_assoc; reflexivity).
    assert (Hkeep : search_state courses s pre min_j min_loss ->
                    (forall loss, l = Some loss ->
                                  exists cur, min_loss = Np.Fin cur
                                              /\ (cur <= loss)%R) ->
                    search_state courses s (pre ++ [fn]) min_j min_loss).
    { intros [(Hj & Hinf & Hnone) | (cur & Hcur & Hj & Hbest & Hmin)] Hle.
      - left. split; [exact Hj |]. split; [exact Hinf |].
        intros k loss Hk. apply considered_snoc in Hk.
        destruct Hk as [Hk | (_ & Hk)].
        + exact (Hnone k loss Hk).
        + rewrite Hk in Hl. inversion Hl as [Hl']. symmetry in Hl'.
          destruct (Hle loss Hl') as (cur & Hcur & _). congruence.
      - right. exists cur. split; [exact Hcur |]. split; [exact Hj |].
        pose proof (considered_bound Hbest) as Hb.
        split.
        + apply considered_app_l; assumption.
        + intros k loss_k Hk. apply considered_snoc in Hk.
          destruct Hk as [Hk | (-> & Hk)].
          * apply Hmin. exact Hk.
          * rewrite Hk in Hl. inversion Hl as [Hl']. symmetry in Hl'.
            destruct (Hle loss_k Hl') as (cur' & Hcur' & Hle').
            assert (cur' = cur) by congruence. subst cur'.
            split; [exact Hle' | lia]. }
    destruct l as [loss |].
    + destruct (Np.lt (Np.Fin loss) min_loss) eqn:Hlt.
      * eapply (IH (pre ++ [fn])); [| exact Hrun].
        right. exists loss. split; [reflexivity |].
        split; [lia |]. rewrite Nat2Z.id.
        split; [apply considered_last; exact Hl |].
        intros k loss_k Hk. apply considered_snoc in Hk.
        destruct Hst as [(_ & _ & Hnone) | (cur & Hcur & Hj & Hbest & Hmin)].
        -- destruct Hk as [Hk | (-> & Hk)].
           ++ exfalso. exact (Hnone k loss_k Hk).
           ++ assert (loss_k = loss) by congruence. subst loss_k.
              split; [lra | lia].
        -- subst min_loss. cbn [Np.lt] in Hlt. apply Rltb_true in Hlt.
           destruct Hk as [Hk | (-> & Hk)].
           ++ destruct (Hmin k loss_k Hk) as (Hle & _).
              split; [lra | intros _; lra].
           ++ assert (loss_k = loss) by congruence. subst loss_k.
              split; [lra | lia].
      * eapply (IH (pre ++ [fn])); [| exact Hrun].
        apply Hkeep; [exact Hst |].
        intros loss' Heq. inversion Heq; subst loss'.
        destruct Hst as [(_ & Hinf & _) | (cur & Hcur & _)].
        -- subst min_loss. cbn in Hlt. discriminate Hlt.
        -- exists cur. split; [exact Hcur |]. subst min_loss.
           cbn [Np.lt] in Hlt. apply Rltb_false in Hlt. exact Hlt.
    + eapply (IH (pre ++ [fn])); [| exact Hrun].
      apply Hkeep; [exact Hst |]. intros loss Heq. discriminate Heq.
Qed.

Lemma dict_get_set_same {V} (d : dict V) (k : string) (v : V) :
  dict_get (dict_set d k v) k = Some v.
Proof.
  induction d as [| [k' v'] d IH]; cbn.
  - rewrite String.eqb_refl. reflexivity.
  - destruct (String.eqb k' k) eqn:E; cbn; rewrite E; [reflexivity | exact IH].
Qed.

Lemma count_values_total (fn : string) (courses : list crs) :
  (forall c, In c courses -> dict_in fn (crs_features c) = true) ->
  forall counts, exists counts', count_values courses fn counts = Ok counts'.
Proof.
  induction courses as [| c rest IH]; intros Hdef counts.
  - exists counts. reflexivity.
  - cbn [count_values].
    destruct (subscript_dict_in _ _ (Hdef c (or_introl eq_refl))) as (v & Hv).
    rewrite Hv. cbn [bind Monad_result].
    assert (Hin : exists n,
               subscript (if dict_in v counts then counts
                          else dict_set counts v 0%Z) v = Ok n).
    { apply subscript_dict_in.
      destruct (dict_in v counts) eqn:E; [exact E |].
      unfold dict_in. rewrite dict_get_set_same. reflexivity. }
    destruct Hin as (n & Hn). rewrite Hn. cbn [bind Monad_result].
    apply IH. intros c' Hc'. apply Hdef. right. exact Hc'.
Qed.

Lemma course_number_total (fn value : string) (score : R) (courses : list crs) :
  (forall c, In c courses -> dict_in fn (crs_features c) = true) ->
  exists n, course_number courses fn value score = Ok n.
Proof.
  induction courses as [| c rest IH]; intros Hdef.
  - exists 0%Z. reflexivity.
  - cbn [course_number].
    destruct (subscript_dict_in _ _ (Hdef c (or_introl eq_refl))) as (v & Hv).
    rewrite Hv. cbn [bind Monad_result].
    destruct IH as (n & Hn); [intros c' Hc'; apply Hdef; right; exact Hc' |].
    rewrite Hn. cbn [bind Monad_result]. eexists. reflexivity.
Qed.

Lemma accumulate_loss_total (fn : string) (courses rest : list crs) :
  (forall c, In c courses -> dict_in fn (crs_features c) = true) ->
  (forall c, In c rest -> dict_in fn (crs_features c) = true) ->
  forall loss, exists loss', accumulate_loss courses rest fn loss = Ok loss'.
Proof.
  intros Hall. induction rest as [| c rest IH]; intros Hdef loss.
  - exists loss. reflexivity.
  - cbn [accumulate_loss].
    destruct (subscript_dict_in _ _ (Hdef c (or_introl eq_refl))) as (v & Hv).
    rewrite Hv. cbn [bind Monad_result].
    destruct (course_number_total fn v (crs_score c) courses Hall) as (n & Hn).
    rewrite Hn. cbn [bind Monad_result].
    apply IH. intros c' Hc'. apply Hdef. right. exact Hc'.
Qed.

Lemma candidate_loss_total (courses : list crs) (s : R) (fn : string) :
  s <> 0%R ->
  (forall c, In c courses -> dict_in fn (crs_features c) = true) ->
  exists l, candidate_loss courses s fn = Ok l.
Proof.
  intros Hs Hdef. unfold candidate_loss.
  destruct (count_values_total fn courses Hdef []) as (counts & Hc).
  rewrite Hc. cbn [bind Monad_result].
  destruct (negb (non_trivial_choice counts courses)).
  - eexists. reflexivity.
  - destruct (accumulate_loss_total fn courses courses Hdef Hdef 0)
      as (loss & Hloss).
    rewrite Hloss. cbn [bind Monad_result].
    rewrite (truediv_nonzero loss Hs). cbn [bind Monad_result].
    eexists. reflexivity.
Qed.

Lemma split_loop_total (courses : list crs) (s : R) (rest : list string) :
  s <> 0%R ->
  features_defined courses rest ->
  forall j min_j min_loss,
  exists r, split_loop courses s rest j min_j min_loss = Ok r.
Proof.
  intros Hs. induction rest as [| fn rest IH]; intros Hdef j min_j min_loss.
  - exists min_j. reflexivity.
  - cbn [split_loop].
    destruct (@candidate_loss_total courses s fn Hs) as (l & Hl).
    { intros c Hc. apply Hdef; [exact Hc | left; reflexivity]. }
    rewrite Hl. cbn [bind Monad_result].
    assert (Hrest : features_defined courses rest).
    { intros c f Hc Hf. apply Hdef; [exact Hc | right; exact Hf]. }
    destruct l as [loss |].
    + destruct (Np.lt (Np.Fin loss) min_loss); apply IH; exact Hrest.
    + apply IH. exact Hrest.
Qed.

Lemma search_state_start (courses : list crs) (s : R) :
  search_state courses s [] (-1)%Z Np.PosInf.
Proof.
  left. split; [reflexivity |]. split; [reflexivity |].
  intros k loss (fn & Hnth & _). destruct k; discriminate Hnth.
Qed.

Lemma split_loop_result (courses : list crs) (s : R)
    (remaining_features : list string) (r : Z) :
  split_loop courses s remaining_features 0%Z (-1)%Z Np.PosInf = Ok r ->
  (r = (-1)%Z /\ forall k loss, ~ considered courses s remaining_features k loss)
  \/ ((0 <= r < Z.of_nat (List.length remaining_features))%Z
      /\ best_split courses s remaining_features (Z.to_nat r)).
Proof.
  intros Hrun.
  destruct (@split_loop_invariant courses s remaining_features [] (-1)%Z
              Np.PosInf r (search_state_start courses s) Hrun)
    as (min_loss' & [(Hj & _ & Hnone) | (loss & _ & Hj & Hbest & Hmin)]).
  - left. split; [exact Hj | exact Hnone].
  - right. cbn [app] in *. pose proof (considered_bound Hbest) as Hb.
    split; [lia |]. exists loss. split; [exact Hbest | exact Hmin].
Qed.


(** ** The split search on concrete courses *)

(** Decides the comparisons of reals that an evaluation is stuck on. *)
Ltac decide_reals :=
  repeat match goal with
    | |- context [Np.Rltb ?a ?b] =>
        first [ rewrite (proj2 (Rltb_true a b)) by lra
              | rewrite (proj2 (Rltb_false a b)) by lra ]
    | |- context [Np.Reqb ?a ?b] =>
        first [ rewrite (proj2 (Reqb_false a b)) by lra
              | rewrite (proj2 (Reqb_true a b)) by lra ]
    end.

Ltac evaluate :=
  repeat (progress (cbn -[IZR ln]; unfold truediv; decide_reals)).


Lemma split_badges_only :
  __decision_tree_split__ [Scenario.cheap; Scenario.dear] ["badges"]%string
  = Ok 0%Z.
Proof.
  unfold __decision_tree_split__. evaluate. reflexivity.
Qed.

Lemma ln_101_pos : (0 < ln 101)%R.
Proof. rewrite <- ln_1. apply ln_increasing; lra. Qed.

Lemma LAMBDA_gt_10 : (10 < _LAMBDA_)%R.
Proof.
  assert (H : (1 < ln 10)%R).
  { rewrite <- (ln_exp 1). apply ln_increasing; [apply exp_pos |].
    pose proof exp_le_3. lra. }
  unfold _LAMBDA_. lra.
Qed.

Lemma split_ranked_A_B :
  __decision_tree_split__ [Scenario.ranked_A; Scenario.ranked_B]
    ["price"]%string
  = Ok 0%Z.
Proof.
  pose proof ln_101_pos as Hpos. pose proof ln_101_lt_LAMBDA as Hlt.
  pose proof LAMBDA_gt_10 as Hbig.
  unfold __decision_tree_split__. evaluate. reflexivity.
Qed.

(** ** The triviality test never skips a candidate *)

Lemma dict_set_twice {V} (d : dict V) (k : string) (a b : V) :
  dict_set (dict_set d k a) k b = dict_set d k b.
Proof.
  induction d as [| [k' v] d IH]; cbn.
  - rewrite String.eqb_refl. reflexivity.
  - destruct (String.eqb k' k) eqn:E; cbn; rewrite E; [reflexivity |].
    rewrite IH. reflexivity.
Qed.

Lemma dict_set_Forall {V} (P : string * V -> Prop) (d : dict V)
    (k : string) (v : V) :
  Forall P d -> (forall k', P (k', v)) -> Forall P (dict_set d k v).
Proof.
  intros Hd Hv. induction d as [| [k' v'] d IH]; cbn.
  - constructor; [apply Hv | constructor].
  - inversion Hd; subst. destruct (String.eqb k' k).
    + constructor; [apply Hv | assumption].
    + constructor; [assumption | apply IH; assumption].
Qed.

Lemma dict_set_nonempty {V} (d : dict V) (k : string) (v : V) :
  dict_set d k v <> [].
Proof.
  destruct d as [| [k' v'] d]; cbn; [discriminate |].
  destruct (String.eqb k' k); discriminate.
Qed.

Lemma count_values_positive (fn : string) (courses : list crs) :
  forall counts counts',
    Forall (fun e => (1 <= snd e)%Z) counts ->
    count_values courses fn counts = Ok counts' ->
    Forall (fun e => (1 <= snd e)%Z) counts'
    /\ (courses <> [] -> counts' <> []).
Proof.
  induction courses as [| c rest IH]; intros counts counts' Hpos Hrun.
  - cbn in Hrun. inversion Hrun; subst. split; [exact Hpos | congruence].
  - cbn [count_values] in Hrun.
    apply bind_Ok_inv in Hrun. destruct Hrun as (value & _ & Hrun).
    apply bind_Ok_inv in Hrun. destruct Hrun as (n & Hn & Hrun).
    assert (Hstep : exists n',
               (0 <= n')%Z
               /\ dict_set (if dict_in value counts then counts
                            else dict_set counts value 0%Z) value (n + 1)%Z
                  = dict_set counts value n'
               /\ (1 <= n')%Z).
    { unfold dict_in in *. apply subscript_Ok in Hn.
      destruct (dict_get counts value) as [n0 |] eqn:E.
      - rewrite E in Hn. inversion Hn; subst n0.
        apply dict_get_Some_In in E. rewrite Forall_forall in Hpos.
        specialize (Hpos _ E). cbn in Hpos.
        exists (n + 1)%Z. repeat split; [lia | lia].
      - rewrite dict_get_set_same in Hn. inversion Hn; subst n.
        exists 1%Z. rewrite dict_set_twice. repeat split; lia. }
    destruct Hstep as (n' & _ & Heq & Hn'). rewrite Heq in Hrun.
    assert (Hpos' : Forall (fun e => (1 <= snd e)%Z)
                      (dict_set counts value n')).
    { apply dict_set_Forall; [exact Hpos | intros k'; exact Hn']. }
    destruct (IH _ _ Hpos' Hrun) as (Hall & Hrest).
    split; [exact Hall |]. intros _.
    destruct rest as [| c' rest'].
    + cbn in Hrun. inversion Hrun. apply dict_set_nonempty.
    + apply Hrest. discriminate.
Qed.

Lemma non_trivial_choice_always (fn : string) (courses : list crs)
    (counts : dict Z) :
  courses <> [] ->
  count_values courses fn [] = Ok counts ->
  non_trivial_choice counts courses = true.
Proof.
  intros Hne Hrun.
  destruct (count_values_positive fn courses (Forall_nil _) Hrun)
    as (Hpos & Hnonempty).
  specialize (Hnonempty Hne).
  destruct counts as [| [value n] counts]; [contradiction |].
  inversion Hpos as [| ? ? Hn _]; subst. cbn in Hn.
  unfold non_trivial_choice. cbn [existsb snd]. rewrite Z.land_0_l.
  assert (Hlen : (0 < Z.of_nat (List.length courses))%Z).
  { destruct courses; [contradiction | cbn [List.length]; lia]. }
  rewrite (proj2 (Z.ltb_lt 0 n)) by lia.
  rewrite (proj2 (Z.ltb_lt 0 _) Hlen). reflexivity.
Qed.

Lemma candidate_never_skipped (courses : list crs) (s : R) (fn : string) :
  courses <> [] ->
  s <> 0%R ->
  (forall c, In c courses -> dict_in fn (crs_features c) = true) ->
  exists loss, candidate_loss courses s fn = Ok (Some loss).
Proof.
  intros Hne Hs Hdef. unfold candidate_loss.
  destruct (count_values_total fn courses Hdef []) as (counts & Hc).
  rewrite Hc. cbn [bind Monad_result].
  rewrite (non_trivial_choice_always fn Hne Hc). cbn [negb].
  destruct (accumulate_loss_total fn courses courses Hdef Hdef 0)
    as (loss & Hloss).
  rewrite Hloss. cbn [bind Monad_result].
  rewrite (truediv_nonzero loss Hs). cbn [bind Monad_result].
  exists (loss / s)%R. reflexivity.
Qed.

(** ** [recommend] as a whole *)

Lemma recommend_run (m : Model) (prefs : dict R)
    (active_filters : option (dict string))
    (filters : list filter) (remaining_features : list string)
    (filtered : list course) (split_index : Z) :
  well_formed_query m prefs ->
  sims_fit m ->
  match active_filters with
  | Some af => resolve_filters (model_features m) af
  | None => ([], map feature_name (model_features m))
  end = (filters, remaining_features) ->
  __filter_courses__ (model_courses m) filters = Ok filtered ->
  __decision_tree_split__
    (sorted_by_score
       (map (scored m (values (pick (scale (normalizer prefs) prefs)
                                    (meta_categories m))))
            filtered))
    remaining_features
  = Ok split_index ->
  recommend active_filters {| self_model := Some m; preferences := prefs |}
  = (Ok (filters, remaining_features,
         sorted_by_score
           (map (scored m (values (pick (scale (normalizer prefs) prefs)
                                        (meta_categories m))))
                filtered),
         split_index),
     {| self_model := Some m;
        preferences := scale (normalizer prefs) prefs |}).
Proof.
  intros Hwf Hfit Hres Hfilter Hsplit.
  unfold recommend, trained_model. cbn [bind Monad_M self_model].
  rewrite Hres. unfold lift. cbn [bind Monad_M]. rewrite Hfilter.
  rewrite (rank_courses_run filtered Hwf Hfit).
  rewrite Hsplit. reflexivity.
Qed.

Lemma recommend_prefer_X_unfiltered :
  recommend None Scenario.prefer_X
  = (Ok ([], ["price"]%string, [Scenario.ranked_A; Scenario.ranked_B], 0%Z),
     {| self_model := Some Scenario.xy_model;
        preferences := scale 1 (preferences Scenario.prefer_X) |}).
Proof.
  change Scenario.prefer_X
    with {| self_model := Some Scenario.xy_model;
            preferences := preferences Scenario.prefer_X |} at 1.
  rewrite (@recommend_run Scenario.xy_model _ None [] ["price"]%string
             [Scenario.A; Scenario.B] 0%Z
             well_formed_prefer_X sims_fit_xy eq_refl eq_refl).
  - rewrite normalizer_prefer_X. cbn [map].
    change (meta_categories Scenario.xy_model) with ["X"; "Y"]%string.
    rewrite scored_A, scored_B, sorted_A_B. reflexivity.
  - rewrite normalizer_prefer_X. cbn [map].
    change (meta_categories Scenario.xy_model) with ["X"; "Y"]%string.
    rewrite scored_A, scored_B, sorted_A_B. exact split_ranked_A_B.
Qed.

(** C1, evaluated.  The triviality test never skips a candidate of a
    non-empty course list.  In the scenario both courses are free, so the
    only candidate [price] has one value for all courses, and the scores
    sum to more than 1e-3; the split selection nevertheless returns the
    position 0 of [price], directly and through [recommend], not -1. *)
Theorem C1_uniform_attribute_is_selected :
  (forall courses s fn,
      courses <> [] ->
      s <> 0%R ->
      (forall c, In c courses -> dict_in fn (crs_features c) = true) ->
      exists loss, candidate_loss courses s fn = Ok (Some loss))
  /\ map (fun c => dict_get (crs_features c) "price")
         [Scenario.ranked_A; Scenario.ranked_B]
     = [Some "free"; Some "free"]%string
  /\ (1e-3 <= py_sum (map crs_score [Scenario.ranked_A; Scenario.ranked_B]))%R
  /\ __decision_tree_split__ [Scenario.ranked_A; Scenario.ranked_B]
       ["price"]%string
     = Ok 0%Z
  /\ exists h',
      recommend None Scenario.prefer_X
      = (Ok ([], ["price"]%string,
             [Scenario.ranked_A; Scenario.ranked_B], 0%Z), h').
Proof.
  split; [| split; [| split; [| split]]].
  - intros courses s fn. apply candidate_never_skipped.
  - reflexivity.
  - cbn. pose proof ln_101_pos. pose proof LAMBDA_gt_10. lra.
  - exact split_ranked_A_B.
  - eexists. exact recommend_prefer_X_unfiltered.
Qed.

(** The candidate [badges], which has the value [no] for both courses,
    is not skipped. *)
Lemma C1_witness_badges :
  exists loss,
    candidate_loss [Scenario.cheap; Scenario.dear] 4 "badges" = Ok (Some loss).
Proof.
  apply (proj1 C1_uniform_attribute_is_selected).
  - discriminate.
  - lra.
  - intros c [<- | [<- | []]]; reflexivity.
Defined.



(** C8 on the two free courses: the filter [price == free] keeps both,
    and adding [price == 100 EUR] leaves none. *)
Lemma C8_witness_price :
  [Scenario.A; Scenario.B]
  = List.filter (matches_all [Scenario.price_free]) [Scenario.A; Scenario.B]
  /\ __filter_courses__ [Scenario.A; Scenario.B]
       [Scenario.price_free; Scenario.price_100]
     = Ok (List.filter
             (matches_all [Scenario.price_free; Scenario.price_100])
             [Scenario.A; Scenario.B]).
Proof.
  destruct C8_filter_identity_and_conjunction as (_ & _ & Hspec & Htotal).
  split.
  - apply Hspec. reflexivity.
  - apply Htotal.
    intros c f [<- | [<- | []]] [<- | [<- | []]]; reflexivity.
Defined.

(** ** The resolution of the active filters *)

Lemma str_in_In (x : string) (l : list string) : str_in x l = true <-> In x l.
Proof.
  unfold str_in. rewrite existsb_exists. split.
  - intros (y & Hy & Heq). apply String.eqb_eq in Heq. subst y. exact Hy.
  - intros Hx. exists x. split; [exact Hx | apply String.eqb_refl].
Qed.

Lemma resolve_filters_honored (model_features : list feature)
    (active_filters : dict string) (f : filter) :
  In f (fst (resolve_filters model_features active_filters))
  <-> dict_get active_filters (filter_name f) = Some (filter_value f)
      /\ exists feature,
          In feature model_features
          /\ feature_name feature = filter_name f
          /\ In (filter_value f) (feature_values feature).
Proof.
  induction model_features as [| feature rest IH].
  - cbn. split; [contradiction | intros (_ & ? & [] & _)].
  - cbn [resolve_filters].
    destruct (resolve_filters rest active_filters) as [filters remaining].
    cbn [fst] in IH.
    assert (Hrest :
              In f filters ->
              dict_get active_filters (filter_name f) = Some (filter_value f)
              /\ exists feature0,
                  In feature0 (feature :: rest)
                  /\ feature_name feature0 = filter_name f
                  /\ In (filter_value f) (feature_values feature0)).
    { intros Hin. apply IH in Hin. destruct Hin as (Hget & g & Hg & Hrest).
      split; [exact Hget |]. exists g. split; [right; exact Hg | exact Hrest]. }
    destruct (dict_get active_filters (feature_name feature)) as [v |] eqn:Hv.
    + destruct (str_in v (feature_values feature)) eqn:Hin; cbn [fst].
      * apply str_in_In in Hin. split.
        -- intros [<- | Hf]; [| exact (Hrest Hf)]. cbn.
           split; [exact Hv |]. exists feature.
           split; [left; reflexivity |]. split; [reflexivity | exact Hin].
        -- intros (Hget & g & [<- | Hg] & Hname & Hval).
           ++ left. destruct f as [n w]. cbn in *. subst n.
              rewrite Hv in Hget. inversion Hget. reflexivity.
           ++ right. apply IH. split; [exact Hget |]. exists g. tauto.
      * split; [exact Hrest |].
        intros (Hget & g & [<- | Hg] & Hname & Hval).
        -- exfalso. rewrite Hname, Hget in Hv. inversion Hv; subst v.
           apply str_in_In in Hval. congruence.
        -- apply IH. split; [exact Hget |]. exists g. tauto.
    + cbn [fst]. split; [exact Hrest |].
      intros (Hget & g & [<- | Hg] & Hname & Hval).
      * exfalso. rewrite Hname in Hv. congruence.
      * apply IH. split; [exact Hget |]. exists g. tauto.
Qed.

Lemma resolve_filters_remaining (model_features : list feature)
    (active_filters : dict string) (n : string) :
  In n (snd (resolve_filters model_features active_filters))
  <-> exists feature,
      In feature model_features
      /\ feature_name feature = n
      /\ forall v, dict_get active_filters n = Some v ->
                   ~ In v (feature_values feature).
Proof.
  induction model_features as [| feature rest IH].
  - cbn. split; [contradiction | intros (? & [] & _)].
  - cbn [resolve_filters].
    destruct (resolve_filters rest active_filters) as [filters remaining].
    cbn [snd] in IH.
    assert (Hrest :
              In n remaining ->
              exists feature0,
                In feature0 (feature :: rest)
                /\ feature_name feature0 = n
                /\ forall v, dict_get active_filters n = Some v ->
                             ~ In v (feature_values feature0)).
    { intros Hin. apply IH in Hin. destruct Hin as (g & Hg & Hrest).
      exists g. split; [right; exact Hg | exact Hrest]. }
    destruct (dict_get active_filters (feature_name feature)) as [v |] eqn:Hv.
    + destruct (str_in v (feature_values feature)) eqn:Hin; cbn [snd].
      * apply str_in_In in Hin. split; [exact Hrest |].
        intros (g & [<- | Hg] & Hname & Hnot).
        -- exfalso. subst n. exact (Hnot v Hv Hin).
        -- apply IH. exists g. tauto.
      * assert (Hnotin : ~ In v (feature_values feature)).
        { intros H. apply str_in_In in H. congruence. }
        split.
        -- intros [<- | Hn]; [| exact (Hrest Hn)].
           exists feature. split; [left; reflexivity |].
           split; [reflexivity |]. intros v' Hv'.
           rewrite Hv in Hv'. inversion Hv'; subst v'. exact Hnotin.
        -- intros (g & [<- | Hg] & Hname & Hnot).
           ++ left. exact Hname.
           ++ right. apply IH. exists g. tauto.
    + cbn [snd]. split.
      * intros [<- | Hn]; [| exact (Hrest Hn)].
        exists feature. split; [left; reflexivity |].
        split; [reflexivity |]. intros v' Hv'. congruence.
      * intros (g & [<- | Hg] & Hname & Hnot).
        -- left. exact Hname.
        -- right. apply IH. exists g. tauto.
Qed.

Lemma recommend_Ok_inv (active_filters : option (dict string)) (h h' : heap)
    (filters : list filter) (remaining_features : list string)
    (courses : list crs) (split_index : Z) :
  recommend active_filters h
  = (Ok (filters, remaining_features, courses, split_index), h') ->
  exists m filtered,
    self_model h = Some m
    /\ match active_filters with
       | Some af => resolve_filters (model_features m) af
       | None => ([], map feature_name (model_features m))
       end = (filters, remaining_features)
    /\ __filter_courses__ (model_courses m) filters = Ok filtered
    /\ __rank_courses__ filtered h = (Ok courses, h')
    /\ __decision_tree_split__ courses remaining_features = Ok split_index.
Proof.
  unfold recommend, trained_model. cbn [bind Monad_M].
  destruct (self_model h) as [m |]; [| discriminate].
  destruct (match active_filters with
            | Some af => resolve_filters (model_features m) af
            | None => ([], map feature_name (model_features m))
            end) as [fs rs] eqn:Hres.
  unfold lift. cbn [bind Monad_M].
  destruct (__filter_courses__ (model_courses m) fs) as [filtered | e] eqn:Hf;
    [| discriminate].
  destruct (__rank_courses__ filtered h) as [[ranked | e] h1] eqn:Hr;
    [| discriminate].
  destruct (__decision_tree_split__ ranked rs) as [j | e] eqn:Hs;
    [| discriminate].
  cbn [ret Monad_M]. intros H. inversion H; subst.
  exists m, filtered. repeat split; assumption.
Qed.

Lemma decision_tree_split_total (courses : list crs)
    (remaining_features : list string) :
  features_defined courses remaining_features ->
  exists j, __decision_tree_split__ courses remaining_features = Ok j.
Proof.
  intros Hdef. unfold __decision_tree_split__.
  destruct (Np.Rltb (py_sum (map crs_score courses)) 1e-3) eqn:E.
  - exists (-1)%Z. reflexivity.
  - apply Rltb_false in E. apply split_loop_total; [lra | exact Hdef].
Qed.

Lemma scored_features (m : Model) (w : list R) (c : course) :
  crs_features (scored m w c) = features c.
Proof. unfold scored. destruct (find _ _); reflexivity. Qed.

Lemma recommend_total (m : Model) (prefs : dict R)
    (active_filters : option (dict string)) :
  well_formed_query m prefs ->
  sims_fit m ->
  schema_respected m ->
  exists r,
    recommend active_filters {| self_model := Some m; preferences := prefs |}
    = (Ok r, {| self_model := Some m;
                preferences := scale (normalizer prefs) prefs |}).
Proof.
  intros Hwf Hfit Hschema.
  destruct (match active_filters with
            | Some af => resolve_filters (model_features m) af
            | None => ([], map feature_name (model_features m))
            end) as [filters remaining] eqn:Hres.
  assert (Hfilters : forall f, In f filters ->
                               exists feature, In feature (model_features m)
                                               /\ feature_name feature = filter_name f).
  { intros f Hf. destruct active_filters as [af |].
    - assert (Hin : In f (fst (resolve_filters (model_features m) af)))
        by (rewrite Hres; exact Hf).
      apply resolve_filters_honored in Hin.
      destruct Hin as (_ & g & Hg & Hname & _). exists g. tauto.
    - inversion Hres; subst. contradiction. }
  assert (Hremaining : forall n, In n remaining ->
                                 exists feature, In feature (model_features m)
                                                 /\ feature_name feature = n).
  { intros n Hn. destruct active_filters as [af |].
    - assert (Hin : In n (snd (resolve_filters (model_features m) af)))
        by (rewrite Hres; exact Hn).
      apply resolve_filters_remaining in Hin.
      destruct Hin as (g & Hg & Hname & _). exists g. tauto.
    - inversion Hres; subst. apply in_map_iff in Hn.
      destruct Hn as (g & Hname & Hg). exists g. tauto. }
  assert (Hfiltered :
            __filter_courses__ (model_courses m) filters
            = Ok (List.filter (matches_all filters) (model_courses m))).
  { apply filter_courses_total. intros c f Hc Hf.
    destruct (Hfilters f Hf) as (g & Hg & <-). apply Hschema; assumption. }
  set (w := values (pick (scale (normalizer prefs) prefs) (meta_categories m))).
  set (filtered := List.filter (matches_all filters) (model_courses m)) in *.
  destruct (@decision_tree_split_total
              (sorted_by_score (map (scored m w) filtered)) remaining)
    as (j & Hj).
  { intros x f Hx Hf.
    apply (Permutation_in _ (sorted_by_score_perm _)) in Hx.
    apply in_map_iff in Hx. destruct Hx as (c & <- & Hc).
    rewrite scored_features. apply filter_In in Hc. destruct Hc as (Hc & _).
    destruct (Hremaining f Hf) as (g & Hg & <-). apply Hschema; assumption. }
  eexists.
  apply (recommend_run active_filters Hwf Hfit Hres Hfiltered Hj).
Qed.

(** C9, as the code has it.  A filter is honoured exactly when the
    active filters give its attribute a value and the schema has that
    attribute with that value; the remaining features are exactly the
    schema attributes that were not honoured, so the name of an entry whose
    attribute is not in the schema is in neither list; [recommend] returns
    these two lists and ranks the courses that pass the honoured filters;
    and no active-filter dict makes it raise when the query and the model
    are well-formed. *)
Theorem C9_filters_resolved_against_schema
    (m : Model) (active_filters : dict string) :
  let resolved := resolve_filters (model_features m) active_filters in
  (forall f,
      In f (fst resolved)
      <-> dict_get active_filters (filter_name f) = Some (filter_value f)
          /\ exists feature,
              In feature (model_features m)
              /\ feature_name feature = filter_name f
              /\ In (filter_value f) (feature_values feature))
  /\ (forall n,
        In n (snd resolved)
        <-> exists feature,
            In feature (model_features m)
            /\ feature_name feature = n
            /\ forall v, dict_get active_filters n = Some v ->
                         ~ In v (feature_values feature))
  /\ (forall n,
        (forall feature, In feature (model_features m) ->
                         feature_name feature <> n) ->
        ~ In n (snd resolved))
  /\ (forall prefs filters remaining_features courses split_index h',
        recommend (Some active_filters)
          {| self_model := Some m; preferences := prefs |}
        = (Ok (filters, remaining_features, courses, split_index), h') ->
        filters = fst resolved
        /\ remaining_features = snd resolved
        /\ __rank_courses__
             (List.filter (matches_all filters) (model_courses m))
             {| self_model := Some m; preferences := prefs |}
           = (Ok courses, h'))
  /\ (forall prefs,
        well_formed_query m prefs ->
        sims_fit m ->
        schema_respected m ->
        exists r h',
          recommend (Some active_filters)
            {| self_model := Some m; preferences := prefs |}
          = (Ok r, h')).
Proof.
  intros resolved. split; [| split; [| split; [| split]]].
  - intros f. apply resolve_filters_honored.
  - intros n. apply resolve_filters_remaining.
  - intros n Hnone Hin. apply resolve_filters_remaining in Hin.
    destruct Hin as (g & Hg & Hname & _). exact (Hnone g Hg Hname).
  - intros prefs filters remaining courses split_index h' Hrun.
    apply recommend_Ok_inv in Hrun.
    destruct Hrun as (m' & filtered & Hm & Hres & Hf & Hr & _).
    cbn in Hm. inversion Hm; subst m'. fold resolved in Hres.
    rewrite Hres. cbn [fst snd]. split; [reflexivity |].
    split; [reflexivity |].
    apply filter_courses_spec in Hf. subst filtered. exact Hr.
  - intros prefs Hwf Hfit Hschema.
    destruct (@recommend_total m prefs (Some active_filters) Hwf Hfit Hschema)
      as (r & Hr).
    exists r. eexists. exact Hr.
Qed.

Lemma schema_respected_xy : schema_respected Scenario.xy_model.
Proof.
  intros c feature [<- | [<- | []]] [<- | []]; reflexivity.
Qed.

Lemma recommend_prefer_X_colour :
  recommend (Some Scenario.colour_red) Scenario.prefer_X
  = (Ok ([], ["price"]%string, [Scenario.ranked_A; Scenario.ranked_B], 0%Z),
     {| self_model := Some Scenario.xy_model;
        preferences := scale 1 (preferences Scenario.prefer_X) |}).
Proof.
  change Scenario.prefer_X
    with {| self_model := Some Scenario.xy_model;
            preferences := preferences Scenario.prefer_X |} at 1.
  rewrite (@recommend_run Scenario.xy_model _ (Some Scenario.colour_red)
             [] ["price"]%string [Scenario.A; Scenario.B] 0%Z
             well_formed_prefer_X sims_fit_xy eq_refl eq_refl).
  - rewrite normalizer_prefer_X. cbn [map].
    change (meta_categories Scenario.xy_model) with ["X"; "Y"]%string.
    rewrite scored_A, scored_B, sorted_A_B. reflexivity.
  - rewrite normalizer_prefer_X. cbn [map].
    change (meta_categories Scenario.xy_model) with ["X"; "Y"]%string.
    rewrite scored_A, scored_B, sorted_A_B. exact split_ranked_A_B.
Qed.

(** C9 fails as stated: the active filter [{'colour': 'red'}] names an
    attribute the schema does not have; the query returns, the filter is
    not honoured, and [colour] is not among the remaining features. *)
Lemma C9_counterexample_colour :
  dict_get Scenario.colour_red "colour" = Some "red"%string
  /\ (exists h',
         recommend (Some Scenario.colour_red) Scenario.prefer_X
         = (Ok ([], ["price"]%string,
                [Scenario.ranked_A; Scenario.ranked_B], 0%Z), h'))
  /\ ~ In "colour"%string ["price"]%string.
Proof.
  split; [reflexivity |]. split.
  - eexists. exact recommend_prefer_X_colour.
  - intros [H | []]. discriminate H.
Qed.

(** C9 at the active filters [{'colour': 'red'}] and
    [{'price': 'expensive'}]: [colour] is dropped, [price] remains. *)
Lemma C9_witness_colour_and_price :
  ~ In "colour"%string
      (snd (resolve_filters (model_features Scenario.xy_model)
              Scenario.colour_red))
  /\ In "price"%string
       (snd (resolve_filters (model_features Scenario.xy_model)
               Scenario.price_expensive))
  /\ __rank_courses__
       (List.filter (matches_all []) (model_courses Scenario.xy_model))
       Scenario.prefer_X
     = (Ok [Scenario.ranked_A; Scenario.ranked_B],
        {| self_model := Some Scenario.xy_model;
           preferences := scale 1 (preferences Scenario.prefer_X) |})
  /\ exists r h',
      recommend (Some Scenario.price_expensive) Scenario.prefer_X
      = (Ok r, h').
Proof.
  destruct (C9_filters_resolved_against_schema Scenario.xy_model
              Scenario.colour_red) as (_ & _ & Hdropped & Hrun & _).
  destruct (C9_filters_resolved_against_schema Scenario.xy_model
              Scenario.price_expensive) as (_ & Hremaining & _ & _ & Htotal).
  split; [| split; [| split]].
  - apply Hdropped. intros feature [<- | []]. discriminate.
  - apply Hremaining.
    exists {| feature_name := "price";
              feature_values := ["All"; "free"]%string |}.
    split; [left; reflexivity |]. split; [reflexivity |].
    intros v Hv. inversion Hv; subst v.
    intros [H | [H | []]]; discriminate H.
  - apply (Hrun (preferences Scenario.prefer_X) [] ["price"]%string
             [Scenario.ranked_A; Scenario.ranked_B] 0%Z).
    exact recommend_prefer_X_colour.
  - apply (Htotal (preferences Scenario.prefer_X)).
    + exact well_formed_prefer_X.
    + exact sims_fit_xy.
    + exact schema_respected_xy.
Defined.

(** ** What [recommend] does to the heap *)

Lemma keeps_model_bind {A B} (c : M A) (k : A -> M B) :
  keeps_model c -> (forall a, keeps_model (k a)) -> keeps_model (x <- c ;; k x).
Proof.
  intros Hc Hk h. cbn [bind Monad_M]. specialize (Hc h).
  destruct (c h) as [[a | e] h1]; cbn [snd] in *.
  - rewrite (Hk a h1). exact Hc.
  - exact Hc.
Qed.

Lemma keeps_model_lift {A} (r : result A) : keeps_model (lift r).
Proof. intros h. reflexivity. Qed.

Lemma keeps_model_ret {A} (a : A) : keeps_model (ret a : M A).
Proof. intros h. reflexivity. Qed.

Lemma keeps_model_get_preferences : keeps_model get_preferences.
Proof. intros h. reflexivity. Qed.

Lemma keeps_model_set_preferences (d : dict R) :
  keeps_model (set_preferences d).
Proof. intros h. reflexivity. Qed.

Lemma keeps_model_get_model : keeps_model get_model.
Proof.
  intros h. unfold get_model.
  destruct (self_model h) eqn:E; cbn [snd]; exact E.
Qed.


Lemma keeps_model_update_each (items : list (string * R)) (n : R) :
  keeps_model (update_each items n).
Proof.
  induction items as [| [k v] rest IH]; cbn [update_each].
  - apply keeps_model_ret.
  - apply keeps_model_bind; [apply keeps_model_lift |]. intros q.
    apply keeps_model_bind; [apply keeps_model_get_preferences |]. intros d.
    apply keeps_model_bind; [apply keeps_model_set_preferences |]. intros _.
    exact IH.
Qed.

Lemma keeps_model_normalize_preferences : keeps_model normalize_preferences.
Proof.
  unfold normalize_preferences.
  apply keeps_model_bind; [apply keeps_model_get_preferences |]. intros prefs.
  cbv zeta.
  apply keeps_model_bind.
  { destruct (Np.Rltb _ _); [apply keeps_model_lift | apply keeps_model_ret]. }
  intros n.
  apply keeps_model_bind; [apply keeps_model_update_each |]. intros _.
  apply keeps_model_bind; [apply keeps_model_get_model |]. intros m.
  apply keeps_model_bind; [apply keeps_model_get_preferences |]. intros d.
  apply keeps_model_lift.
Qed.







(** ** The divisor of the normalisation *)







(** ** Two calls with one dict whose weights are almost zero *)









(** ** The pre-processing of the similarities in [train] *)

Section Rescale.
Import Np.

Lemma fmin_Fin (a b : R) :
  fmin (Fin a) (Fin b) = Fin (if Rltb b a then b else a).
Proof. cbn. destruct (Rltb b a); reflexivity. Qed.

Lemma fmax_Fin (a b : R) :
  fmax (Fin a) (Fin b) = Fin (if Rltb a b then b else a).
Proof. cbn. destruct (Rltb a b); reflexivity. Qed.

Lemma fold_fmin_finite (xs : list R) :
  forall a,
  exists lo,
    fold_left fmin (map Fin xs) (Fin a) = Fin lo
    /\ (lo <= a)%R
    /\ (forall x, In x xs -> (lo <= x)%R)
    /\ (lo = a \/ In lo xs).
Proof.
  induction xs as [| x xs IH]; intros a.
  - exists a. cbn. repeat split; [lra | contradiction | left; reflexivity].
  - cbn [map fold_left]. rewrite fmin_Fin.
    destruct (Rltb x a) eqn:E.
    + apply Rltb_true in E. destruct (IH x) as (lo & Hf & Hle & Hall & Hin).
      exists lo. split; [exact Hf |]. split; [lra |]. split.
      * intros y [<- | Hy]; [exact Hle | apply Hall; exact Hy].
      * right. destruct Hin as [-> | Hin]; [left; reflexivity | right; exact Hin].
    + apply Rltb_false in E. destruct (IH a) as (lo & Hf & Hle & Hall & Hin).
      exists lo. split; [exact Hf |]. split; [exact Hle |]. split.
      * intros y [<- | Hy]; [lra | apply Hall; exact Hy].
      * destruct Hin as [-> | Hin]; [left; reflexivity | right; right; exact Hin].
Qed.

Lemma fold_fmax_finite (xs : list R) :
  forall a,
  exists hi,
    fold_left fmax (map Fin xs) (Fin a) = Fin hi
    /\ (a <= hi)%R
    /\ (forall x, In x xs -> (x <= hi)%R)
    /\ (hi = a \/ In hi xs).
Proof.
  induction xs as [| x xs IH]; intros a.
  - exists a. cbn. repeat split; [lra | contradiction | left; reflexivity].
  - cbn [map fold_left]. rewrite fmax_Fin.
    destruct (Rltb a x) eqn:E.
    + apply Rltb_true in E. destruct (IH x) as (hi & Hf & Hle & Hall & Hin).
      exists hi. split; [exact Hf |]. split; [lra |]. split.
      * intros y [<- | Hy]; [exact Hle | apply Hall; exact Hy].
      * right. destruct Hin as [-> | Hin]; [left; reflexivity | right; exact Hin].
    + apply Rltb_false in E. destruct (IH a) as (hi & Hf & Hle & Hall & Hin).
      exists hi. split; [exact Hf |]. split; [exact Hle |]. split.
      * intros y [<- | Hy]; [lra | apply Hall; exact Hy].
      * destruct Hin as [-> | Hin]; [left; reflexivity | right; right; exact Hin].
Qed.

Lemma flatten_finite (rows : list (list R)) :
  flatten (finite rows) = map Fin (List.concat rows).
Proof.
  unfold flatten, finite. rewrite concat_map. reflexivity.
Qed.

(** The global minimum and maximum of an array of finite numbers. *)
Lemma nanmin_nanmax_finite (rows : list (list R)) :
  List.concat rows <> [] ->
  exists lo hi,
    nanmin (finite rows) = Ok (Fin lo)
    /\ nanmax (finite rows) = Ok (Fin hi)
    /\ (forall x, In x (List.concat rows) -> (lo <= x <= hi)%R)
    /\ In lo (List.concat rows)
    /\ In hi (List.concat rows).
Proof.
  intros Hne. unfold nanmin, nanmax. rewrite flatten_finite.
  destruct (List.concat rows) as [| a xs]; [contradiction |].
  cbn [map].
  destruct (fold_fmin_finite xs a) as (lo & Hlo & Hlea & Hlall & Hlin).
  destruct (fold_fmax_finite xs a) as (hi & Hhi & Hhea & Hhall & Hhin).
  exists lo, hi. rewrite Hlo, Hhi.
  split; [reflexivity |]. split; [reflexivity |]. split.
  - intros x [<- | Hx]; [lra |].
    split; [apply Hlall | apply Hhall]; exact Hx.
  - split.
    + destruct Hlin as [-> | Hin]; [left; reflexivity | right; exact Hin].
    + destruct Hhin as [-> | Hin]; [left; reflexivity | right; exact Hin].
Qed.

Lemma rescale_total (Sk : matrix) :
  flatten Sk <> [] ->
  exists lo hi,
    nanmin Sk = Ok lo /\ nanmax Sk = Ok hi
    /\ Train.rescale Sk
       = Ok (broadcast (fun x => div (sub x lo) (sub hi lo)) Sk).
Proof.
  intros Hne. unfold Train.rescale, nanmin, nanmax.
  destruct (flatten Sk) as [| x rest]; [contradiction |].
  eexists. eexists. split; [reflexivity |]. split; reflexivity.
Qed.

Lemma rescale_empty (Sk : matrix) :
  flatten Sk = [] -> Train.rescale Sk = Raise ValueError.
Proof.
  intros He. unfold Train.rescale, nanmin. rewrite He. reflexivity.
Qed.

Lemma div_sub_finite (x lo hi : R) :
  (lo <= x <= hi)%R ->
  div (sub (Fin x) (Fin lo)) (sub (Fin hi) (Fin lo))
  = if Reqb hi lo then NaN else Fin ((x - lo) / (hi - lo)).
Proof.
  intros Hx. cbn [sub div].
  destruct (Reqb hi lo) eqn:E.
  - apply Reqb_true in E.
    rewrite (proj2 (Reqb_true (hi - lo) 0)) by lra.
    rewrite (proj2 (Reqb_true (x - lo) 0)) by lra. reflexivity.
  - apply Reqb_false in E.
    rewrite (proj2 (Reqb_false (hi - lo) 0)) by lra. reflexivity.
Qed.

Lemma rescale_finite (rows : list (list R)) :
  List.concat rows <> [] ->
  exists lo hi,
    (forall x, In x (List.concat rows) -> (lo <= x <= hi)%R)
    /\ In lo (List.concat rows)
    /\ In hi (List.concat rows)
    /\ Train.rescale (finite rows)
       = Ok (map (map (fun x => if Reqb hi lo then NaN
                                else Fin ((x - lo) / (hi - lo)))) rows).
Proof.
  intros Hne.
  destruct (nanmin_nanmax_finite rows Hne)
    as (lo & hi & Hlo & Hhi & Hall & Hlin & Hhin).
  exists lo, hi. split; [exact Hall |]. split; [exact Hlin |].
  split; [exact Hhin |].
  unfold Train.rescale. rewrite Hlo, Hhi. cbn [bind Monad_result].
  f_equal. unfold broadcast, finite. rewrite map_map.
  apply map_ext_in. intros row Hrow. rewrite map_map.
  apply map_ext_in. intros x Hx. apply div_sub_finite.
  apply Hall. apply in_concat. exists row. split; assumption.
Qed.


Lemma shape_broadcast (f : float -> float) (Sk : matrix) :
  shape (broadcast f Sk) = shape Sk.
Proof.
  unfold shape, broadcast. rewrite map_map. apply map_ext.
  intros row. apply length_map.
Qed.

Lemma length_flatten (Sk : matrix) :
  List.length (flatten Sk) = list_sum (shape Sk).
Proof.
  unfold flatten, shape. induction Sk as [| row Sk IH]; cbn.
  - reflexivity.
  - rewrite length_app, IH. reflexivity.
Qed.

Lemma flatten_nonempty_shape (S1 S2 : matrix) :
  shape S2 = shape S1 -> flatten S1 <> [] -> flatten S2 <> [].
Proof.
  intros Hshape Hne He. apply Hne. apply length_zero_iff_nil.
  rewrite length_flatten, <- Hshape, <- length_flatten, He. reflexivity.
Qed.

Lemma zip_row_total (f : float -> float -> float) (r1 : list float) :
  forall r2,
    List.length r2 = List.length r1 ->
    exists r, zip_row f r1 r2 = Ok r /\ List.length r = List.length r1.
Proof.
  induction r1 as [| x r1 IH]; intros [| y r2] Hlen; cbn in Hlen;
    try discriminate Hlen.
  - exists []. split; reflexivity.
  - destruct (IH r2) as (r & Hr & Hl); [lia |].
    cbn [zip_row]. rewrite Hr. cbn [bind Monad_result].
    eexists. split; [reflexivity |]. cbn. rewrite Hl. reflexivity.
Qed.

Lemma zip_matrix_total (f : float -> float -> float) (S1 : matrix) :
  forall S2,
    shape S2 = shape S1 ->
    exists Sk, zip_matrix f S1 S2 = Ok Sk /\ shape Sk = shape S1.
Proof.
  induction S1 as [| r1 S1 IH]; intros [| r2 S2] Hshape; cbn in Hshape;
    try discriminate Hshape.
  - exists []. split; reflexivity.
  - inversion Hshape as [[Hrow Hrest]].
    destruct (zip_row_total f r1 r2 Hrow) as (r & Hr & Hl).
    destruct (IH S2 Hrest) as (Sk & HS & Hsh).
    cbn [zip_matrix]. rewrite Hr. cbn [bind Monad_result]. rewrite HS.
    cbn [bind Monad_result]. eexists. split; [reflexivity |].
    cbn. rewrite Hl. f_equal. exact Hsh.
Qed.

Lemma zip_row_entry (f : float -> float -> float) (r1 : list float) :
  forall r2 r j a b,
    zip_row f r1 r2 = Ok r ->
    nth_error r1 j = Some a ->
    nth_error r2 j = Some b ->
    nth_error r j = Some (f a b).
Proof.
  induction r1 as [| x r1 IH]; intros [| y r2] r j a b Hzip Ha Hb;
    cbn in Hzip; try discriminate Hzip.
  - destruct j; discriminate Ha.
  - apply bind_Ok_inv in Hzip. destruct Hzip as (r' & Hr' & Hr).
    inversion Hr; subst r. destruct j as [| j]; cbn in *.
    + inversion Ha; inversion Hb; subst. reflexivity.
    + apply (IH r2 r' j a b Hr' Ha Hb).
Qed.

Lemma zip_matrix_entry (f : float -> float -> float) (S1 : matrix) :
  forall S2 Sk i j a b,
    zip_matrix f S1 S2 = Ok Sk ->
    entry S1 i j = Some a ->
    entry S2 i j = Some b ->
    entry Sk i j = Some (f a b).
Proof.
  unfold entry.
  induction S1 as [| r1 S1 IH]; intros [| r2 S2] Sk i j a b Hzip Ha Hb;
    cbn in Hzip; try discriminate Hzip.
  - destruct i; discriminate Ha.
  - apply bind_Ok_inv in Hzip. destruct Hzip as (r & Hr & Hzip).
    apply bind_Ok_inv in Hzip. destruct Hzip as (Sk' & HSk' & Hzip).
    inversion Hzip; subst Sk. destruct i as [| i]; cbn in *.
    + apply (zip_row_entry f r1 r2 j Hr Ha Hb).
    + apply (IH S2 Sk' i j a b HSk' Ha Hb).
Qed.

Ltac decide_lt :=
  repeat match goal with
         | H : Rltb _ _ = true |- _ => apply Rltb_true in H
         | H : Rltb _ _ = false |- _ => apply Rltb_false in H
         | |- Rltb _ _ = false => apply Rltb_false
         | |- context [Rltb ?a ?b] => destruct (Rltb a b) eqn:?
         end.

(** [fmax] returns one of its arguments, which is [nan] only when both
    are, and which is not below the other one. *)
Lemma fmax_spec (x y : float) :
  (fmax x y = x \/ fmax x y = y)
  /\ (fmax x y = NaN -> x = NaN /\ y = NaN)
  /\ lt (fmax x y) x = false
  /\ lt (fmax x y) y = false.
Proof.
  destruct x as [a | | |], y as [b | | |]; cbn.
  2-16: repeat split; try reflexivity; try discriminate; auto;
    apply Rltb_false; lra.
  destruct (Rltb a b) eqn:E; cbn; repeat split; try discriminate; auto;
    decide_lt; lra.
Qed.

(** [lt _ _ = false] composes along a number. *)
Lemma not_lt_trans (x y z : float) :
  y <> NaN -> lt x y = false -> lt y z = false -> x <> NaN -> lt x z = false.
Proof.
  destruct x as [a | | |], y as [b | | |], z as [c | | |]; cbn;
    intros Hy Hxy Hyz Hx; try reflexivity; try discriminate;
    try contradiction; decide_lt; lra.
Qed.

(** The combination of three entries is their nan-ignoring maximum. *)
Lemma fmax3_nan_ignoring (a b c : float) :
  nan_ignoring_max [a; b; c] (fmax (fmax a b) c).
Proof.
  destruct (fmax_spec a b) as (Hab & Hnab & Hla & Hlb).
  destruct (fmax_spec (fmax a b) c) as (Hr & Hnr & Hlab & Hlc).
  split.
  - intros Hall. inversion Hall as [| ? ? -> Hall']; subst.
    inversion Hall' as [| ? ? -> Hall'']; subst.
    inversion Hall'' as [| ? ? -> _]; subst. reflexivity.
  - intros Hex.
    assert (Hne : fmax (fmax a b) c <> NaN).
    { intros Hn. destruct (Hnr Hn) as (Hn1 & ->).
      destruct (Hnab Hn1) as (-> & ->).
      inversion Hex as [? ? H | ? ? H]; subst; [apply H; reflexivity |].
      inversion H as [? ? H' | ? ? H']; subst; [apply H'; reflexivity |].
      inversion H' as [? ? H'' | ? ? H'']; subst;
        [apply H''; reflexivity | inversion H'']. }
    split; [| split; [exact Hne |]].
    + destruct Hr as [Hr | Hr]; rewrite Hr.
      * destruct Hab as [-> | ->]; [left | right; left]; reflexivity.
      * right; right; left. reflexivity.
    + intros x [<- | [<- | [<- | []]]].
      * destruct (fmax a b) as [m | | |] eqn:Em.
        -- apply (@not_lt_trans _ (Fin m) _); [discriminate | | | exact Hne];
             assumption.
        -- apply (@not_lt_trans _ PosInf _); [discriminate | | | exact Hne];
             assumption.
        -- apply (@not_lt_trans _ NegInf _); [discriminate | | | exact Hne];
             assumption.
        -- destruct (Hnab eq_refl) as (-> & _).
           destruct (fmax NaN c); reflexivity.
      * destruct (fmax a b) as [m | | |] eqn:Em.
        -- apply (@not_lt_trans _ (Fin m) _); [discriminate | | | exact Hne];
             assumption.
        -- apply (@not_lt_trans _ PosInf _); [discriminate | | | exact Hne];
             assumption.
        -- apply (@not_lt_trans _ NegInf _); [discriminate | | | exact Hne];
             assumption.
        -- destruct (Hnab eq_refl) as (_ & ->).
           destruct (fmax NaN c); reflexivity.
      * exact Hlc.
Qed.

(** Where one channel has [nan] and another one a number that is not
    negative, the combination is what a zero in place of the [nan] would
    give. *)
Lemma nan_as_zero (b c r : float) :
  nan_ignoring_max [NaN; b; c] r ->
  (exists y, b = Fin y /\ (0 <= y)%R) \/ (exists y, c = Fin y /\ (0 <= y)%R) ->
  nan_ignoring_max [Fin 0; b; c] r.
Proof.
  intros (_ & Hmax) Hnum.
  destruct Hmax as (Hin & Hne & Hle).
  { destruct Hnum as [(y & -> & _) | (y & -> & _)].
    - apply Exists_cons_tl. apply Exists_cons_hd. discriminate.
    - apply Exists_cons_tl. apply Exists_cons_tl. apply Exists_cons_hd.
      discriminate. }
  split.
  - intros Hall. inversion Hall as [| ? ? H0 _]. discriminate H0.
  - intros _. split; [| split; [exact Hne |]].
    + destruct Hin as [<- | Hin]; [contradiction Hne; reflexivity |].
      right. exact Hin.
    + intros x [<- | Hx]; [| apply Hle; right; exact Hx].
      destruct Hnum as [(y & -> & Hy) | (y & -> & Hy)].
      * apply (@not_lt_trans r (Fin y) (Fin 0)); [discriminate | | | exact Hne].
        -- apply Hle. right; left. reflexivity.
        -- cbn. apply Rltb_false. lra.
      * apply (@not_lt_trans r (Fin y) (Fin 0)); [discriminate | | | exact Hne].
        -- apply Hle. right; right; left. reflexivity.
        -- cbn. apply Rltb_false. lra.
Qed.

(** The pre-processing returns, and every entry of the combined array is
    the nan-ignoring maximum of the entries of the rescaled channels. *)
Lemma preprocess_entries (Scat Stag Sname : matrix) :
  flatten Scat <> [] ->
  shape Stag = shape Scat ->
  shape Sname = shape Scat ->
  exists Scat' Stag' Sname' Sk,
    Train.rescale Scat = Ok Scat'
    /\ Train.rescale Stag = Ok Stag'
    /\ Train.rescale Sname = Ok Sname'
    /\ Train.preprocess Scat Stag Sname = Ok (Scat', Stag', Sname', Sk)
    /\ shape Sk = shape Scat
    /\ forall i j a b c,
        entry Scat' i j = Some a ->
        entry Stag' i j = Some b ->
        entry Sname' i j = Some c ->
        exists r,
          entry Sk i j = Some r
          /\ nan_ignoring_max [a; b; c] r
          /\ (a = NaN ->
              (exists y, b = Fin y /\ (0 <= y)%R)
              \/ (exists y, c = Fin y /\ (0 <= y)%R) ->
              nan_ignoring_max [Fin 0; b; c] r).
Proof.
  intros Hne Htag Hname.
  destruct (rescale_total Scat Hne) as (lo1 & hi1 & _ & _ & H1).
  destruct (rescale_total Stag (flatten_nonempty_shape _ _ Htag Hne))
    as (lo2 & hi2 & _ & _ & H2).
  destruct (rescale_total Sname (flatten_nonempty_shape _ _ Hname Hne))
    as (lo3 & hi3 & _ & _ & H3).
  unfold Train.preprocess. rewrite H1, H2, H3. cbn [bind Monad_result].
  unfold Train.combine.
  destruct (zip_matrix_total fmax
              (broadcast (fun x => div (sub x lo1) (sub hi1 lo1)) Scat)
              (broadcast (fun x => div (sub x lo2) (sub hi2 lo2)) Stag))
    as (S12 & HS12 & Hsh12).
  { rewrite !shape_broadcast. exact Htag. }
  rewrite HS12. cbn [bind Monad_result].
  destruct (zip_matrix_total fmax S12
              (broadcast (fun x => div (sub x lo3) (sub hi3 lo3)) Sname))
    as (Sk & HSk & HshSk).
  { rewrite Hsh12, !shape_broadcast. exact Hname. }
  rewrite HSk. cbn [bind Monad_result].
  eexists. eexists. eexists. eexists.
  split; [reflexivity |]. split; [reflexivity |]. split; [reflexivity |].
  split; [reflexivity |]. split.
  - rewrite HshSk, Hsh12. apply shape_broadcast.
  - intros i j a b c Ha Hb Hc.
    pose proof (zip_matrix_entry fmax _ _ i j HS12 Ha Hb) as H12.
    pose proof (zip_matrix_entry fmax _ _ i j HSk H12 Hc) as Hr.
    exists (fmax (fmax a b) c). split; [exact Hr |].
    split; [apply fmax3_nan_ignoring |].
    intros -> Hnum. apply nan_as_zero; [apply fmax3_nan_ignoring | exact Hnum].
Qed.

(** C4, as the code has it.  Every non-empty channel is rescaled by
    [(value - min) / (max - min)] with its own nan-ignoring global minimum
    and maximum, without an exception.  For a channel of finite numbers
    the minimum and maximum are entries that bound all entries; when they
    differ every entry becomes the finite quotient, and when they are
    equal the division [0/0] makes every entry [nan] (not zero).  The
    pre-processing of three channels of one shape returns the three
    rescaled channels and an array [S] of their shape, every entry of
    which is the nan-ignoring maximum of the three rescaled entries at
    its position; where the entry of the first channel is [nan] and
    another channel has a number that is not negative, this is what a
    zero in place of the [nan] would give. *)
Theorem C4_rescale_by_channel_range :
  (forall Sk,
      flatten Sk <> [] ->
      exists lo hi,
        nanmin Sk = Ok lo /\ nanmax Sk = Ok hi
        /\ Train.rescale Sk
           = Ok (broadcast (fun x => div (sub x lo) (sub hi lo)) Sk))
  /\ (forall rows,
        List.concat rows <> [] ->
        exists lo hi,
          (forall x, In x (List.concat rows) -> (lo <= x <= hi)%R)
          /\ In lo (List.concat rows)
          /\ In hi (List.concat rows)
          /\ Train.rescale (finite rows)
             = Ok (map (map (fun x => if Reqb hi lo then NaN
                                      else Fin ((x - lo) / (hi - lo))))
                       rows))
  /\ (forall Scat Stag Sname,
        flatten Scat <> [] ->
        shape Stag = shape Scat ->
        shape Sname = shape Scat ->
        exists Scat' Stag' Sname' Sk,
          Train.rescale Scat = Ok Scat'
          /\ Train.rescale Stag = Ok Stag'
          /\ Train.rescale Sname = Ok Sname'
          /\ Train.preprocess Scat Stag Sname
             = Ok (Scat', Stag', Sname', Sk)
          /\ shape Sk = shape Scat
          /\ forall i j a b c,
              entry Scat' i j = Some a ->
              entry Stag' i j = Some b ->
              entry Sname' i j = Some c ->
              exists r,
                entry Sk i j = Some r
                /\ nan_ignoring_max [a; b; c] r
                /\ (a = NaN ->
                    (exists y, b = Fin y /\ (0 <= y)%R)
                    \/ (exists y, c = Fin y /\ (0 <= y)%R) ->
                    nan_ignoring_max [Fin 0; b; c] r)).
Proof.
  split; [exact rescale_total |].
  split; [exact rescale_finite |].
  exact preprocess_entries.
Qed.

Lemma rescale_zeros :
  Train.rescale Scenario.Scat_zeros = Ok [[NaN; NaN]].
Proof.
  unfold Train.rescale, nanmin, nanmax, Scenario.Scat_zeros.
  cbn -[IZR]. decide_reals. cbn -[IZR]. decide_reals. reflexivity.
Qed.

(** C4 fails as stated: the all-zero category channel (maximum =
    minimum = 0) is rescaled to [nan] in every entry, not to zero. *)
Lemma C4_counterexample_zero_width_channel :
  Train.rescale Scenario.Scat_zeros = Ok [[NaN; NaN]]
  /\ [[NaN; NaN]] <> [[Fin 0; Fin 0]].
Proof.
  split; [exact rescale_zeros | discriminate].
Qed.

(** C4 at the all-zero category channel next to a tag channel with the
    entries 1 and 3 and a name channel with the entries 4 and 2. *)
Lemma C4_witness_zeros :
  (exists lo hi,
      nanmin Scenario.Scat_zeros = Ok lo /\ nanmax Scenario.Scat_zeros = Ok hi
      /\ Train.rescale Scenario.Scat_zeros
         = Ok (broadcast (fun x => div (sub x lo) (sub hi lo))
                 Scenario.Scat_zeros))
  /\ (exists lo hi,
         (forall x, In x [1; 3]%R -> (lo <= x <= hi)%R)
         /\ In lo [1; 3]%R /\ In hi [1; 3]%R
         /\ Train.rescale (finite [[1; 3]]%R)
            = Ok (map (map (fun x => if Reqb hi lo then NaN
                                     else Fin ((x - lo) / (hi - lo))))
                      [[1; 3]]%R))
  /\ (exists Scat' Stag' Sname' Sk,
         Train.rescale Scenario.Scat_zeros = Ok Scat'
         /\ Train.rescale (finite [[1; 3]]%R) = Ok Stag'
         /\ Train.rescale (finite [[4; 2]]%R) = Ok Sname'
         /\ Train.preprocess Scenario.Scat_zeros (finite [[1; 3]]%R)
              (finite [[4; 2]]%R)
            = Ok (Scat', Stag', Sname', Sk)
         /\ shape Sk = shape Scenario.Scat_zeros
         /\ forall i j a b c,
             entry Scat' i j = Some a ->
             entry Stag' i j = Some b ->
             entry Sname' i j = Some c ->
             exists r,
               entry Sk i j = Some r
               /\ nan_ignoring_max [a; b; c] r
               /\ (a = NaN ->
                   (exists y, b = Fin y /\ (0 <= y)%R)
                   \/ (exists y, c = Fin y /\ (0 <= y)%R) ->
                   nan_ignoring_max [Fin 0; b; c] r)).
Proof.
  destruct C4_rescale_by_channel_range as (H1 & H2 & H3).
  split; [| split].
  - apply H1. discriminate.
  - apply (H2 [[1; 3]]%R). discriminate.
  - apply H3; [discriminate | reflexivity | reflexivity].
Defined.

End Rescale.

(* ================================================================== *)
(** * Further properties of the query path                             *)
(* ================================================================== *)

(** ** [__filter_courses__] *)

Lemma matches_all_Permutation (fs1 fs2 : list filter) (c : course) :
  Permutation fs1 fs2 -> matches_all fs1 c = matches_all fs2 c.
Proof.
  unfold matches_all.
  induction 1 as [| f l l' _ IH | f g l | l l' l'' _ IH1 _ IH2]; cbn.
  - reflexivity.
  - rewrite IH. reflexivity.
  - destruct (matches g c), (matches f c); reflexivity.
  - congruence.
Qed.

(** X1.  When every course has every filtered attribute, the order of
    the filters does not matter: any rearrangement of the filter list
    returns the same courses. *)
Theorem X1_filter_order_is_irrelevant
    (courses : list course) (fs1 fs2 : list filter) :
  Permutation fs1 fs2 ->
  (forall c f, In c courses -> In f fs1 ->
               dict_in (filter_name f) (features c) = true) ->
  __filter_courses__ courses fs1 = __filter_courses__ courses fs2.
Proof.
  intros Hperm Hdef.
  rewrite (filter_courses_total fs1 courses Hdef).
  rewrite (filter_courses_total fs2 courses).
  - f_equal. apply filter_ext. intros c.
    apply matches_all_Permutation. exact Hperm.
  - intros c f Hc Hf. apply Hdef; [exact Hc |].
    apply (Permutation_in _ (Permutation_sym Hperm)). exact Hf.
Qed.

Lemma X1_witness_price_filters :
  __filter_courses__ [Scenario.A; Scenario.B]
    [Scenario.price_free; Scenario.price_100]
  = __filter_courses__ [Scenario.A; Scenario.B]
      [Scenario.price_100; Scenario.price_free].
Proof.
  apply X1_filter_order_is_irrelevant.
  - apply perm_swap.
  - intros c f [<- | [<- | []]] [<- | [<- | []]]; reflexivity.
Defined.

(** X2.  Filtering by a concatenation of filter lists is filtering by
    the first list and then filtering the result by the second, with the
    same exception if one is raised. *)
Theorem X2_filter_lists_compose
    (courses : list course) (fs gs : list filter) :
  __filter_courses__ courses (fs ++ gs)
  = (courses' <- __filter_courses__ courses fs ;;
     __filter_courses__ courses' gs).
Proof.
  revert courses. induction fs as [| f fs IH]; intros courses.
  - reflexivity.
  - cbn [app __filter_courses__].
    destruct (keep_matching courses f) as [courses' | e];
      cbn [bind Monad_result].
    + apply IH.
    + reflexivity.
Qed.

Lemma keep_matching_missing (f : filter) (courses : list course) :
  (exists c, In c courses /\ dict_in (filter_name f) (features c) = false) ->
  keep_matching courses f = Raise KeyError.
Proof.
  induction courses as [| c rest IH]; intros (c0 & Hin & Hmiss).
  - contradiction.
  - cbn [keep_matching]. unfold subscript.
    destruct (dict_get (features c) (filter_name f)) as [v |] eqn:E;
      cbn [bind Monad_result]; [| reflexivity].
    rewrite IH; [reflexivity |].
    exists c0. split; [| exact Hmiss].
    destruct Hin as [-> | Hin]; [| exact Hin].
    unfold dict_in in Hmiss. rewrite E in Hmiss. discriminate Hmiss.
Qed.

Lemma keep_matching_only_KeyError (f : filter) (courses : list course)
    (e : exn) :
  keep_matching courses f = Raise e -> e = KeyError.
Proof.
  induction courses as [| c rest IH]; cbn [keep_matching].
  - discriminate.
  - unfold subscript.
    destruct (dict_get (features c) (filter_name f)); cbn [bind Monad_result].
    + destruct (keep_matching rest f) as [rest' | e'];
        cbn [bind Monad_result].
      * discriminate.
      * intros H. inversion H; subst. apply IH. reflexivity.
    + intros H. inversion H. reflexivity.
Qed.

(** X3.  The only exception of the filtering is [KeyError]; it is raised
    as soon as one course of the list lacks the attribute of the first
    filter, whatever the later filters are; an empty course list never
    raises. *)
Theorem X3_filter_missing_attribute_raises_KeyError :
  (forall courses f fs,
      (exists c, In c courses
                 /\ dict_in (filter_name f) (features c) = false) ->
      __filter_courses__ courses (f :: fs) = Raise KeyError)
  /\ (forall courses fs e,
        __filter_courses__ courses fs = Raise e -> e = KeyError)
  /\ (forall fs, __filter_courses__ [] fs = Ok []).
Proof.
  split; [| split].
  - intros courses f fs Hmiss. cbn [__filter_courses__].
    rewrite (keep_matching_missing f courses Hmiss). reflexivity.
  - intros courses fs. revert courses.
    induction fs as [| f fs IH]; intros courses e; cbn [__filter_courses__].
    + discriminate.
    + destruct (keep_matching courses f) as [courses' | e'] eqn:E;
        cbn [bind Monad_result].
      * apply IH.
      * intros H. inversion H; subst.
        apply (keep_matching_only_KeyError f courses E).
  - induction fs as [| f fs IH]; [reflexivity | exact IH].
Qed.

(** X3 at the list [[A, C]]: [C] has no [price]. *)
Lemma X3_witness_course_without_price :
  __filter_courses__ [Scenario.A; Scenario.C]
    [Scenario.price_free; Scenario.price_100]
  = Raise KeyError
  /\ KeyError = KeyError.
Proof.
  destruct X3_filter_missing_attribute_raises_KeyError as (Hmiss & Honly & _).
  assert (H : __filter_courses__ [Scenario.A; Scenario.C]
                [Scenario.price_free; Scenario.price_100]
              = Raise KeyError).
  { apply Hmiss. exists Scenario.C. split; [right; left |]; reflexivity. }
  split; [exact H |].
  apply (Honly [Scenario.A; Scenario.C]
           [Scenario.price_free; Scenario.price_100] KeyError H).
Defined.

(** ** The resolution of the active filters *)

Lemma resolve_filters_partition (model_features : list feature)
    (active_filters : dict string) :
  Permutation
    (map filter_name (fst (resolve_filters model_features active_filters))
     ++ snd (resolve_filters model_features active_filters))
    (map feature_name model_features).
Proof.
  induction model_features as [| feature rest IH].
  - apply perm_nil.
  - cbn [resolve_filters map].
    destruct (resolve_filters rest active_filters) as [filters remaining].
    cbn [fst snd] in IH.
    destruct (dict_get active_filters (feature_name feature)) as [v |].
    + destruct (str_in v (feature_values feature)); cbn [fst snd map app].
      * apply perm_skip. exact IH.
      * apply Permutation_sym. apply Permutation_cons_app.
        apply Permutation_sym. exact IH.
    + cbn [fst snd]. apply Permutation_sym. apply Permutation_cons_app.
      apply Permutation_sym. exact IH.
Qed.

Lemma resolve_filters_empty (model_features : list feature) :
  resolve_filters model_features []
  = ([], map feature_name model_features).
Proof.
  induction model_features as [| feature rest IH].
  - reflexivity.
  - cbn [resolve_filters map]. rewrite IH. reflexivity.
Qed.

(** X4.  The resolution splits the schema: every attribute of the schema
    goes either to the honoured filters or to the remaining features, so
    the two lists together are a rearrangement of the attribute names of
    the schema; with an empty dict of active filters every attribute
    remains, in schema order, exactly as for [None]. *)
Theorem X4_resolution_partitions_the_schema
    (model_features : list feature) (active_filters : dict string) :
  Permutation
    (map filter_name (fst (resolve_filters model_features active_filters))
     ++ snd (resolve_filters model_features active_filters))
    (map feature_name model_features)
  /\ (List.length (fst (resolve_filters model_features active_filters))
      + List.length (snd (resolve_filters model_features active_filters))
      = List.length model_features)%nat
  /\ resolve_filters model_features []
     = ([], map feature_name model_features).
Proof.
  split; [apply resolve_filters_partition |]. split.
  - pose proof (Permutation_length
                  (resolve_filters_partition model_features active_filters))
      as H.
    rewrite length_app, !length_map in H. exact H.
  - apply resolve_filters_empty.
Qed.

(** ** [__rank_courses__]: what is returned *)

Lemma rank_courses_Ok_inv (courses : list course) (h h' : heap)
    (out : list crs) :
  __rank_courses__ courses h = (Ok out, h') ->
  exists m np xs,
    self_model h = Some m
    /\ normalize_preferences h = (Ok np, h')
    /\ score_courses m np courses = Ok xs
    /\ out = sorted_by_score xs.
Proof.
  unfold __rank_courses__. cbn [bind Monad_M]. intros Hrun.
  pose proof (keeps_model_normalize_preferences h) as Hmodel.
  destruct (normalize_preferences h) as [[np | e] h1]; [| discriminate].
  cbn [snd] in Hmodel. unfold get_model, lift in Hrun.
  cbn [bind Monad_M] in Hrun.
  destruct (self_model h1) as [m |]; [| discriminate].
  destruct (score_courses m np courses) as [xs | e] eqn:Hxs;
    [| discriminate].
  cbn [ret Monad_M] in Hrun. inversion Hrun; subst.
  exists m, np, xs. repeat split; [symmetry; exact Hmodel | exact Hxs].
Qed.

Lemma score_course_id (m : Model) (np : dict R) (c : course) (x : crs) :
  score_course m np c = Ok x ->
  crs_course_id x = course_id c /\ crs_name x = name c
  /\ crs_features x = features c.
Proof.
  unfold score_course. destruct (negb (known m (course_id c))).
  - intros H. inversion H. repeat split.
  - intros H. apply bind_Ok_inv in H. destruct H as (e1 & _ & H).
    apply bind_Ok_inv in H. destruct H as (s & _ & H).
    apply bind_Ok_inv in H. destruct H as (e2 & _ & H).
    inversion H. repeat split.
Qed.

Lemma score_courses_ids (m : Model) (np : dict R) (courses : list course) :
  forall xs,
    score_courses m np courses = Ok xs ->
    map crs_course_id xs = map course_id courses
    /\ map crs_features xs = map features courses.
Proof.
  induction courses as [| c rest IH]; intros xs H.
  - cbn in H. inversion H. split; reflexivity.
  - cbn [score_courses] in H.
    apply bind_Ok_inv in H. destruct H as (x & Hx & H).
    apply bind_Ok_inv in H. destruct H as (xs' & Hxs & H).
    inversion H; subst. apply score_course_id in Hx.
    destruct Hx as (Hid & _ & Hf). destruct (IH xs' Hxs) as (Hids & Hfs).
    cbn [map]. rewrite Hid, Hf, Hids, Hfs. split; reflexivity.
Qed.

Lemma rank_courses_ids (courses : list course) (h h' : heap) (out : list crs) :
  __rank_courses__ courses h = (Ok out, h') ->
  Permutation (map crs_course_id out) (map course_id courses).
Proof.
  intros Hrun. apply rank_courses_Ok_inv in Hrun.
  destruct Hrun as (m & np & xs & _ & _ & Hxs & ->).
  destruct (score_courses_ids m np courses Hxs) as (Hids & _).
  rewrite <- Hids. apply Permutation_map. apply sorted_by_score_perm.
Qed.

(** X5.  Whenever the ranking returns, the result has one entry for
    every course of the input (the ids are a rearrangement of the input
    ids, so no course is dropped or repeated) and is in descending order
    of the score. *)
Theorem X5_ranking_is_a_descending_rearrangement
    (courses : list course) (h h' : heap) (out : list crs) :
  __rank_courses__ courses h = (Ok out, h') ->
  Permutation (map crs_course_id out) (map course_id courses)
  /\ List.length out = List.length courses
  /\ StronglySorted score_ge out.
Proof.
  intros Hrun. apply rank_courses_Ok_inv in Hrun.
  destruct Hrun as (m & np & xs & _ & _ & Hxs & ->).
  destruct (score_courses_ids m np courses Hxs) as (Hids & _).
  assert (Hperm := sorted_by_score_perm xs).
  split; [| split].
  - rewrite <- Hids. apply Permutation_map. exact Hperm.
  - rewrite (Permutation_length Hperm).
    rewrite <- (length_map crs_course_id xs), Hids. apply length_map.
  - apply sorted_by_score_sorted.
Qed.

Lemma X5_witness_C_A_B :
  Permutation
    (map crs_course_id
         [Scenario.ranked_A; Scenario.ranked_B; Scenario.unranked_C])
    (map course_id [Scenario.C; Scenario.A; Scenario.B])
  /\ List.length [Scenario.ranked_A; Scenario.ranked_B; Scenario.unranked_C]
     = List.length [Scenario.C; Scenario.A; Scenario.B]
  /\ StronglySorted score_ge
       [Scenario.ranked_A; Scenario.ranked_B; Scenario.unranked_C].
Proof.
  eapply (X5_ranking_is_a_descending_rearrangement
            [Scenario.C; Scenario.A; Scenario.B] Scenario.prefer_X).
  exact rank_C_A_B.
Defined.

Lemma insert_by_score_stable (s : R) (x : crs) (l : list crs) :
  List.filter (has_score s) (insert_by_score x l)
  = List.filter (has_score s) (x :: l).
Proof.
  induction l as [| y l IH]; [reflexivity |].
  cbn [insert_by_score].
  destruct (Np.Rltb (crs_score x) (crs_score y)) eqn:E; [| reflexivity].
  apply Rltb_true in E. cbn [List.filter] in *. rewrite IH.
  unfold has_score.
  destruct (Np.Reqb (crs_score x) s) eqn:Ex;
    destruct (Np.Reqb (crs_score y) s) eqn:Ey; try reflexivity.
  apply Reqb_true in Ex. apply Reqb_true in Ey. lra.
Qed.

Lemma sorted_by_score_stable (s : R) (l : list crs) :
  List.filter (has_score s) (sorted_by_score l) = List.filter (has_score s) l.
Proof.
  induction l as [| x l IH]; [reflexivity |].
  cbn [sorted_by_score]. rewrite insert_by_score_stable.
  cbn [List.filter]. rewrite IH. reflexivity.
Qed.

(** X6.  The ranking is stable: the returned list consists of the scored
    courses, and for every score the courses that have it stand in the
    returned list in the order in which they stand in the input. *)
Theorem X6_ranking_keeps_ties_in_input_order
    (courses : list course) (h h' : heap) (out : list crs) :
  __rank_courses__ courses h = (Ok out, h') ->
  exists xs,
    map crs_course_id xs = map course_id courses
    /\ Permutation out xs
    /\ forall s, List.filter (has_score s) out = List.filter (has_score s) xs.
Proof.
  intros Hrun. apply rank_courses_Ok_inv in Hrun.
  destruct Hrun as (m & np & xs & _ & _ & Hxs & ->).
  exists xs. split; [apply (score_courses_ids m np courses Hxs) |].
  split; [apply sorted_by_score_perm |].
  intros s. apply sorted_by_score_stable.
Qed.

Lemma X6_witness_C_A_B :
  exists xs,
    map crs_course_id xs = map course_id [Scenario.C; Scenario.A; Scenario.B]
    /\ Permutation
         [Scenario.ranked_A; Scenario.ranked_B; Scenario.unranked_C] xs
    /\ forall s,
        List.filter (has_score s)
          [Scenario.ranked_A; Scenario.ranked_B; Scenario.unranked_C]
        = List.filter (has_score s) xs.
Proof.
  eapply (X6_ranking_keeps_ties_in_input_order
            [Scenario.C; Scenario.A; Scenario.B] Scenario.prefer_X).
  exact rank_C_A_B.
Defined.

(** ** [__rank_courses__]: exceptions *)

Lemma rank_courses_empty_preferences (courses : list course)
    (m : option Model) :
  __rank_courses__ courses {| self_model := m; preferences := [] |}
  = (Raise ZeroDivisionError, {| self_model := m; preferences := [] |}).
Proof.
  unfold __rank_courses__. cbn [bind Monad_M].
  rewrite normalize_preferences_empty. reflexivity.
Qed.

Lemma normalize_preferences_missing_category (m : Model) (prefs : dict R) :
  prefs <> [] ->
  NoDup (keys prefs) ->
  (exists k, In k (meta_categories m) /\ ~ In k (keys prefs)) ->
  normalize_preferences {| self_model := Some m; preferences := prefs |}
  = (Raise KeyError,
     {| self_model := Some m;
        preferences := scale (normalizer prefs) prefs |}).
Proof.
  intros Hne Hnd (k & Hk & Hmiss). unfold normalize_preferences.
  rewrite (rescale_in_place (Some m) Hne Hnd).
  unfold get_model, get_preferences, lift.
  cbn [bind Monad_M self_model preferences].
  rewrite reorder_missing; [reflexivity |].
  exists k. split; [exact Hk |]. rewrite keys_scale. exact Hmiss.
Qed.

Lemma rank_courses_missing_category (courses : list course) (m : Model)
    (prefs : dict R) :
  prefs <> [] ->
  NoDup (keys prefs) ->
  (exists k, In k (meta_categories m) /\ ~ In k (keys prefs)) ->
  __rank_courses__ courses {| self_model := Some m; preferences := prefs |}
  = (Raise KeyError,
     {| self_model := Some m;
        preferences := scale (normalizer prefs) prefs |}).
Proof.
  intros Hne Hnd Hmiss. unfold __rank_courses__. cbn [bind Monad_M].
  rewrite (@normalize_preferences_missing_category m prefs Hne Hnd Hmiss).
  reflexivity.
Qed.

(** X7.  With an empty preference dict the ranking raises
    [ZeroDivisionError] and changes nothing.  With a non-empty dict that
    lacks a meta category it raises [KeyError], but only after the
    caller's dict has been rescaled: the exception leaves the rescaled
    weights behind. *)
Theorem X7_ranking_exceptions_and_their_effects :
  (forall courses m,
      __rank_courses__ courses {| self_model := m; preferences := [] |}
      = (Raise ZeroDivisionError, {| self_model := m; preferences := [] |}))
  /\ (forall courses m prefs,
        prefs <> [] ->
        NoDup (keys prefs) ->
        (exists k, In k (meta_categories m) /\ ~ In k (keys prefs)) ->
        __rank_courses__ courses
          {| self_model := Some m; preferences := prefs |}
        = (Raise KeyError,
           {| self_model := Some m;
              preferences := scale (normalizer prefs) prefs |})).
Proof.
  split.
  - intros courses m. apply rank_courses_empty_preferences.
  - intros courses m prefs. apply rank_courses_missing_category.
Qed.

(** X7 at the query [{'X': 2}] over the categories [['X', 'Y']]: the
    [KeyError] for [Y] leaves [{'X': 2/2}] in the caller's dict. *)
Lemma X7_witness_only_X :
  __rank_courses__ [Scenario.A]
    {| self_model := Some Scenario.xy_model;
       preferences := [("X"%string, 2%R)] |}
  = (Raise KeyError,
     {| self_model := Some Scenario.xy_model;
        preferences := scale (normalizer [("X"%string, 2%R)])
                         [("X"%string, 2%R)] |}).
Proof.
  apply (proj2 X7_ranking_exceptions_and_their_effects).
  - discriminate.
  - repeat constructor. intros [].
  - exists "Y"%string. split.
    + right. left. reflexivity.
    + intros [H | []]. discriminate H.
Defined.

(** ** The normalisation: keys that are no meta categories *)




(** ** The score *)

Lemma dot_bounds (sim : list R) :
  forall ws,
    Forall (fun s => 0 <= s <= 1)%R sim ->
    Forall (fun w => 0 <= w)%R ws ->
    (0 <= dot sim ws <= Rsum ws)%R.
Proof.
  induction sim as [| s sim IH]; intros ws Hs Hw.
  - cbn. induction Hw as [| w ws Hw0 _ IHw]; cbn; lra.
  - destruct ws as [| w ws]; cbn [dot Rsum]; [lra |].
    inversion Hs as [| ? ? Hs0 Hs']; subst.
    inversion Hw as [| ? ? Hw0 Hw']; subst.
    specialize (IH ws Hs' Hw'). nra.
Qed.

Lemma ln_count_nonneg (n : nat) : (0 <= ln (INR n + 1))%R.
Proof.
  pose proof (pos_INR n) as Hn.
  destruct (Req_dec_T (INR n) 0) as [H0 | Hne].
  - rewrite H0, Rplus_0_l, ln_1. lra.
  - rewrite <- ln_1. left. apply ln_increasing; lra.
Qed.

Lemma ln_count_monotone (n1 n2 : nat) :
  (n1 <= n2)%nat -> (ln (INR n1 + 1) <= ln (INR n2 + 1))%R.
Proof.
  intros Hle. apply le_INR in Hle. pose proof (pos_INR n1) as Hn.
  destruct (Req_dec_T (INR n1) (INR n2)) as [Heq | Hne].
  - rewrite Heq. lra.
  - left. apply ln_increasing; lra.
Qed.

Lemma LAMBDA_pos : (0 < _LAMBDA_)%R.
Proof. pose proof LAMBDA_gt_10. lra. Qed.

Lemma score_course_Ok_known (m : Model) (np : dict R) (c entry : course)
    (x : crs) :
  find (fun d => Z.eqb (course_id d) (course_id c)) (model_courses m)
  = Some entry ->
  score_course m np c = Ok x ->
  crs_sim x = dot (Sim entry) (values np)
  /\ crs_score x = (_LAMBDA_ * crs_sim x + ln (INR (count entry) + 1))%R.
Proof.
  intros Hfind Hrun.
  destruct (Nat.le_gt_cases (List.length (Sim entry))
              (List.length (values np))) as [Hlen | Hlen].
  - rewrite (@score_course_known m np c entry Hfind Hlen) in Hrun.
    inversion Hrun. cbn. rewrite LAMBDA_value. split; reflexivity.
  - exfalso. unfold score_course in Hrun.
    rewrite (proj2 (known_find m (course_id c))) in Hrun
      by (exists entry; exact Hfind).
    cbn [negb] in Hrun. unfold model_entry in Hrun. rewrite Hfind in Hrun.
    cbn [bind Monad_result] in Hrun.
    rewrite accumulate_sim_short in Hrun by exact Hlen.
    discriminate Hrun.
Qed.

(** X10.  For a course of the table whose similarities lie in [0, 1],
    under non-negative weights that sum to at most 1, the course is scored
    with [sim] in [0, 1] and a score between [ln (count + 1)] and
    [_LAMBDA_ + ln (count + 1)]; in particular the score is not
    negative. *)
Theorem X10_score_bounds (m : Model) (np : dict R) (c entry : course) :
  find (fun d => Z.eqb (course_id d) (course_id c)) (model_courses m)
  = Some entry ->
  (List.length (Sim entry) <= List.length (values np))%nat ->
  Forall (fun s => 0 <= s <= 1)%R (Sim entry) ->
  Forall (fun w => 0 <= w)%R (values np) ->
  (py_sum (values np) <= 1)%R ->
  exists x,
    score_course m np c = Ok x
    /\ (0 <= crs_sim x <= 1)%R
    /\ (ln (INR (count entry) + 1) <= crs_score x
        <= _LAMBDA_ + ln (INR (count entry) + 1))%R
    /\ (0 <= crs_score x)%R.
Proof.
  intros Hfind Hlen Hsim Hw Hsum.
  rewrite (@score_course_known m np c entry Hfind Hlen).
  eexists. split; [reflexivity |]. cbn [crs_sim crs_score].
  pose proof (@dot_bounds (Sim entry) (values np) Hsim Hw) as Hdot. rewrite <- py_sum_Rsum in Hdot.
  pose proof (ln_count_nonneg (count entry)) as Hln.
  pose proof LAMBDA_pos as HL. rewrite LAMBDA_value in *.
  split; [lra |]. split; [split; nra | nra].
Qed.

(** X10 for [B] under the weights [{'X': 1, 'Y': 0}]. *)
Lemma X10_witness_B :
  exists x,
    score_course Scenario.xy_model [("X", 1%R); ("Y", 0%R)]%string Scenario.B
    = Ok x
    /\ (0 <= crs_sim x <= 1)%R
    /\ (ln (INR 100 + 1) <= crs_score x <= _LAMBDA_ + ln (INR 100 + 1))%R
    /\ (0 <= crs_score x)%R.
Proof.
  apply (@X10_score_bounds Scenario.xy_model
           [("X", 1%R); ("Y", 0%R)]%string Scenario.B Scenario.B).
  - reflexivity.
  - cbn. lia.
  - cbn. repeat constructor; lra.
  - cbn. repeat constructor; lra.
  - cbn. lra.
Defined.

(** X11.  The score is monotone in both of its parts: of two courses of
    the table, the one with at least the similarity [sim] and at least the
    enrolment count of the other has at least its score. *)
Theorem X11_score_is_monotone (m : Model) (np : dict R)
    (c1 c2 e1 e2 : course) (x1 x2 : crs) :
  find (fun d => Z.eqb (course_id d) (course_id c1)) (model_courses m)
  = Some e1 ->
  find (fun d => Z.eqb (course_id d) (course_id c2)) (model_courses m)
  = Some e2 ->
  score_course m np c1 = Ok x1 ->
  score_course m np c2 = Ok x2 ->
  (crs_sim x1 <= crs_sim x2)%R ->
  (count e1 <= count e2)%nat ->
  (crs_score x1 <= crs_score x2)%R.
Proof.
  intros Hf1 Hf2 Hx1 Hx2 Hsim Hcount.
  destruct (@score_course_Ok_known m np c1 e1 x1 Hf1 Hx1) as (_ & ->).
  destruct (@score_course_Ok_known m np c2 e2 x2 Hf2 Hx2) as (_ & ->).
  pose proof (@ln_count_monotone (count e1) (count e2) Hcount) as Hln.
  pose proof LAMBDA_pos as HL. nra.
Qed.

(** X11 for [B] and [A] under the weights [{'X': 0, 'Y': 0}]: equal
    similarity 0, and [A] has fewer enrolments. *)
Lemma X11_witness_A_B :
  (ln (INR 0 + 1) <= ln (INR 100 + 1))%R.
Proof.
  assert (HA : score_course Scenario.xy_model
                 [("X", 0%R); ("Y", 0%R)]%string Scenario.A
               = Ok {| crs_course_id := 1; crs_name := "A";
                       crs_features := [("price", "free")]%string;
                       crs_sim := 0; crs_score := ln (INR 0 + 1) |}).
  { rewrite (@score_course_known Scenario.xy_model
               [("X", 0%R); ("Y", 0%R)]%string Scenario.A Scenario.A
               eq_refl) by (cbn; lia).
    cbn. f_equal. f_equal; lra. }
  assert (HB : score_course Scenario.xy_model
                 [("X", 0%R); ("Y", 0%R)]%string Scenario.B
               = Ok {| crs_course_id := 2; crs_name := "B";
                       crs_features := [("price", "free")]%string;
                       crs_sim := 0; crs_score := ln (INR 100 + 1) |}).
  { rewrite (@score_course_known Scenario.xy_model
               [("X", 0%R); ("Y", 0%R)]%string Scenario.B Scenario.B
               eq_refl) by (cbn; lia).
    cbn -[INR]. f_equal. f_equal; lra. }
  apply (@X11_score_is_monotone Scenario.xy_model _ Scenario.A Scenario.B
           Scenario.A Scenario.B _ _ eq_refl eq_refl HA HB).
  - cbn. lra.
  - cbn. lia.
Defined.

(** ** Similarity vectors and weight vectors of different lengths *)

Lemma score_course_only_IndexError (m : Model) (np : dict R) (c : course)
    (e : exn) :
  score_course m np c = Raise e -> e = IndexError.
Proof.
  unfold score_course. destruct (known m (course_id c)) eqn:Hk; cbn [negb].
  - apply known_find in Hk. destruct Hk as (entry & Hfind).
    unfold model_entry. rewrite Hfind. cbn [bind Monad_result].
    destruct (Nat.le_gt_cases (List.length (Sim entry))
                (List.length (values np))) as [Hlen | Hlen].
    + rewrite accumulate_sim_dot by exact Hlen. discriminate.
    + rewrite accumulate_sim_short by exact Hlen. cbn [bind Monad_result].
      intros H. inversion H. reflexivity.
  - discriminate.
Qed.

Lemma score_courses_raise (m : Model) (np : dict R) (courses : list course) :
  (exists c, In c courses /\ score_course m np c = Raise IndexError) ->
  score_courses m np courses = Raise IndexError.
Proof.
  induction courses as [| c rest IH]; intros (c0 & Hin & Hraise).
  - contradiction.
  - cbn [score_courses].
    destruct (score_course m np c) as [x | e] eqn:E; cbn [bind Monad_result].
    + rewrite IH; [reflexivity |]. exists c0. split; [| exact Hraise].
      destruct Hin as [-> | Hin]; [congruence | exact Hin].
    + f_equal. apply (score_course_only_IndexError m np c E).
Qed.

Lemma dot_firstn (sim : list R) :
  forall ws, dot sim ws = dot sim (firstn (List.length sim) ws).
Proof.
  induction sim as [| s sim IH]; intros ws.
  - reflexivity.
  - destruct ws as [| w ws]; cbn [dot List.length firstn]; [reflexivity |].
    rewrite <- IH. reflexivity.
Qed.

(** X12.  When the similarity vector of a queried course of the table is
    longer than the list of meta categories, the ranking raises
    [IndexError] (after the caller's dict has been rescaled).  A shorter
    vector raises nothing: it is combined with the leading weights, and
    the weights of the later meta categories are ignored. *)
Theorem X12_length_mismatch_of_similarities :
  (forall m prefs courses,
      well_formed_query m prefs ->
      (exists c entry,
          In c courses
          /\ find (fun d => Z.eqb (course_id d) (course_id c))
                  (model_courses m) = Some entry
          /\ (List.length (meta_categories m) < List.length (Sim entry))%nat) ->
      __rank_courses__ courses
        {| self_model := Some m; preferences := prefs |}
      = (Raise IndexError,
         {| self_model := Some m;
            preferences := scale (normalizer prefs) prefs |}))
  /\ (forall m np c entry,
        find (fun d => Z.eqb (course_id d) (course_id c)) (model_courses m)
        = Some entry ->
        (List.length (Sim entry) <= List.length (values np))%nat ->
        exists x,
          score_course m np c = Ok x
          /\ crs_sim x
             = dot (Sim entry)
                   (firstn (List.length (Sim entry)) (values np))).
Proof.
  split.
  - intros m prefs courses (Hne & Hnd & Hmeta & Hincl)
           (c & entry & Hin & Hfind & Hlen).
    unfold __rank_courses__. cbn [bind Monad_M].
    rewrite (normalize_preferences_run m Hne Hnd Hmeta Hincl).
    unfold get_model, lift. cbn [bind Monad_M self_model].
    rewrite score_courses_raise; [reflexivity |].
    exists c. split; [exact Hin |]. unfold score_course.
    rewrite (proj2 (known_find m (course_id c)))
      by (exists entry; exact Hfind).
    cbn [negb]. unfold model_entry. rewrite Hfind. cbn [bind Monad_result].
    rewrite accumulate_sim_short; [reflexivity |].
    rewrite values_pick_length. exact Hlen.
  - intros m np c entry Hfind Hlen.
    rewrite (@score_course_known m np c entry Hfind Hlen).
    eexists. split; [reflexivity |]. cbn [crs_sim]. apply dot_firstn.
Qed.

(** X12 for one meta category and two similarities, and for [A] under
    three weights. *)
Lemma X12_witness_long_and_short :
  __rank_courses__ [Scenario.long_course]
    {| self_model := Some Scenario.x_model;
       preferences := [("X"%string, 1%R)] |}
  = (Raise IndexError,
     {| self_model := Some Scenario.x_model;
        preferences := scale (normalizer [("X"%string, 1%R)])
                         [("X"%string, 1%R)] |})
  /\ exists x,
      score_course Scenario.xy_model
        [("X", 1); ("Y", 0); ("Z", 5)]%string%R Scenario.A
      = Ok x
      /\ crs_sim x
         = dot (Sim Scenario.A)
               (firstn (List.length (Sim Scenario.A))
                  (values [("X", 1); ("Y", 0); ("Z", 5)]%string%R)).
Proof.
  destruct X12_length_mismatch_of_similarities as (Hlong & Hshort).
  split.
  - apply Hlong.
    + repeat split.
      * discriminate.
      * repeat constructor. intros [].
      * repeat constructor. intros [].
      * intros k Hk. exact Hk.
    + exists Scenario.long_course, Scenario.long_course.
      split; [left; reflexivity |]. split; [reflexivity | cbn; lia].
  - apply (Hshort Scenario.xy_model _ Scenario.A Scenario.A).
    + reflexivity.
    + cbn. lia.
Defined.

(** ** The split search: exceptions *)


(** ** The split search on list values *)























(** ** The split search: the losses *)











(** ** [recommend]: what the four results have to do with each other *)

Lemma NoDup_app_disjoint {A} (l1 l2 : list A) (x : A) :
  NoDup (l1 ++ l2) -> In x l1 -> In x l2 -> False.
Proof.
  induction l1 as [| a l1 IH]; cbn; intros Hnd H1 H2; [contradiction |].
  inversion Hnd as [| ? ? Hnotin Hnd']; subst.
  destruct H1 as [-> | H1].
  - apply Hnotin. apply in_or_app. right. exact H2.
  - exact (IH Hnd' H1 H2).
Qed.

Lemma decision_tree_split_range (courses : list crs)
    (remaining_features : list string) (j : Z) :
  __decision_tree_split__ courses remaining_features = Ok j ->
  j = (-1)%Z \/ (0 <= j < Z.of_nat (List.length remaining_features))%Z.
Proof.
  unfold __decision_tree_split__.
  destruct (Np.Rltb (py_sum (map crs_score courses)) 1e-3).
  - intros H. inversion H. left. reflexivity.
  - intros H. apply split_loop_result in H.
    destruct H as [(H & _) | (H & _)]; [left | right]; exact H.
Qed.

(** X15.  The split index that [recommend] returns is -1 or a position
    of the returned remaining features; when the attribute names of the
    schema are distinct, the attribute at that position is an attribute of
    the schema that is not the attribute of any honoured filter: an
    attribute that is already filtered is never proposed again. *)
Theorem X15_split_attribute_is_not_yet_filtered
    (m : Model) (prefs : dict R) (active_filters : option (dict string))
    (filters : list filter) (remaining_features : list string)
    (courses : list crs) (split_index : Z) (h' : heap) :
  NoDup (map feature_name (model_features m)) ->
  recommend active_filters {| self_model := Some m; preferences := prefs |}
  = (Ok (filters, remaining_features, courses, split_index), h') ->
  (split_index = (-1)%Z
   \/ (0 <= split_index < Z.of_nat (List.length remaining_features))%Z)
  /\ ((0 <= split_index)%Z ->
      exists fn,
        nth_error remaining_features (Z.to_nat split_index) = Some fn
        /\ In fn (map feature_name (model_features m))
        /\ ~ In fn (map filter_name filters)).
Proof.
  intros Hnames Hrun. apply recommend_Ok_inv in Hrun.
  destruct Hrun as (m' & filtered & Hm & Hres & _ & _ & Hsplit).
  cbn in Hm. inversion Hm; subst m'.
  pose proof (decision_tree_split_range _ _ Hsplit) as Hrange.
  split; [exact Hrange |]. intros Hpos.
  destruct Hrange as [-> | Hrange]; [lia |].
  destruct (nth_error remaining_features (Z.to_nat split_index))
    as [fn |] eqn:Hnth.
  2:{ apply nth_error_None in Hnth. lia. }
  exists fn. split; [reflexivity |].
  apply nth_error_In in Hnth.
  assert (Hperm : Permutation (map filter_name filters ++ remaining_features)
                    (map feature_name (model_features m))).
  { destruct active_filters as [af |].
    - pose proof (resolve_filters_partition (model_features m) af) as Hp.
      rewrite Hres in Hp. exact Hp.
    - inversion Hres; subst. apply Permutation_refl. }
  split.
  - apply (Permutation_in _ Hperm). apply in_or_app. right. exact Hnth.
  - intros Hin.
    apply (@NoDup_app_disjoint _ (map filter_name filters)
             remaining_features fn); [| exact Hin | exact Hnth].
    apply (Permutation_NoDup (Permutation_sym Hperm)). exact Hnames.
Qed.

Lemma X15_witness_prefer_X :
  (0%Z = (-1)%Z \/ (0 <= 0 < Z.of_nat (List.length ["price"%string]))%Z)
  /\ ((0 <= 0)%Z ->
      exists fn,
        nth_error ["price"%string] (Z.to_nat 0) = Some fn
        /\ In fn (map feature_name (model_features Scenario.xy_model))
        /\ ~ In fn (map filter_name [])).
Proof.
  eapply (@X15_split_attribute_is_not_yet_filtered Scenario.xy_model
            (preferences Scenario.prefer_X) None).
  - cbn. repeat constructor. intros [].
  - exact recommend_prefer_X_unfiltered.
Defined.

Lemma score_courses_In (m : Model) (np : dict R) (courses : list course) :
  forall xs x,
    score_courses m np courses = Ok xs ->
    In x xs ->
    exists c, In c courses /\ score_course m np c = Ok x.
Proof.
  induction courses as [| c rest IH]; intros xs x H Hx.
  - cbn in H. inversion H; subst. contradiction.
  - cbn [score_courses] in H.
    apply bind_Ok_inv in H. destruct H as (x0 & Hx0 & H).
    apply bind_Ok_inv in H. destruct H as (xs' & Hxs & H).
    inversion H; subst. destruct Hx as [<- | Hx].
    + exists c. split; [left; reflexivity | exact Hx0].
    + destruct (IH xs' x Hxs Hx) as (c' & Hc' & Hsc).
      exists c'. split; [right; exact Hc' | exact Hsc].
Qed.

(** X16.  The courses that [recommend] returns are the courses of the
    model that match every honoured filter: their ids are a rearrangement
    of the ids of these courses, and every returned course carries, for
    every returned filter, exactly the value of the filter. *)
Theorem X16_returned_courses_match_the_filters
    (m : Model) (prefs : dict R) (active_filters : option (dict string))
    (filters : list filter) (remaining_features : list string)
    (courses : list crs) (split_index : Z) (h' : heap) :
  recommend active_filters {| self_model := Some m; preferences := prefs |}
  = (Ok (filters, remaining_features, courses, split_index), h') ->
  Permutation (map crs_course_id courses)
    (map course_id (List.filter (matches_all filters) (model_courses m)))
  /\ forall x f,
      In x courses -> In f filters ->
      dict_get (crs_features x) (filter_name f) = Some (filter_value f).
Proof.
  intros Hrun. apply recommend_Ok_inv in Hrun.
  destruct Hrun as (m' & filtered & Hm & _ & Hf & Hrank & _).
  cbn in Hm. inversion Hm; subst m'.
  apply filter_courses_spec in Hf. subst filtered.
  split.
  - apply (rank_courses_ids _ _ Hrank).
  - intros x f Hx Hfin. apply rank_courses_Ok_inv in Hrank.
    destruct Hrank as (m' & np & xs & _ & _ & Hxs & ->).
    apply (Permutation_in _ (sorted_by_score_perm xs)) in Hx.
    destruct (@score_courses_In m' np _ xs x Hxs Hx) as (c & Hc & Hsc).
    apply score_course_id in Hsc. destruct Hsc as (_ & _ & ->).
    apply filter_In in Hc. destruct Hc as (_ & Hmatch).
    unfold matches_all in Hmatch. rewrite forallb_forall in Hmatch.
    specialize (Hmatch f Hfin). unfold matches in Hmatch.
    destruct (dict_get (features c) (filter_name f)) as [v |];
      [| discriminate Hmatch].
    apply String.eqb_eq in Hmatch. subst v. reflexivity.
Qed.

Lemma split_nothing_remaining :
  __decision_tree_split__ [Scenario.ranked_A; Scenario.ranked_B] []
  = Ok (-1)%Z.
Proof.
  pose proof ln_101_pos as Hpos. pose proof LAMBDA_gt_10 as Hbig.
  unfold __decision_tree_split__. evaluate. reflexivity.
Qed.

Lemma recommend_prefer_X_free :
  recommend (Some Scenario.only_free) Scenario.prefer_X
  = (Ok ([Scenario.price_free], [],
         [Scenario.ranked_A; Scenario.ranked_B], (-1)%Z),
     {| self_model := Some Scenario.xy_model;
        preferences := scale 1 (preferences Scenario.prefer_X) |}).
Proof.
  change Scenario.prefer_X
    with {| self_model := Some Scenario.xy_model;
            preferences := preferences Scenario.prefer_X |} at 1.
  rewrite (@recommend_run Scenario.xy_model _ (Some Scenario.only_free)
             [Scenario.price_free] [] [Scenario.A; Scenario.B] (-1)%Z
             well_formed_prefer_X sims_fit_xy eq_refl eq_refl).
  - rewrite normalizer_prefer_X. cbn [map].
    change (meta_categories Scenario.xy_model) with ["X"; "Y"]%string.
    rewrite scored_A, scored_B, sorted_A_B. reflexivity.
  - rewrite normalizer_prefer_X. cbn [map].
    change (meta_categories Scenario.xy_model) with ["X"; "Y"]%string.
    rewrite scored_A, scored_B, sorted_A_B. exact split_nothing_remaining.
Qed.

(** X16 for the active filter [{'price': 'free'}]. *)
Lemma X16_witness_price_free :
  Permutation
    (map crs_course_id [Scenario.ranked_A; Scenario.ranked_B])
    (map course_id
         (List.filter (matches_all [Scenario.price_free])
            (model_courses Scenario.xy_model)))
  /\ forall x f,
      In x [Scenario.ranked_A; Scenario.ranked_B] ->
      In f [Scenario.price_free] ->
      dict_get (crs_features x) (filter_name f) = Some (filter_value f).
Proof.
  eapply (@X16_returned_courses_match_the_filters Scenario.xy_model
            (preferences Scenario.prefer_X) (Some Scenario.only_free)).
  exact recommend_prefer_X_free.
Defined.

(* ================================================================== *)
(** * Properties of [train]: the attribute schema                      *)
(* ================================================================== *)

Lemma values_of_In (features : list feature) (key : string) :
  In key (map feature_name features) ->
  exists vs, values_of features key = Ok vs.
Proof.
  induction features as [| f rest IH]; cbn; intros Hin; [contradiction |].
  destruct (String.eqb_spec (feature_name f) key) as [Heq | Hne].
  - eexists. reflexivity.
  - apply IH. destruct Hin as [Heq | Hin]; [contradiction | exact Hin].
Qed.

Lemma values_of_not_In (features : list feature) (key : string) :
  ~ In key (map feature_name features) ->
  values_of features key = Raise ValueError.
Proof.
  induction features as [| f rest IH]; cbn; intros Hnotin; [reflexivity |].
  destruct (String.eqb_spec (feature_name f) key) as [Heq | Hne].
  - exfalso. apply Hnotin. left. exact Heq.
  - apply IH. intros Hin. apply Hnotin. right. exact Hin.
Qed.

Lemma values_of_feature (features : list feature) (key : string)
    (vs : list string) :
  values_of features key = Ok vs ->
  exists f, In f features /\ feature_name f = key /\ feature_values f = vs.
Proof.
  induction features as [| f rest IH]; cbn; [discriminate |].
  destruct (String.eqb_spec (feature_name f) key) as [Heq | Hne]; intros H.
  - inversion H. exists f. repeat split; [left; reflexivity | exact Heq].
  - destruct (IH H) as (g & Hg & Hrest). exists g. split; [right |]; assumption.
Qed.

Lemma schema_values_new (features : list feature) (key : string)
    (vs : list string) (k : string) :
  ~ In key (map feature_name features) ->
  schema_values (features ++ [{| feature_name := key; feature_values := vs |}])
    k
  = if String.eqb k key then vs else schema_values features k.
Proof.
  unfold schema_values. induction features as [| f rest IH]; cbn;
    intros Hnotin.
  - rewrite String.eqb_sym. destruct (String.eqb k key); reflexivity.
  - destruct (String.eqb_spec (feature_name f) k) as [Heq | Hne].
    + destruct (String.eqb_spec k key) as [Hk | _]; [| reflexivity].
      exfalso. apply Hnotin. left. congruence.
    + apply IH. intros Hin. apply Hnotin. right. exact Hin.
Qed.

Lemma append_value_spec (features : list feature) (key val : string) :
  In key (map feature_name features) ->
  exists features',
    append_value features key val = Ok features'
    /\ map feature_name features' = map feature_name features
    /\ forall k,
        schema_values features' k
        = if String.eqb k key then schema_values features key ++ [val]
          else schema_values features k.
Proof.
  unfold schema_values.
  induction features as [| f rest IH]; cbn; intros Hin; [contradiction |].
  destruct (String.eqb_spec (feature_name f) key) as [Heq | Hne].
  - eexists. split; [reflexivity |]. split; [reflexivity |].
    intros k. cbn. rewrite Heq.
    destruct (String.eqb_spec key k) as [-> | Hk].
    + rewrite String.eqb_refl. reflexivity.
    + rewrite (proj2 (String.eqb_neq k key)) by congruence. reflexivity.
  - destruct IH as (rest' & Hrest & Hnames & Hvals).
    { destruct Hin as [Heq | Hin]; [contradiction | exact Hin]. }
    rewrite Hrest. cbn [bind Monad_result].
    eexists. split; [reflexivity |]. split; [cbn; rewrite Hnames; reflexivity |].
    intros k. cbn.
    destruct (String.eqb_spec (feature_name f) k) as [Heq | Hk].
    + rewrite (proj2 (String.eqb_neq k key)) by congruence. reflexivity.
    + apply Hvals.
Qed.

Lemma append_values_spec (key : string) (vals : list string) :
  forall features,
    In key (map feature_name features) ->
    exists features',
      append_values features key vals = Ok features'
      /\ map feature_name features' = map feature_name features
      /\ forall k,
          schema_values features' k
          = if String.eqb k key then schema_values features key ++ vals
            else schema_values features k.
Proof.
  induction vals as [| val rest IH]; intros features Hin.
  - exists features. split; [reflexivity |]. split; [reflexivity |].
    intros k. destruct (String.eqb_spec k key) as [-> | _];
      [rewrite app_nil_r |]; reflexivity.
  - cbn [append_values].
    destruct (append_value_spec features key val Hin)
      as (f1 & H1 & Hn1 & Hv1).
    rewrite H1. cbn [bind Monad_result].
    destruct (IH f1) as (f2 & H2 & Hn2 & Hv2); [rewrite Hn1; exact Hin |].
    exists f2. split; [exact H2 |]. split; [congruence |].
    intros k. rewrite Hv2, !Hv1. rewrite String.eqb_refl.
    destruct (String.eqb k key); [| reflexivity].
    rewrite <- app_assoc. reflexivity.
Qed.

(** One attribute of one course: the outcome of the loop body. *)
Lemma add_attribute_spec (features : list feature) (key : string)
    (value : attribute_value) :
  let base := if str_in key (map feature_name features)
              then schema_values features key else ["All"%string] in
  let added := match value with
               | Scalar v => if str_in v base then [] else [v]
               | Multiple vs => vs
               end in
  exists features',
    add_attribute features key value = Ok features'
    /\ map feature_name features'
       = (if str_in key (map feature_name features)
          then map feature_name features
          else map feature_name features ++ [key])
    /\ forall k,
        schema_values features' k
        = if String.eqb k key then base ++ added
          else schema_values features k.
Proof.
  intros base added. unfold add_attribute.
  set (features1 :=
         if negb (str_in key (map feature_name features))
         then features ++ [{| feature_name := key;
                              feature_values := ["All"%string] |}]
         else features).
  assert (Hnames1 : map feature_name features1
                    = if str_in key (map feature_name features)
                      then map feature_name features
                      else map feature_name features ++ [key]).
  { unfold features1. destruct (str_in key (map feature_name features));
      cbn [negb]; [reflexivity |]. rewrite map_app. reflexivity. }
  assert (Hin1 : In key (map feature_name features1)).
  { rewrite Hnames1.
    destruct (str_in key (map feature_name features)) eqn:E.
    - apply str_in_In. exact E.
    - apply in_or_app. right. left. reflexivity. }
  assert (Hvals1 : forall k,
             schema_values features1 k
             = if String.eqb k key then base else schema_values features k).
  { intros k. unfold features1, base.
    destruct (str_in key (map feature_name features)) eqn:E; cbn [negb].
    - destruct (String.eqb_spec k key) as [-> | _]; reflexivity.
    - apply schema_values_new. intros Hin. apply str_in_In in Hin. congruence. }
  destruct (values_of_In features1 key Hin1) as (vs & Hvs).
  assert (Hbase : vs = base).
  { pose proof (Hvals1 key) as H. unfold schema_values in H.
    rewrite Hvs, String.eqb_refl in H. exact H. }
  rewrite Hvs. cbn [bind Monad_result]. subst vs.
  destruct value as [v | vs]; cbn [value_in negb].
  - unfold added. destruct (str_in v base) eqn:Ev; cbn [negb].
    + exists features1. split; [reflexivity |]. split; [exact Hnames1 |].
      intros k. rewrite Hvals1. rewrite app_nil_r. reflexivity.
    + destruct (append_value_spec features1 key v Hin1)
        as (f2 & H2 & Hn2 & Hv2).
      exists f2. split; [exact H2 |]. split; [congruence |].
      intros k. rewrite Hv2, !Hvals1. rewrite String.eqb_refl.
      destruct (String.eqb k key); reflexivity.
  - destruct (append_values_spec key vs features1 Hin1)
      as (f2 & H2 & Hn2 & Hv2).
    exists f2. split; [exact H2 |]. split; [congruence |].
    intros k. rewrite Hv2, !Hvals1. rewrite String.eqb_refl.
    destruct (String.eqb k key); reflexivity.
Qed.

Lemma schema_values_not_In (features : list feature) (key : string) :
  ~ In key (map feature_name features) -> schema_values features key = [].
Proof.
  intros Hnotin. unfold schema_values.
  rewrite values_of_not_In by exact Hnotin. reflexivity.
Qed.

Lemma schema_of_nil : schema_of [] [].
Proof.
  split; [constructor |]. split; [| split].
  - intros k. cbn. split; [contradiction | intros (? & [])].
  - intros k [].
  - intros k v. cbn. split; [contradiction |].
    intros [([] & _) | (? & [] & _)].
Qed.

Lemma add_attribute_schema (items : list (string * attribute_value))
    (features : list feature) (key : string) (value : attribute_value) :
  schema_of items features ->
  exists features',
    add_attribute features key value = Ok features'
    /\ schema_of (items ++ [(key, value)]) features'
    /\ (scalar_items (items ++ [(key, value)]) ->
        (forall k, NoDup (schema_values features k)) ->
        forall k, NoDup (schema_values features' k)).
Proof.
  intros (Hnd & Hnames & Hall & Hvals).
  destruct (add_attribute_spec features key value)
    as (features' & Hrun & Hn' & Hv').
  exists features'. split; [exact Hrun |].
  assert (Hkey : In key (map feature_name features')).
  { rewrite Hn'. destruct (str_in key (map feature_name features)) eqn:E.
    - apply str_in_In. exact E.
    - apply in_or_app. right. left. reflexivity. }
  assert (Hold : forall k, In k (map feature_name features) ->
                           In k (map feature_name features')).
  { intros k Hk. rewrite Hn'.
    destruct (str_in key (map feature_name features)); [exact Hk |].
    apply in_or_app. left. exact Hk. }
  assert (Hnew : forall k, In k (map feature_name features') ->
                           In k (map feature_name features) \/ k = key).
  { intros k Hk. rewrite Hn' in Hk.
    destruct (str_in key (map feature_name features)); [left; exact Hk |].
    apply in_app_or in Hk. destruct Hk as [Hk | [<- | []]];
      [left; exact Hk | right; reflexivity]. }
  set (base := if str_in key (map feature_name features)
               then schema_values features key else ["All"%string]) in *.
  assert (Hbase : exists rest, base = "All"%string :: rest).
  { unfold base. destruct (str_in key (map feature_name features)) eqn:E.
    - apply Hall. apply str_in_In. exact E.
    - exists []. reflexivity. }
  assert (Hbase_in : forall v,
             In v base
             <-> v = "All"%string
                 \/ exists value0, In (key, value0) items /\ provides value0 v).
  { intros v. unfold base.
    destruct (str_in key (map feature_name features)) eqn:E.
    - apply str_in_In in E. rewrite Hvals. split.
      + intros [(_ & ->) | Hex]; [left; reflexivity | right; exact Hex].
      + intros [-> | Hex]; [left; split; [exact E | reflexivity]
                           | right; exact Hex].
    - assert (Hnone : ~ In key (map feature_name features)).
      { intros Hin. apply str_in_In in Hin. congruence. }
      split.
      + intros [<- | []]. left. reflexivity.
      + intros [-> | (value0 & Hin & _)]; [left; reflexivity |].
        exfalso. apply Hnone. apply Hnames. exists value0. exact Hin. }
  set (added := match value with
                | Scalar v => if str_in v base then [] else [v]
                | Multiple vs => vs
                end) in *.
  assert (Hadded : forall v, In v (base ++ added)
                             <-> In v base \/ provides value v).
  { intros v. rewrite in_app_iff. unfold added.
    destruct value as [w | vs]; cbn [provides]; [| tauto].
    destruct (str_in w base) eqn:Ew.
    - apply str_in_In in Ew. split.
      + intros [H | []]. left. exact H.
      + intros [H | <-]; left; assumption.
    - split.
      + intros [H | [<- | []]]; [left; exact H | right; reflexivity].
      + intros [H | <-]; [left; exact H | right; left; reflexivity]. }
  split; [split; [| split; [| split]] |].
  - rewrite Hn'. destruct (str_in key (map feature_name features)) eqn:E;
      [exact Hnd |].
    apply NoDup_app; [exact Hnd | repeat constructor; intros [] |].
    intros k Hk [<- | []]. apply str_in_In in Hk. congruence.
  - intros k. split.
    + intros Hk. destruct (Hnew k Hk) as [Hk' | ->].
      * apply Hnames in Hk'. destruct Hk' as (value0 & Hin).
        exists value0. apply in_or_app. left. exact Hin.
      * exists value. apply in_or_app. right. left. reflexivity.
    + intros (value0 & Hin). apply in_app_or in Hin.
      destruct Hin as [Hin | [Heq | []]].
      * apply Hold. apply Hnames. exists value0. exact Hin.
      * inversion Heq; subst. exact Hkey.
  - intros k Hk. rewrite Hv'.
    destruct (String.eqb_spec k key) as [-> | Hne].
    + destruct Hbase as (rest & ->). eexists. reflexivity.
    + apply Hall. destruct (Hnew k Hk) as [Hk' | ->];
        [exact Hk' | contradiction].
  - intros k v. rewrite Hv'.
    destruct (String.eqb_spec k key) as [-> | Hne].
    + rewrite Hadded, Hbase_in. split.
      * intros [[-> | (value0 & Hin & Hp)] | Hp].
        -- left. split; [exact Hkey | reflexivity].
        -- right. exists value0. split; [| exact Hp].
           apply in_or_app. left. exact Hin.
        -- right. exists value. split; [| exact Hp].
           apply in_or_app. right. left. reflexivity.
      * intros [(_ & ->) | (value0 & Hin & Hp)]; [left; left; reflexivity |].
        apply in_app_or in Hin. destruct Hin as [Hin | [Heq | []]].
        -- left. right. exists value0. split; assumption.
        -- inversion Heq; subst. right. exact Hp.
    + rewrite Hvals. split.
      * intros [(Hk & ->) | (value0 & Hin & Hp)].
        -- left. split; [apply Hold; exact Hk | reflexivity].
        -- right. exists value0. split; [| exact Hp].
           apply in_or_app. left. exact Hin.
      * intros [(Hk & ->) | (value0 & Hin & Hp)].
        -- left. split; [| reflexivity].
           destruct (Hnew k Hk) as [Hk' | ->]; [exact Hk' | contradiction].
        -- right. exists value0. split; [| exact Hp].
           apply in_app_or in Hin. destruct Hin as [Hin | [Heq | []]];
             [exact Hin |]. inversion Heq; subst. contradiction.
  - intros Hscalar Hnodup k. rewrite Hv'.
    destruct (String.eqb_spec k key) as [-> | Hne]; [| apply Hnodup].
    assert (Hbase_nd : NoDup base).
    { unfold base. destruct (str_in key (map feature_name features));
        [apply Hnodup | repeat constructor; intros []]. }
    destruct (Hscalar key value) as (w & ->).
    { apply in_or_app. right. left. reflexivity. }
    unfold added. destruct (str_in w base) eqn:Ew.
    + rewrite app_nil_r. exact Hbase_nd.
    + apply NoDup_app; [exact Hbase_nd | repeat constructor; intros [] |].
      intros v Hv [<- | []]. apply str_in_In in Hv. congruence.
Qed.

Lemma add_attributes_schema (more : list (string * attribute_value)) :
  forall items features,
    schema_of items features ->
    exists features',
      add_attributes features more = Ok features'
      /\ schema_of (items ++ more) features'
      /\ (scalar_items (items ++ more) ->
          (forall k, NoDup (schema_values features k)) ->
          forall k, NoDup (schema_values features' k)).
Proof.
  induction more as [| [key value] more IH]; intros items features Hs.
  - exists features. rewrite app_nil_r.
    split; [reflexivity |]. split; [exact Hs |]. intros _ H. exact H.
  - cbn [add_attributes].
    destruct (add_attribute_schema key value Hs) as (f1 & H1 & Hs1 & Hnd1).
    rewrite H1. cbn [bind Monad_result].
    destruct (IH _ _ Hs1) as (f2 & H2 & Hs2 & Hnd2).
    replace (items ++ (key, value) :: more)
      with ((items ++ [(key, value)]) ++ more)
      by (rewrite <- app_assoc; reflexivity).
    exists f2. split; [exact H2 |]. split; [exact Hs2 |].
    intros Hscalar Hnodup. apply Hnd2; [exact Hscalar |].
    apply Hnd1; [| exact Hnodup].
    intros k v Hin. apply (Hscalar k v).
    apply in_or_app. left. exact Hin.
Qed.

Lemma extract_features_add_attributes (course_data : list catalogue_course) :
  forall features,
    extract_features course_data features
    = add_attributes features (all_items course_data).
Proof.
  assert (Happ : forall l1 l2 features,
             add_attributes features (l1 ++ l2)
             = (features' <- add_attributes features l1 ;;
                add_attributes features' l2)).
  { induction l1 as [| [k v] l1 IH]; intros l2 features.
    - reflexivity.
    - cbn [app add_attributes].
      destruct (add_attribute features k v); cbn [bind Monad_result];
        [apply IH | reflexivity]. }
  induction course_data as [| c rest IH]; intros features.
  - reflexivity.
  - cbn [extract_features]. unfold all_items. cbn [map List.concat].
    fold (all_items rest). rewrite Happ.
    destruct (cc_attributes c) as [attributes |].
    + destruct (add_attributes features attributes);
        cbn [bind Monad_result]; [apply IH | reflexivity].
    + cbn [add_attributes bind Monad_result]. apply IH.
Qed.

Lemma all_items_occurs (course_data : list catalogue_course) (key : string)
    (value : attribute_value) :
  In (key, value) (all_items course_data) <-> occurs course_data key value.
Proof.
  unfold all_items, occurs. rewrite in_concat. split.
  - intros (l & Hl & Hin). apply in_map_iff in Hl.
    destruct Hl as (c & <- & Hc).
    destruct (cc_attributes c) as [attributes |] eqn:E; [| contradiction].
    exists c, attributes. repeat split; assumption.
  - intros (c & attributes & Hc & Hattr & Hin).
    exists attributes. split; [| exact Hin].
    apply in_map_iff. exists c. rewrite Hattr. split; [reflexivity | exact Hc].
Qed.

Lemma extract_features_schema (course_data : list catalogue_course) :
  exists features,
    extract_features course_data [] = Ok features
    /\ schema_of (all_items course_data) features
    /\ (scalar_items (all_items course_data) ->
        forall k, NoDup (schema_values features k)).
Proof.
  rewrite extract_features_add_attributes.
  destruct (add_attributes_schema (all_items course_data) schema_of_nil)
    as (features & Hrun & Hs & Hnd).
  exists features. split; [exact Hrun |]. split; [exact Hs |].
  intros Hscalar. apply Hnd; [exact Hscalar |].
  intros k. cbn. constructor.
Qed.

Lemma schema_values_feature (features : list feature) (f : feature) :
  NoDup (map feature_name features) ->
  In f features ->
  schema_values features (feature_name f) = feature_values f.
Proof.
  unfold schema_values.
  induction features as [| g rest IH]; cbn; intros Hnd Hin; [contradiction |].
  inversion Hnd as [| ? ? Hnotin Hnd']; subst.
  destruct Hin as [-> | Hin].
  - rewrite String.eqb_refl. reflexivity.
  - destruct (String.eqb_spec (feature_name g) (feature_name f)) as [Heq | _].
    + exfalso. apply Hnotin. rewrite Heq. apply in_map. exact Hin.
    + apply IH; assumption.
Qed.

(** X17.  The construction of the schema never raises.  The attribute
    names of the schema are distinct and are exactly the keys that occur
    among the attributes of the courses, and every attribute of the schema
    has ['All'] as its first value. *)
Theorem X17_schema_has_the_attributes_of_the_catalogue
    (course_data : list catalogue_course) :
  exists features,
    extract_features course_data [] = Ok features
    /\ NoDup (map feature_name features)
    /\ (forall k, In k (map feature_name features)
                  <-> exists value, occurs course_data k value)
    /\ (forall f, In f features ->
                  exists rest, feature_values f = "All"%string :: rest).
Proof.
  destruct (extract_features_schema course_data)
    as (features & Hrun & (Hnd & Hnames & Hall & _) & _).
  exists features. split; [exact Hrun |]. split; [exact Hnd |]. split.
  - intros k. rewrite Hnames. split; intros (value & H); exists value;
      apply all_items_occurs; exact H.
  - intros f Hf. rewrite <- (@schema_values_feature features f Hnd Hf).
    apply Hall. apply in_map. exact Hf.
Qed.

(** X18.  The schema offers for an attribute exactly ['All'] and the
    strings that the courses provide for it: every scalar value of a
    course and every element of a list value is offered, and every offered
    value other than ['All'] comes from a course. *)
Theorem X18_schema_offers_the_values_of_the_catalogue
    (course_data : list catalogue_course) :
  exists features,
    extract_features course_data [] = Ok features
    /\ forall k v,
        In v (schema_values features k)
        <-> ((exists value, occurs course_data k value) /\ v = "All"%string)
            \/ exists value, occurs course_data k value /\ provides value v.
Proof.
  destruct (extract_features_schema course_data)
    as (features & Hrun & (_ & Hnames & _ & Hvals) & _).
  exists features. split; [exact Hrun |].
  intros k v. rewrite Hvals, Hnames. split.
  - intros [((value & Hin) & ->) | (value & Hin & Hp)].
    + left. split; [| reflexivity]. exists value.
      apply all_items_occurs. exact Hin.
    + right. exists value. split; [apply all_items_occurs |]; assumption.
  - intros [((value & Hin) & ->) | (value & Hin & Hp)].
    + left. split; [| reflexivity]. exists value.
      apply all_items_occurs. exact Hin.
    + right. exists value. split; [apply all_items_occurs |]; assumption.
Qed.

(** X19.  When every attribute value of the catalogue is a scalar, no
    attribute of the schema offers a value twice. *)
Theorem X19_scalar_catalogue_offers_no_value_twice
    (course_data : list catalogue_course) :
  scalar_catalogue course_data ->
  exists features,
    extract_features course_data [] = Ok features
    /\ forall f, In f features -> NoDup (feature_values f).
Proof.
  intros Hscalar.
  destruct (extract_features_schema course_data)
    as (features & Hrun & (Hnd & _) & Hnodup).
  exists features. split; [exact Hrun |].
  intros f Hf. rewrite <- (@schema_values_feature features f Hnd Hf).
  apply Hnodup. intros k value Hin. apply (Hscalar k value).
  apply all_items_occurs. exact Hin.
Qed.

(** The schema of the catalogue of [testit.py]. *)
Lemma extract_features_testit :
  extract_features Testit.course_data []
  = Ok [{| feature_name := "duration";
           feature_values := ["All"; "4 weeks"; "2 months"] |};
        {| feature_name := "badges";
           feature_values := ["All"; "yes"; "no"] |};
        {| feature_name := "certificate";
           feature_values := ["All"; "A"; "C"] |};
        {| feature_name := "price";
           feature_values := ["All"; "free"; "100 EUR"; "50 EUR"] |};
        {| feature_name := "type";
           feature_values := ["All"; "mooc_course"; "blended_course"] |}]%string.
Proof. vm_compute. reflexivity. Qed.

Lemma scalar_catalogue_testit : scalar_catalogue Testit.course_data.
Proof.
  intros key value (c & attributes & Hc & Hattr & Hin).
  destruct Hc as [<- | [<- | [<- | [<- | []]]]];
    cbn in Hattr; inversion Hattr; subst attributes;
    repeat (destruct Hin as [Heq | Hin];
            [inversion Heq; eexists; reflexivity |]);
    destruct Hin.
Qed.

Lemma X19_witness_testit :
  exists features,
    extract_features Testit.course_data [] = Ok features
    /\ forall f, In f features -> NoDup (feature_values f).
Proof.
  apply X19_scalar_catalogue_offers_no_value_twice.
  exact scalar_catalogue_testit.
Defined.

(* ================================================================== *)
(** * Properties of [train]: the enrolment counts                      *)
(* ================================================================== *)

Lemma counter_get_set (counts : counter) (id n id' : Z) :
  counter_get (counter_set counts id n) id'
  = if Z.eqb id id' then n else counter_get counts id'.
Proof.
  induction counts as [| [i m] rest IH]; cbn.
  - reflexivity.
  - destruct (Z.eqb_spec i id) as [-> | Hne]; cbn.
    + destruct (Z.eqb id id'); reflexivity.
    + rewrite IH. destruct (Z.eqb_spec i id') as [-> | _]; [| reflexivity].
      rewrite (proj2 (Z.eqb_neq id id')) by congruence. reflexivity.
Qed.

Lemma counter_get_not_in (counts : counter) (id : Z) :
  counter_in id counts = false -> counter_get counts id = 0%Z.
Proof.
  unfold counter_in. induction counts as [| [i m] rest IH]; cbn.
  - reflexivity.
  - destruct (Z.eqb i id); cbn; [discriminate | exact IH].
Qed.

Lemma count_enrolments_get (ids : list Z) (id : Z) :
  forall counts,
    counter_get (count_enrolments ids counts) id
    = (counter_get counts id + Z.of_nat (count_occ Z.eq_dec ids id))%Z.
Proof.
  induction ids as [| i rest IH]; intros counts.
  - cbn. lia.
  - cbn [count_enrolments count_occ]. rewrite IH, counter_get_set.
    destruct (Z.eq_dec i id) as [-> | Hne].
    + rewrite Z.eqb_refl. cbn [count_occ]. lia.
    + rewrite (proj2 (Z.eqb_neq i id) Hne). lia.
Qed.

Lemma histogram_get (data : list (list Z)) (id : Z) :
  forall counts,
    counter_get (histogram data counts) id
    = (counter_get counts id
       + Z.of_nat (count_occ Z.eq_dec (List.concat data) id))%Z.
Proof.
  induction data as [| ids rest IH]; intros counts.
  - cbn. lia.
  - cbn [histogram List.concat]. rewrite IH, count_enrolments_get.
    rewrite count_occ_app. lia.
Qed.

(** X20.  The count of a course is the number of enrolments, over all
    entries of the enrolment data, that carry its course id (so it is
    never negative, and enrolments in courses outside the catalogue change
    nothing); without enrolment data every count is 0. *)
Theorem X20_count_is_the_number_of_enrolments
    (course_data : list catalogue_course) :
  (forall enrollment_data,
      course_counts course_data (Some enrollment_data)
      = map (fun c => Z.of_nat (count_occ Z.eq_dec
                                  (List.concat enrollment_data)
                                  (cc_course_id c)))
            course_data)
  /\ Forall (fun n => n = 0%Z) (course_counts course_data None).
Proof.
  split.
  - intros data. unfold course_counts. apply map_ext. intros c.
    destruct (counter_in (cc_course_id c) (histogram data [])) eqn:E.
    + rewrite histogram_get. cbn. reflexivity.
    + apply counter_get_not_in in E. rewrite histogram_get in E.
      cbn in E. lia.
  - unfold course_counts. apply Forall_forall. intros n Hn.
    apply in_map_iff in Hn. destruct Hn as (c & <- & _). reflexivity.
Qed.

(* ================================================================== *)
(** * Properties of [train]: the rescaled similarities                 *)
(* ================================================================== *)

Section RescaleRange.
Import Np.

Lemma rescale_nondegenerate (rows : list (list R)) :
  (exists x y, In x (List.concat rows) /\ In y (List.concat rows) /\ x <> y) ->
  exists lo hi,
    (lo < hi)%R
    /\ (forall x, In x (List.concat rows) -> (lo <= x <= hi)%R)
    /\ In lo (List.concat rows)
    /\ In hi (List.concat rows)
    /\ Train.rescale (finite rows)
       = Ok (finite (map (map (fun x => (x - lo) / (hi - lo))%R) rows)).
Proof.
  intros (x & y & Hx & Hy & Hne).
  destruct (rescale_finite rows) as (lo & hi & Hall & Hlo & Hhi & Hrun).
  { intros He. rewrite He in Hx. contradiction. }
  exists lo, hi.
  assert (Hlt : (lo < hi)%R).
  { pose proof (Hall x Hx) as Hbx. pose proof (Hall y Hy) as Hby.
    destruct (Rlt_dec lo hi) as [Hlh | Hlh]; [exact Hlh |].
    exfalso. apply Hne. lra. }
  split; [exact Hlt |]. split; [exact Hall |].
  split; [exact Hlo |]. split; [exact Hhi |].
  rewrite Hrun. rewrite (proj2 (Reqb_false hi lo)) by lra.
  apply f_equal. unfold finite. rewrite map_map. apply map_ext.
  intros row. rewrite map_map. reflexivity.
Qed.

(** X21.  A channel of finite numbers that are not all equal is rescaled
    onto [0, 1] by one increasing map: every rescaled entry lies in [0, 1],
    an entry that was the minimum becomes 0 and one that was the maximum
    becomes 1, and the order of any two entries is kept. *)
Theorem X21_rescaled_channel_fills_the_unit_interval
    (rows : list (list R)) :
  (exists x y, In x (List.concat rows) /\ In y (List.concat rows) /\ x <> y) ->
  exists g : R -> R,
    Train.rescale (finite rows) = Ok (finite (map (map g) rows))
    /\ (forall x, In x (List.concat rows) -> (0 <= g x <= 1)%R)
    /\ (exists x, In x (List.concat rows) /\ g x = 0%R)
    /\ (exists x, In x (List.concat rows) /\ g x = 1%R)
    /\ (forall x y, (x <= y)%R -> (g x <= g y)%R)
    /\ (forall x y, (x < y)%R -> (g x < g y)%R).
Proof.
  intros Hne.
  destruct (rescale_nondegenerate rows Hne)
    as (lo & hi & Hlt & Hall & Hlo & Hhi & Hrun).
  exists (fun x => (x - lo) / (hi - lo))%R.
  assert (Hpos : (0 < / (hi - lo))%R) by (apply Rinv_0_lt_compat; lra).
  split; [exact Hrun |]. unfold Rdiv. split; [| split; [| split; [| split]]].
  - intros x Hx. specialize (Hall x Hx). split.
    + apply Rmult_le_pos; lra.
    + rewrite <- (Rinv_r (hi - lo)) by lra.
      apply Rmult_le_compat_r; lra.
  - exists lo. split; [exact Hlo |]. rewrite Rminus_diag. apply Rmult_0_l.
  - exists hi. split; [exact Hhi |]. apply Rinv_r. lra.
  - intros x y Hxy. apply Rmult_le_compat_r; lra.
  - intros x y Hxy. apply Rmult_lt_compat_r; lra.
Qed.

Lemma X21_witness_1_3_2 :
  exists g : R -> R,
    Train.rescale (finite [[1; 3]; [2; 2]]%R)
    = Ok (finite (map (map g) [[1; 3]; [2; 2]]%R))
    /\ (forall x, In x (List.concat [[1; 3]; [2; 2]]%R) -> (0 <= g x <= 1)%R)
    /\ (exists x, In x (List.concat [[1; 3]; [2; 2]]%R) /\ g x = 0%R)
    /\ (exists x, In x (List.concat [[1; 3]; [2; 2]]%R) /\ g x = 1%R)
    /\ (forall x y, (x <= y)%R -> (g x <= g y)%R)
    /\ (forall x y, (x < y)%R -> (g x < g y)%R).
Proof.
  apply X21_rescaled_channel_fills_the_unit_interval.
  exists 1%R, 3%R. cbn. split; [tauto |]. split; [tauto | lra].
Defined.

Lemma extremes_unique (l : list R) (lo1 hi1 lo2 hi2 : R) :
  (forall x, In x l -> (lo1 <= x <= hi1)%R) -> In lo1 l -> In hi1 l ->
  (forall x, In x l -> (lo2 <= x <= hi2)%R) -> In lo2 l -> In hi2 l ->
  lo1 = lo2 /\ hi1 = hi2.
Proof.
  intros H1 Hl1 Hh1 H2 Hl2 Hh2.
  pose proof (H1 lo2 Hl2). pose proof (H1 hi2 Hh2).
  pose proof (H2 lo1 Hl1). pose proof (H2 hi1 Hh1). split; lra.
Qed.

Lemma concat_map_map {A B} (f : A -> B) (rows : list (list A)) :
  List.concat (map (map f) rows) = map f (List.concat rows).
Proof.
  induction rows as [| r rows IH]; cbn.
  - reflexivity.
  - rewrite map_app, IH. reflexivity.
Qed.

(** X22.  The rescaling does not depend on the scale or the offset of
    the raw similarities: a channel of finite numbers and the channel with
    every entry [x] replaced by [a * x + b], for a factor [a > 0], are
    rescaled to the same array. *)
Theorem X22_rescaling_is_invariant_under_scale_and_offset
    (rows : list (list R)) (a b : R) :
  (0 < a)%R ->
  Train.rescale (finite (map (map (fun x => a * x + b)%R) rows))
  = Train.rescale (finite rows).
Proof.
  intros Ha. set (f := (fun x => a * x + b)%R).
  destruct (List.concat rows) as [| x0 l0] eqn:Hc.
  - rewrite !rescale_empty; [reflexivity | |].
    + rewrite flatten_finite, Hc. reflexivity.
    + rewrite flatten_finite, concat_map_map, Hc. reflexivity.
  - destruct (rescale_finite rows) as (lo & hi & Hall & Hlo & Hhi & Hrun).
    { rewrite Hc. discriminate. }
    destruct (rescale_finite (map (map f) rows))
      as (lo' & hi' & Hall' & Hlo' & Hhi' & Hrun').
    { rewrite concat_map_map, Hc. discriminate. }
    rewrite concat_map_map in Hall', Hlo', Hhi'.
    destruct (@extremes_unique (map f (List.concat rows))
                lo' hi' (f lo) (f hi)) as (-> & ->);
      [exact Hall' | exact Hlo' | exact Hhi' | | apply in_map; exact Hlo
       | apply in_map; exact Hhi |].
    { intros y Hy. apply in_map_iff in Hy. destruct Hy as (x & <- & Hx).
      specialize (Hall x Hx). unfold f. split; nra. }
    rewrite Hrun, Hrun'. apply f_equal. rewrite map_map. apply map_ext.
    intros row. rewrite map_map. apply map_ext. intros x. unfold f.
    destruct (Reqb hi lo) eqn:E.
    + apply Reqb_true in E. subst hi.
      rewrite (proj2 (Reqb_true _ _)) by reflexivity. reflexivity.
    + apply Reqb_false in E.
      rewrite (proj2 (Reqb_false _ _)) by nra.
      f_equal. field. split; [lra |].
      replace (a * hi + b - (a * lo + b))%R with (a * (hi - lo))%R by ring.
      apply Rmult_integral_contrapositive_currified; lra.
Qed.

Lemma X22_witness_doubled :
  Train.rescale (finite (map (map (fun x => 2 * x + 1)%R) [[1; 3]]%R))
  = Train.rescale (finite [[1; 3]]%R).
Proof.
  apply X22_rescaling_is_invariant_under_scale_and_offset. lra.
Defined.

(** X23.  Rescaling a second time changes nothing: the rescaled array of
    a channel of finite numbers that are not all equal is rescaled to
    itself. *)
Theorem X23_rescaling_is_idempotent (rows : list (list R)) :
  (exists x y, In x (List.concat rows) /\ In y (List.concat rows) /\ x <> y) ->
  exists out,
    Train.rescale (finite rows) = Ok out
    /\ Train.rescale out = Ok out.
Proof.
  intros Hne.
  destruct (rescale_nondegenerate rows Hne)
    as (lo & hi & Hlt & Hall & Hlo & Hhi & Hrun).
  set (g := (fun x => (x - lo) / (hi - lo))%R) in *.
  exists (finite (map (map g) rows)). split; [exact Hrun |].
  assert (Hg0 : g lo = 0%R).
  { unfold g, Rdiv. rewrite Rminus_diag. apply Rmult_0_l. }
  assert (Hg1 : g hi = 1%R).
  { unfold g, Rdiv. apply Rinv_r. lra. }
  assert (Hpos : (0 < / (hi - lo))%R) by (apply Rinv_0_lt_compat; lra).
  destruct (rescale_finite (map (map g) rows))
    as (lo' & hi' & Hall' & Hlo' & Hhi' & Hrun').
  { rewrite concat_map_map. intros He.
    apply map_eq_nil in He. rewrite He in Hlo. contradiction. }
  rewrite concat_map_map in Hall', Hlo', Hhi'.
  destruct (@extremes_unique (map g (List.concat rows)) lo' hi' 0%R 1%R)
    as (-> & ->);
    [exact Hall' | exact Hlo' | exact Hhi' | | | |].
  - intros y Hy. apply in_map_iff in Hy. destruct Hy as (x & <- & Hx).
    specialize (Hall x Hx). unfold g, Rdiv. split.
    + apply Rmult_le_pos; lra.
    + rewrite <- (Rinv_r (hi - lo)) by lra. apply Rmult_le_compat_r; lra.
  - rewrite <- Hg0. apply in_map. exact Hlo.
  - rewrite <- Hg1. apply in_map. exact Hhi.
  - rewrite Hrun'. apply f_equal. unfold finite. rewrite !map_map.
    apply map_ext. intros row. rewrite !map_map. apply map_ext. intros x.
    rewrite (proj2 (Reqb_false 1 0)) by lra. f_equal. lra.
Qed.

Lemma X23_witness_1_3 :
  exists out,
    Train.rescale (finite [[1; 3]]%R) = Ok out
    /\ Train.rescale out = Ok out.
Proof.
  apply X23_rescaling_is_idempotent.
  exists 1%R, 3%R. cbn. split; [tauto |]. split; [tauto | lra].
Defined.

End RescaleRange.

(* ================================================================== *)
(** * [TopicRecommender.recommend] and [__rank_courses__]              *)
(* ================================================================== *)

Lemma topic_score_course_of_score_course (m : Model) (np : dict R)
    (c : course) (x : crs) :
  score_course m np c = Ok x ->
  topic_score_course m np c
  = Ok {| topic_course_id := crs_course_id x; topic_name := crs_name x;
          topic_score := crs_sim x |}.
Proof.
  unfold score_course, topic_score_course.
  destruct (negb (known m (course_id c))).
  - intros H. inversion H. reflexivity.
  - destruct (model_entry m (course_id c)) as [entry | e];
      cbn [bind Monad_result]; [| discriminate].
    destruct (accumulate_sim 0 (Sim entry) (values np)) as [s | e];
      cbn [bind Monad_result]; [| discriminate].
    intros H. inversion H. reflexivity.
Qed.

Lemma topic_score_courses_of_score_courses (m : Model) (np : dict R)
    (courses : list course) :
  forall xs,
    score_courses m np courses = Ok xs ->
    topic_score_courses m np courses
    = Ok (map (fun x => {| topic_course_id := crs_course_id x;
                           topic_name := crs_name x;
                           topic_score := crs_sim x |}) xs).
Proof.
  induction courses as [| c rest IH]; intros xs H.
  - cbn in H. inversion H. reflexivity.
  - cbn [score_courses] in H.
    apply bind_Ok_inv in H. destruct H as (x & Hx & H).
    apply bind_Ok_inv in H. destruct H as (xs' & Hxs & H).
    inversion H; subst. cbn [topic_score_courses map].
    rewrite (topic_score_course_of_score_course _ _ _ Hx).
    cbn [bind Monad_result]. rewrite (IH xs' Hxs). reflexivity.
Qed.

Lemma topic_insert_perm (x : topic_crs) (l : list topic_crs) :
  Permutation (topic_insert x l) (x :: l).
Proof.
  induction l as [| y l IH]; cbn.
  - apply Permutation_refl.
  - destruct (Np.Rltb (topic_score x) (topic_score y)).
    + apply perm_trans with (y :: x :: l);
        [apply perm_skip; exact IH | apply perm_swap].
    + apply Permutation_refl.
Qed.

Lemma topic_sorted_perm (l : list topic_crs) : Permutation (topic_sorted l) l.
Proof.
  induction l as [| x l IH]; cbn.
  - apply perm_nil.
  - apply perm_trans with (x :: topic_sorted l);
      [apply topic_insert_perm | apply perm_skip; exact IH].
Qed.

Lemma topic_recommend_of_rank_courses (courses : list course) (h h' : heap)
    (out : list crs) :
  __rank_courses__ courses h = (Ok out, h') ->
  exists m np xs,
    self_model h = Some m
    /\ score_courses m np courses = Ok xs
    /\ out = sorted_by_score xs
    /\ topic_recommend courses h
       = (Ok (topic_sorted
                (map (fun x => {| topic_course_id := crs_course_id x;
                                  topic_name := crs_name x;
                                  topic_score := crs_sim x |}) xs)),
          h').
Proof.
  intros Hrun. pose proof Hrun as Hinv. apply rank_courses_Ok_inv in Hinv.
  destruct Hinv as (m & np & xs & Hm & Hnorm & Hxs & Hout).
  exists m, np, xs. split; [exact Hm |]. split; [exact Hxs |].
  split; [exact Hout |].
  pose proof (keeps_model_normalize_preferences h) as Hkeep.
  unfold topic_recommend, trained_model. cbn [bind Monad_M].
  rewrite Hm. rewrite Hnorm in *. cbn [snd] in Hkeep.
  unfold get_model, lift. cbn [bind Monad_M]. rewrite Hkeep, Hm.
  rewrite (topic_score_courses_of_score_courses _ _ _ Hxs). reflexivity.
Qed.

(** X24.  On the same model, preferences and courses the topic
    recommender returns whenever the ranking of the preference-based
    recommender does, leaves the same dict behind, and gives every course
    as its score the similarity [sim] that the preference-based ranking
    reports for it. *)
Theorem X24_topic_score_is_the_similarity
    (courses : list course) (h h' : heap) (out : list crs) :
  __rank_courses__ courses h = (Ok out, h') ->
  exists topic_out,
    topic_recommend courses h = (Ok topic_out, h')
    /\ Permutation
         (map (fun t => (topic_course_id t, topic_score t)) topic_out)
         (map (fun x => (crs_course_id x, crs_sim x)) out).
Proof.
  intros Hrun. apply topic_recommend_of_rank_courses in Hrun.
  destruct Hrun as (m & np & xs & _ & _ & -> & Htopic).
  eexists. split; [exact Htopic |].
  apply perm_trans with (map (fun x => (crs_course_id x, crs_sim x)) xs).
  - apply perm_trans
      with (map (fun t => (topic_course_id t, topic_score t))
              (map (fun x => {| topic_course_id := crs_course_id x;
                                topic_name := crs_name x;
                                topic_score := crs_sim x |}) xs)).
    + apply Permutation_map. apply topic_sorted_perm.
    + rewrite map_map. apply Permutation_refl.
  - apply Permutation_map. apply Permutation_sym. apply sorted_by_score_perm.
Qed.

Lemma X24_witness_C_A_B :
  exists topic_out,
    topic_recommend [Scenario.C; Scenario.A; Scenario.B] Scenario.prefer_X
    = (Ok topic_out,
       {| self_model := Some Scenario.xy_model;
          preferences := scale 1 (preferences Scenario.prefer_X) |})
    /\ Permutation
         (map (fun t => (topic_course_id t, topic_score t)) topic_out)
         (map (fun x => (crs_course_id x, crs_sim x))
              [Scenario.ranked_A; Scenario.ranked_B; Scenario.unranked_C]).
Proof.
  apply X24_topic_score_is_the_similarity. exact rank_C_A_B.
Defined.

Lemma topic_insert_sorted (x : topic_crs) (l : list topic_crs) :
  StronglySorted topic_ge l -> StronglySorted topic_ge (topic_insert x l).
Proof.
  induction l as [| y l IH]; intros Hs; cbn.
  - constructor; constructor.
  - inversion Hs as [| ? ? Hs' Hall]; subst.
    destruct (Np.Rltb (topic_score x) (topic_score y)) eqn:E.
    + constructor; [apply IH; exact Hs' |].
      apply Forall_forall. intros z Hz.
      apply (Permutation_in _ (topic_insert_perm x l)) in Hz.
      destruct Hz as [<- | Hz].
      * apply Rltb_true in E. unfold topic_ge. lra.
      * rewrite Forall_forall in Hall. apply Hall. exact Hz.
    + apply Rltb_false in E. constructor; [exact Hs |].
      constructor; [exact E |].
      apply Forall_forall. intros z Hz. rewrite Forall_forall in Hall.
      specialize (Hall z Hz). unfold topic_ge in *. lra.
Qed.

Lemma topic_sorted_sorted (l : list topic_crs) :
  StronglySorted topic_ge (topic_sorted l).
Proof.
  induction l as [| x l IH]; cbn.
  - constructor.
  - apply topic_insert_sorted. exact IH.
Qed.

(** The courses behind the topic recommender's result, in its order. *)
Lemma topic_insert_same_course (x : crs) (t : topic_crs) :
  same_course x t ->
  forall l lt,
    Forall2 same_course l lt ->
    exists l',
      Forall2 same_course l' (topic_insert t lt)
      /\ Permutation l' (x :: l).
Proof.
  intros Hxt l lt Hl. induction Hl as [| y u l lt Hyu Hl IH].
  - exists [x]. split; [constructor; [exact Hxt | constructor] |].
    apply Permutation_refl.
  - cbn [topic_insert].
    destruct (Np.Rltb (topic_score t) (topic_score u)).
    + destruct IH as (l' & Hl' & Hperm).
      exists (y :: l'). split; [constructor; assumption |].
      apply perm_trans with (y :: x :: l);
        [apply perm_skip; exact Hperm | apply perm_swap].
    + exists (x :: y :: l). split; [| apply Permutation_refl].
      constructor; [exact Hxt |]. constructor; assumption.
Qed.

Lemma topic_sorted_same_course (xs : list crs) :
  exists l',
    Forall2 same_course l'
      (topic_sorted
         (map (fun x => {| topic_course_id := crs_course_id x;
                           topic_name := crs_name x;
                           topic_score := crs_sim x |}) xs))
    /\ Permutation l' xs.
Proof.
  induction xs as [| x xs (l & Hl & Hperm)].
  - exists []. split; constructor.
  - cbn [map topic_sorted].
    assert (Hx : same_course x
                   {| topic_course_id := crs_course_id x;
                      topic_name := crs_name x; topic_score := crs_sim x |})
      by (split; reflexivity).
    destruct (topic_insert_same_course Hx Hl) as (l' & Hl' & Hperm').
    exists l'. split; [exact Hl' |].
    apply perm_trans with (x :: l); [exact Hperm' |].
    apply perm_skip. exact Hperm.
Qed.

Lemma Forall2_In_l {A B : Type} (P : A -> B -> Prop) (l : list A)
    (l' : list B) (x : A) :
  Forall2 P l l' -> In x l -> exists y, In y l' /\ P x y.
Proof.
  intros H. induction H as [| a b l l' Hab _ IH]; intros Hx.
  - contradiction.
  - destruct Hx as [<- | Hx].
    + exists b. split; [left; reflexivity | exact Hab].
    + destruct (IH Hx) as (y & Hy & Hxy).
      exists y. split; [right; exact Hy | exact Hxy].
Qed.

(** A list in the order of the topic scores is in the order of the
    scores when a larger similarity never gives a smaller score. *)
Lemma sorted_by_similarity (l : list crs) :
  forall lt,
    Forall2 same_course l lt ->
    StronglySorted topic_ge lt ->
    (forall x y, In x l -> In y l ->
                 (crs_sim y <= crs_sim x)%R -> (crs_score y <= crs_score x)%R) ->
    StronglySorted score_ge l.
Proof.
  induction l as [| x l IH]; intros lt Hl Hs Hmono.
  - constructor.
  - inversion Hl as [| ? t ? lt' (_ & Hxt) Hl']; subst.
    inversion Hs as [| ? ? Hs' Hall]; subst.
    constructor.
    + apply (IH lt' Hl' Hs').
      intros y z Hy Hz. apply Hmono; right; assumption.
    + apply Forall_forall. intros y Hy. unfold score_ge.
      apply Hmono; [left; reflexivity | right; exact Hy |].
      destruct (@Forall2_In_l _ _ _ _ _ y Hl' Hy) as (u & Hu & _ & Hyu).
      rewrite Forall_forall in Hall. specialize (Hall u Hu).
      unfold topic_ge in Hall. rewrite Hxt, Hyu. exact Hall.
Qed.

Lemma score_courses_equal_counts (m : Model) (np : dict R) (n : nat)
    (courses : list course) :
  (forall entry, In entry (model_courses m) -> count entry = n) ->
  (forall c, In c courses -> known m (course_id c) = true) ->
  forall xs,
    score_courses m np courses = Ok xs ->
    forall x, In x xs ->
              crs_score x = (_LAMBDA_ * crs_sim x + ln (INR n + 1))%R.
Proof.
  intros Hcount. induction courses as [| c rest IH]; intros Hknown xs Hxs x Hx.
  - cbn in Hxs. inversion Hxs; subst. contradiction.
  - cbn [score_courses] in Hxs.
    apply bind_Ok_inv in Hxs. destruct Hxs as (x0 & Hx0 & Hxs).
    apply bind_Ok_inv in Hxs. destruct Hxs as (xs' & Hxs' & Hxs).
    inversion Hxs; subst. destruct Hx as [<- | Hx].
    + pose proof (Hknown c (or_introl eq_refl)) as Hk.
      apply known_find in Hk. destruct Hk as (entry & Hfind).
      destruct (@score_course_Ok_known m np c entry x0 Hfind Hx0)
        as (_ & ->).
      rewrite (Hcount entry); [reflexivity |].
      apply find_some in Hfind. apply Hfind.
    + apply (IH (fun c' Hc' => Hknown c' (or_intror Hc')) xs' Hxs' x Hx).
Qed.

(** X25.  When all courses of the model have the same enrolment count
    and every queried course is in the model, the order in which the
    topic recommender returns the courses is also a descending order of
    the scores of the preference-based ranking: the two results list the
    same courses, and can differ only in the order of courses of equal
    score. *)
Theorem X25_topic_order_is_descending_in_the_score
    (courses : list course) (h h' : heap) (out : list crs)
    (m : Model) (n : nat) :
  self_model h = Some m ->
  (forall entry, In entry (model_courses m) -> count entry = n) ->
  (forall c, In c courses -> known m (course_id c) = true) ->
  __rank_courses__ courses h = (Ok out, h') ->
  exists topic_out out',
    topic_recommend courses h = (Ok topic_out, h')
    /\ Permutation out' out
    /\ Forall2 same_course out' topic_out
    /\ StronglySorted score_ge out'.
Proof.
  intros Hm Hcount Hknown Hrun.
  apply topic_recommend_of_rank_courses in Hrun.
  destruct Hrun as (m' & np & xs & Hm' & Hxs & -> & Htopic).
  assert (m' = m) by congruence. subst m'.
  destruct (topic_sorted_same_course xs) as (out' & Hsame & Hperm).
  eexists. exists out'. split; [exact Htopic |].
  split; [| split; [exact Hsame |]].
  - apply perm_trans with xs; [exact Hperm |].
    apply Permutation_sym. apply sorted_by_score_perm.
  - apply (sorted_by_similarity Hsame (topic_sorted_sorted _)).
    intros x y Hx Hy Hsim.
    apply (Permutation_in _ Hperm) in Hx.
    apply (Permutation_in _ Hperm) in Hy.
    rewrite (@score_courses_equal_counts m np n courses Hcount Hknown xs Hxs x Hx).
    rewrite (@score_courses_equal_counts m np n courses Hcount Hknown xs Hxs y Hy).
    apply Rplus_le_compat_r. apply Rmult_le_compat_l; [| exact Hsim].
    apply Rlt_le. exact LAMBDA_pos.
Qed.

Lemma well_formed_pq :
  well_formed_query Scenario.pq_model (preferences Scenario.prefer_X).
Proof.
  repeat split.
  - discriminate.
  - exact NoDup_XY.
  - exact NoDup_XY.
  - intros k Hk. exact Hk.
Qed.

Lemma sims_fit_pq : sims_fit Scenario.pq_model.
Proof. intros entry [<- | [<- | []]]; cbn; lia. Qed.

(** X25 for the courses [P] and [Q], which have no enrolments. *)
Lemma X25_witness_P_Q :
  exists topic_out out',
    topic_recommend [Scenario.P; Scenario.Q]
      {| self_model := Some Scenario.pq_model;
         preferences := preferences Scenario.prefer_X |}
    = (Ok topic_out,
       {| self_model := Some Scenario.pq_model;
          preferences := scale (normalizer (preferences Scenario.prefer_X))
                           (preferences Scenario.prefer_X) |})
    /\ Permutation out'
         (sorted_by_score
            (map (scored Scenario.pq_model
                    (values
                       (pick (scale (normalizer (preferences Scenario.prefer_X))
                                (preferences Scenario.prefer_X))
                             (meta_categories Scenario.pq_model))))
                 [Scenario.P; Scenario.Q]))
    /\ Forall2 same_course out' topic_out
    /\ StronglySorted score_ge out'.
Proof.
  apply (@X25_topic_order_is_descending_in_the_score
           [Scenario.P; Scenario.Q] _ _ _ Scenario.pq_model 0%nat).
  - reflexivity.
  - intros entry [<- | [<- | []]]; reflexivity.
  - intros c [<- | [<- | []]]; reflexivity.
  - apply (rank_courses_run [Scenario.P; Scenario.Q] well_formed_pq
             sims_fit_pq).
Defined.

(* ================================================================== *)
(** * The normalisation in rounded arithmetic                          *)
(* ================================================================== *)

Lemma unit_roundoff_bounds : (0 < unit_roundoff <= 1.2e-16)%R.
Proof.
  unfold unit_roundoff, two_53. split.
  - apply Rinv_0_lt_compat. lra.
  - lra.
Qed.

Lemma underflow_error_bounds : (0 < underflow_error <= 1e-300)%R.
Proof.
  unfold underflow_error, two_1075. split.
  - apply Rinv_0_lt_compat. lra.
  - lra.
Qed.

Lemma max_finite_bound : (1e301 <= max_finite)%R.
Proof. unfold max_finite, largest_binary64. lra. Qed.

Lemma Rsum_nonneg (l : list R) :
  Forall (fun v => 0 <= v)%R l -> (0 <= Rsum l)%R.
Proof.
  induction 1 as [| v l Hv _ IH]; cbn [Rsum]; lra.
Qed.

Lemma Rsum_ge_element (l : list R) (v : R) :
  Forall (fun v => 0 <= v)%R l -> In v l -> (v <= Rsum l)%R.
Proof.
  induction 1 as [| x l Hx Hl IH]; intros Hin; [contradiction |].
  cbn [Rsum]. pose proof (Rsum_nonneg Hl).
  destruct Hin as [-> | Hin]; [lra | specialize (IH Hin); lra].
Qed.

Lemma values_pick_Permutation (d : dict R) (categories : list string) :
  NoDup (keys d) ->
  NoDup categories ->
  (forall k, In k (keys d) <-> In k categories) ->
  Permutation (values (pick d categories)) (values d).
Proof.
  intros Hd Hc Hsame.
  assert (Hperm : Permutation categories (keys d)).
  { apply NoDup_Permutation; [exact Hc | exact Hd |].
    intros k. symmetry. apply Hsame. }
  rewrite <- (@pick_keys d Hd) at 2.
  unfold values, pick. apply Permutation_map. apply Permutation_map.
  exact Hperm.
Qed.

Lemma Rabs_le_inv (x a : R) : (Rabs x <= a)%R -> (- a <= x <= a)%R.
Proof. unfold Rabs. destruct (Rcase_abs x); lra. Qed.

Lemma Rdiv_le_upper (a q s : R) :
  (0 < s)%R -> (a <= q * s)%R -> (a / s <= q)%R.
Proof.
  intros Hs H. replace q with (q * s / s)%R by (field; lra).
  unfold Rdiv. apply Rmult_le_compat_r; [| exact H].
  apply Rlt_le. apply Rinv_0_lt_compat. exact Hs.
Qed.

Lemma Rdiv_le_lower (a q s : R) :
  (0 < s)%R -> (q * s <= a)%R -> (q <= a / s)%R.
Proof.
  intros Hs H. replace q with (q * s / s)%R by (field; lra).
  unfold Rdiv. apply Rmult_le_compat_r; [| exact H].
  apply Rlt_le. apply Rinv_0_lt_compat. exact Hs.
Qed.

(** The sum of rounded quotients. *)
Lemma Rsum_map_bounds (f : R -> R) (s lo hi e : R) (l : list R) :
  (forall v, In v l ->
             (v / s * lo - e <= f v <= v / s * hi + e)%R) ->
  (Rsum l / s * lo - INR (List.length l) * e
   <= Rsum (map f l)
   <= Rsum l / s * hi + INR (List.length l) * e)%R.
Proof.
  induction l as [| v l IH]; intros Hf.
  - cbn. unfold Rdiv. lra.
  - cbn [map Rsum List.length]. rewrite S_INR.
    destruct (Hf v (or_introl eq_refl)) as (Hlo & Hhi).
    destruct IH as (IHlo & IHhi);
      [intros w Hw; apply Hf; right; exact Hw |].
    unfold Rdiv in *. split; nra.
Qed.

Section RoundedSum.
Variable rnd : R -> R.
Hypothesis Hrnd : rounding rnd.

Lemma rnd_nonneg (x : R) : (0 <= x)%R -> (0 <= rnd x)%R.
Proof.
  intros Hx. rewrite <- (rnd_0 Hrnd). apply (rnd_monotone Hrnd). exact Hx.
Qed.

Lemma rnd_bounds (x : R) :
  (0 <= x <= max_finite)%R ->
  (x * (1 - unit_roundoff) - underflow_error
   <= rnd x
   <= x * (1 + unit_roundoff) + underflow_error)%R.
Proof.
  intros (H0 & Hmax).
  pose proof (rnd_error Hrnd x) as He.
  rewrite (Rabs_pos_eq x H0) in He. specialize (He Hmax).
  apply Rabs_le_inv in He. lra.
Qed.

(** The rounded sum of weights that are not negative: what it can be
    off by after [k] additions. *)
Lemma rounded_sum_invariant (l : list R) :
  forall (k n : nat) (A acc : R),
    n = (k + List.length l)%nat ->
    (Z.of_nat n <= 1000000)%Z ->
    Forall (fun v => 0 <= v)%R l ->
    (0 <= A)%R ->
    (A + Rsum l <= 1e300)%R ->
    (0 <= acc)%R ->
    ((1 - INR k * unit_roundoff) * A - INR k * underflow_error <= acc)%R ->
    (acc <= (1 + 2 * INR k * unit_roundoff)
            * (A + INR k * underflow_error))%R ->
    let s := fold_left (fun acc v => rnd (acc + v)%R) l acc in
    (0 <= s)%R
    /\ ((1 - INR n * unit_roundoff) * (A + Rsum l) - INR n * underflow_error
        <= s)%R
    /\ (s <= (1 + 2 * INR n * unit_roundoff)
             * (A + Rsum l + INR n * underflow_error))%R.
Proof.
  pose proof unit_roundoff_bounds as (Hu0 & Hu).
  pose proof underflow_error_bounds as (He0 & He).
  pose proof max_finite_bound as Hmax.
  induction l as [| v l IH]; intros k n A acc Hn Hlen Hl HA Hsum Hacc Hlo Hhi.
  - cbn [List.length] in Hn. rewrite Nat.add_0_r in Hn. subst n.
    cbn [fold_left Rsum]. rewrite !Rplus_0_r.
    split; [exact Hacc |]. split; assumption.
  - cbn [List.length] in Hn. cbn [fold_left Rsum] in *.
    apply Forall_cons_iff in Hl. destruct Hl as (Hv & Hl').
    pose proof (Rsum_nonneg Hl') as Hrest.
    assert (HK : (0 <= INR k)%R) by apply pos_INR.
    assert (HK1 : (INR k + 1 <= 1000000)%R).
    { rewrite <- S_INR. rewrite INR_IZR_INZ. apply IZR_le. lia. }
    assert (HKu : (INR k * unit_roundoff <= 1.2e-10)%R).
    { apply Rle_trans with (1000000 * unit_roundoff)%R;
        [apply Rmult_le_compat_r; lra | lra]. }
    assert (HKe : (INR k * underflow_error <= 1e-294)%R).
    { apply Rle_trans with (1000000 * underflow_error)%R;
        [apply Rmult_le_compat_r; lra | lra]. }
    assert (HKu0 : (0 <= INR k * unit_roundoff)%R)
      by (apply Rmult_le_pos; lra).
    assert (HKe0 : (0 <= INR k * underflow_error)%R)
      by (apply Rmult_le_pos; lra).
    assert (Hrange : (0 <= acc + v <= max_finite)%R) by nra.
    pose proof (rnd_bounds Hrange) as (Hrlo & Hrhi).
    assert (Hup : ((acc + v) * (1 + unit_roundoff)
                   <= ((1 + 2 * INR k * unit_roundoff)
                       * (A + INR k * underflow_error) + v)
                      * (1 + unit_roundoff))%R).
    { apply Rmult_le_compat_r; lra. }
    assert (Hdown : (((1 - INR k * unit_roundoff) * A
                      - INR k * underflow_error + v)
                     * (1 - unit_roundoff)
                     <= (acc + v) * (1 - unit_roundoff))%R).
    { apply Rmult_le_compat_r; lra. }
    assert (P1 : (0 <= (A + INR k * underflow_error)
                       * (unit_roundoff
                          * (1 - 2 * INR k * unit_roundoff)))%R).
    { apply Rmult_le_pos; [nra |]. apply Rmult_le_pos; lra. }
    assert (P2 : (0 <= v * (INR k * unit_roundoff))%R).
    { apply Rmult_le_pos; [exact Hv |]. apply Rmult_le_pos; lra. }
    assert (P3 : (0 <= underflow_error * (INR k * unit_roundoff))%R).
    { apply Rmult_le_pos; [lra |]. apply Rmult_le_pos; lra. }
    assert (P4 : (0 <= A * (INR k * (unit_roundoff * unit_roundoff)))%R).
    { apply Rmult_le_pos; [exact HA |]. apply Rmult_le_pos; [exact HK |].
      apply Rmult_le_pos; lra. }
    assert (P5 : (0 <= v * unit_roundoff)%R) by (apply Rmult_le_pos; lra).
    assert (P6 : (0 <= underflow_error * unit_roundoff)%R)
      by (apply Rmult_le_pos; lra).
    destruct (IH (S k) n (A + v)%R (rnd (acc + v))) as (H1 & H2 & H3).
    + lia.
    + exact Hlen.
    + exact Hl'.
    + lra.
    + lra.
    + apply rnd_nonneg. lra.
    + rewrite S_INR. nra.
    + rewrite S_INR. nra.
    + split; [exact H1 |]. split.
      * replace (A + (v + Rsum l))%R with (A + v + Rsum l)%R by ring.
        exact H2.
      * replace (A + (v + Rsum l))%R with (A + v + Rsum l)%R by ring.
        exact H3.
Qed.

Lemma INR_million (n : nat) :
  (Z.of_nat n <= 1000000)%Z -> (0 <= INR n <= 1000000)%R.
Proof.
  intros Hn. split; [apply pos_INR |].
  rewrite INR_IZR_INZ. apply IZR_le. exact Hn.
Qed.

(** The rounded sum of at most a million weights that are not negative. *)
Lemma rounded_sum_bounds (l : list R) :
  (Z.of_nat (List.length l) <= 1000000)%Z ->
  Forall (fun v => 0 <= v)%R l ->
  (Rsum l <= 1e300)%R ->
  let n := INR (List.length l) in
  (0 <= Rounded.py_sum rnd l)%R
  /\ ((1 - n * unit_roundoff) * Rsum l - n * underflow_error
      <= Rounded.py_sum rnd l)%R
  /\ (Rounded.py_sum rnd l
      <= (1 + 2 * n * unit_roundoff) * (Rsum l + n * underflow_error))%R.
Proof.
  intros Hlen Hl Hsum. cbv zeta. unfold Rounded.py_sum.
  destruct (@rounded_sum_invariant l 0 (List.length l) 0%R 0%R)
    as (H1 & H2 & H3); try assumption; try reflexivity;
    try (cbn [INR]; lra).
Qed.

End RoundedSum.

Lemma keys_rounded_scale (rnd : R -> R) (n : R) (d : dict R) :
  keys (rounded_scale rnd n d) = keys d.
Proof.
  unfold keys, rounded_scale. rewrite map_map. apply map_ext. reflexivity.
Qed.

Lemma values_rounded_scale (rnd : R -> R) (n : R) (d : dict R) :
  values (rounded_scale rnd n d) = map (fun v => rnd (v / n)%R) (values d).
Proof.
  unfold values, rounded_scale. rewrite !map_map. apply map_ext. reflexivity.
Qed.

Lemma dict_get_rounded_scale (rnd : R -> R) (n : R) (d : dict R)
    (k : string) :
  dict_get (rounded_scale rnd n d) k
  = option_map (fun v => rnd (v / n)%R) (dict_get d k).
Proof.
  induction d as [| [k' v] d IH]; cbn.
  - reflexivity.
  - destruct (String.eqb k' k); [reflexivity | exact IH].
Qed.

Lemma rounded_truediv_nonzero (rnd : R -> R) (x y : R) :
  y <> 0%R -> Rounded.truediv rnd x y = Ok (rnd (x / y)%R).
Proof.
  intros Hy. unfold Rounded.truediv.
  rewrite (proj2 (Reqb_false y 0) Hy). reflexivity.
Qed.

Lemma rounded_update_each_run (rnd : R -> R) (items : list (string * R)) :
  forall (pre : dict R) (n : R) (h : heap),
    n <> 0%R ->
    preferences h = pre ++ items ->
    NoDup (keys (pre ++ items)) ->
    Rounded.update_each rnd items n h
    = (Ok tt, {| self_model := self_model h;
                 preferences := pre ++ rounded_scale rnd n items |}).
Proof.
  induction items as [| [k v] rest IH]; intros pre n h Hn Hh Hnd.
  - cbn. rewrite app_nil_r in *. destruct h as [m d]. cbn in *. subst d.
    reflexivity.
  - cbn [Rounded.update_each]. unfold lift, get_preferences, set_preferences.
    cbn [bind Monad_M]. rewrite (rounded_truediv_nonzero rnd v Hn). rewrite Hh.
    assert (Hfresh : ~ In k (keys pre)).
    { rewrite keys_app in Hnd. cbn in Hnd. apply NoDup_remove_2 in Hnd.
      intros Hin. apply Hnd. apply in_or_app. left. exact Hin. }
    rewrite dict_set_middle by exact Hfresh.
    rewrite (IH (pre ++ [(k, rnd (v / n)%R)]) n).
    + cbn [self_model preferences rounded_scale map fst snd].
      rewrite <- app_assoc. reflexivity.
    + exact Hn.
    + cbn [preferences]. rewrite <- app_assoc. reflexivity.
    + rewrite <- app_assoc. cbn [app].
      rewrite keys_app in *. exact Hnd.
Qed.

(** The rounded normalisation on the branch that divides by the sum. *)
Lemma rounded_normalize_preferences_run (rnd : R -> R) (m : Model)
    (prefs : dict R) :
  NoDup (keys prefs) ->
  NoDup (meta_categories m) ->
  incl (meta_categories m) (keys prefs) ->
  (rnd 1e-3 <= Rounded.py_sum rnd (values prefs))%R ->
  Rounded.py_sum rnd (values prefs) <> 0%R ->
  Rounded.normalize_preferences rnd
    {| self_model := Some m; preferences := prefs |}
  = (Ok (pick (rounded_scale rnd (Rounded.py_sum rnd (values prefs)) prefs)
              (meta_categories m)),
     {| self_model := Some m;
        preferences :=
          rounded_scale rnd (Rounded.py_sum rnd (values prefs)) prefs |}).
Proof.
  intros Hnd Hmeta Hincl Hbranch Hs.
  unfold Rounded.normalize_preferences, get_preferences.
  cbn [bind Monad_M preferences].
  rewrite (proj2 (Rltb_false _ _) Hbranch). cbn [ret Monad_M].
  rewrite (@rounded_update_each_run rnd prefs [] _
             {| self_model := Some m; preferences := prefs |} Hs eq_refl Hnd).
  unfold get_model, lift. cbn [bind Monad_M self_model preferences app].
  rewrite reorder_run.
  - reflexivity.
  - exact Hmeta.
  - intros k _ [].
  - intros k Hk. rewrite keys_rounded_scale. apply Hincl. exact Hk.
Qed.

Section RoundedNormalisation.
Variable rnd : R -> R.
Hypothesis Hrnd : rounding rnd.

Lemma rounded_threshold : (9.9e-4 <= rnd 1e-3 <= 1.0001e-3)%R.
Proof.
  pose proof unit_roundoff_bounds as (Hu0 & Hu).
  pose proof underflow_error_bounds as (He0 & He).
  pose proof max_finite_bound as Hmax.
  assert (Hrange : (0 <= 1e-3 <= max_finite)%R) by lra.
  pose proof (rnd_bounds Hrnd Hrange) as (Hlo & Hhi).
  split; nra.
Qed.

(** The rounded quotients by the rounded sum add up to 1 within
    [4e-10]. *)
Lemma rounded_weights_sum (vs : list R) :
  (Z.of_nat (List.length vs) <= 1000000)%Z ->
  Forall (fun v => 0 <= v)%R vs ->
  (Rsum vs <= 1e300)%R ->
  (rnd 1e-3 <= Rounded.py_sum rnd vs)%R ->
  (0 < Rounded.py_sum rnd vs)%R
  /\ Forall (fun v => 0 <= v)%R
       (map (fun v => rnd (v / Rounded.py_sum rnd vs)%R) vs)
  /\ (Rabs (Rsum (map (fun v => rnd (v / Rounded.py_sum rnd vs)%R) vs) - 1)
      <= 4e-10)%R.
Proof.
  intros Hlen Hvs Hsum Hbranch.
  pose proof unit_roundoff_bounds as (Hu0 & Hu).
  pose proof underflow_error_bounds as (He0 & He).
  pose proof max_finite_bound as Hmax.
  pose proof rounded_threshold as (Ht & _).
  pose proof (Rsum_nonneg Hvs) as HS.
  destruct (@rounded_sum_bounds rnd Hrnd vs Hlen Hvs Hsum) as (_ & Hlo & Hhi).
  destruct (@INR_million _ Hlen) as (HN0 & HN).
  set (s := Rounded.py_sum rnd vs) in *.
  set (S := Rsum vs) in *.
  set (N := INR (List.length vs)) in *.
  assert (Hc : (N * unit_roundoff <= 1.2e-10)%R).
  { apply Rle_trans with (1000000 * unit_roundoff)%R;
      [apply Rmult_le_compat_r; lra | lra]. }
  assert (Hc0 : (0 <= N * unit_roundoff)%R) by (apply Rmult_le_pos; lra).
  assert (Hd : (N * underflow_error <= 1e-294)%R).
  { apply Rle_trans with (1000000 * underflow_error)%R;
      [apply Rmult_le_compat_r; lra | lra]. }
  assert (Hd0 : (0 <= N * underflow_error)%R) by (apply Rmult_le_pos; lra).
  assert (HcS : (N * unit_roundoff * S <= 1.2e-10 * S)%R)
    by (apply Rmult_le_compat_r; lra).
  assert (HcS0 : (0 <= N * unit_roundoff * S)%R) by (apply Rmult_le_pos; lra).
  assert (HcSd : (N * unit_roundoff * (S + N * underflow_error) <= 1.2e-10 * (S + N * underflow_error))%R)
    by (apply Rmult_le_compat_r; lra).
  assert (Hlo' : (S - N * unit_roundoff * S - N * underflow_error <= s)%R) by lra.
  assert (Hhi' : (s <= (S + N * underflow_error) + 2 * (N * unit_roundoff * (S + N * underflow_error)))%R) by lra.
  assert (Hs : (9.9e-4 <= s)%R) by lra.
  assert (HS' : (9e-4 <= S)%R) by lra.
  assert (Hs0 : (0 < s)%R) by lra.
  assert (Hquot : forall v, In v vs -> (0 <= v / s <= 2)%R).
  { intros v Hv. rewrite Forall_forall in Hvs. pose proof (Hvs v Hv).
    assert (v <= S)%R
      by (apply Rsum_ge_element; [apply Forall_forall; exact Hvs | exact Hv]).
    split.
    - apply Rdiv_le_lower; lra.
    - apply Rdiv_le_upper; lra. }
  assert (Hout : forall v, In v vs ->
                           (v / s * (1 - unit_roundoff) - underflow_error
                            <= rnd (v / s)
                            <= v / s * (1 + unit_roundoff) + underflow_error)%R).
  { intros v Hv. destruct (Hquot v Hv). apply (rnd_bounds Hrnd). lra. }
  pose proof (@Rsum_map_bounds (fun v => rnd (v / s)%R) s _ _ _ vs Hout)
    as (Hsumlo & Hsumhi).
  fold S in Hsumlo, Hsumhi. fold N in Hsumlo, Hsumhi.
  assert (Hr : (1 - 3e-10 <= S / s <= 1 + 2e-10)%R).
  { split.
    - apply Rdiv_le_lower; lra.
    - apply Rdiv_le_upper; lra. }
  assert (Hru : (0 <= S / s * unit_roundoff <= 2.4e-16)%R).
  { split; [apply Rmult_le_pos; lra |].
    apply Rle_trans with (2 * unit_roundoff)%R;
      [apply Rmult_le_compat_r; lra | lra]. }
  split; [exact Hs0 |]. split.
  - apply Forall_forall. intros x Hx. apply in_map_iff in Hx.
    destruct Hx as (v & <- & Hv). apply (rnd_nonneg Hrnd).
    apply (Hquot v Hv).
  - apply Rabs_le. lra.
Qed.

(** The rounded sum of weights that add up to 1 within [4e-10]. *)
Lemma rounded_sum_near_one (l : list R) :
  (Z.of_nat (List.length l) <= 1000000)%Z ->
  Forall (fun v => 0 <= v)%R l ->
  (Rabs (Rsum l - 1) <= 4e-10)%R ->
  (Rabs (Rounded.py_sum rnd l - 1) <= 1e-9)%R.
Proof.
  intros Hlen Hl Hone. apply Rabs_le_inv in Hone.
  pose proof unit_roundoff_bounds as (Hu0 & Hu).
  pose proof underflow_error_bounds as (He0 & He).
  assert (Hsum : (Rsum l <= 1e300)%R) by lra.
  destruct (@rounded_sum_bounds rnd Hrnd l Hlen Hl Hsum) as (_ & Hlo & Hhi).
  destruct (@INR_million _ Hlen) as (HN0 & HN).
  set (s := Rounded.py_sum rnd l) in *.
  set (S := Rsum l) in *.
  set (N := INR (List.length l)) in *.
  assert (Hc : (N * unit_roundoff <= 1.2e-10)%R).
  { apply Rle_trans with (1000000 * unit_roundoff)%R;
      [apply Rmult_le_compat_r; lra | lra]. }
  assert (Hc0 : (0 <= N * unit_roundoff)%R) by (apply Rmult_le_pos; lra).
  assert (Hd : (N * underflow_error <= 1e-294)%R).
  { apply Rle_trans with (1000000 * underflow_error)%R;
      [apply Rmult_le_compat_r; lra | lra]. }
  assert (Hd0 : (0 <= N * underflow_error)%R) by (apply Rmult_le_pos; lra).
  assert (HcS : (N * unit_roundoff * S <= 1.2e-10 * S)%R)
    by (apply Rmult_le_compat_r; lra).
  assert (HcSd : (N * unit_roundoff * (S + N * underflow_error) <= 1.2e-10 * (S + N * underflow_error))%R)
    by (apply Rmult_le_compat_r; lra).
  apply Rabs_le. lra.
Qed.

End RoundedNormalisation.

(** C6, as the code has it.  In floating-point arithmetic, for a
    preference dict whose keys are exactly the meta categories (at most a
    million) and whose weights are not negative and add up to at most
    1e300: when the sum that the code computes is at least 1e-3, which it
    is whenever the exact sum is at least 1.001e-3, the normalisation
    returns a dict whose keys are the meta categories in their canonical
    order and whose weight for a category is the rounded quotient of the
    given weight by the computed sum; these weights add up to 1 within
    1e-9, exactly and when they are added up in floats. *)
Theorem C6_normalized_weights_sum_to_one_up_to_rounding
    (rnd : R -> R) (m : Model) (prefs : dict R) :
  rounding rnd ->
  NoDup (keys prefs) ->
  NoDup (meta_categories m) ->
  (forall k, In k (keys prefs) <-> In k (meta_categories m)) ->
  Forall (fun v => 0 <= v)%R (values prefs) ->
  (Rsum (values prefs) <= 1e300)%R ->
  (Z.of_nat (List.length prefs) <= 1000000)%Z ->
  ((1.001e-3 <= Rsum (values prefs))%R ->
   (rnd 1e-3 <= Rounded.py_sum rnd (values prefs))%R)
  /\ ((rnd 1e-3 <= Rounded.py_sum rnd (values prefs))%R ->
      exists out h',
        Rounded.normalize_preferences rnd
          {| self_model := Some m; preferences := prefs |}
        = (Ok out, h')
        /\ keys out = meta_categories m
        /\ (forall k v,
               dict_get prefs k = Some v ->
               dict_get out k
               = Some (rnd (v / Rounded.py_sum rnd (values prefs))%R))
        /\ (Rabs (Rsum (values out) - 1) <= 1e-9)%R
        /\ (Rabs (Rounded.py_sum rnd (values out) - 1) <= 1e-9)%R).
Proof.
  intros Hrnd Hnd Hmeta Hsame Hpos Hsum Hlen.
  assert (Hlen' : (Z.of_nat (List.length (values prefs)) <= 1000000)%Z).
  { unfold values. rewrite length_map. exact Hlen. }
  split.
  - intros Hexact.
    pose proof unit_roundoff_bounds as (Hu0 & Hu).
    pose proof underflow_error_bounds as (He0 & He).
    pose proof (rounded_threshold Hrnd) as (_ & Ht).
    destruct (@rounded_sum_bounds rnd Hrnd (values prefs) Hlen' Hpos Hsum)
      as (_ & Hlo & _).
    destruct (@INR_million _ Hlen') as (HN0 & HN).
    set (N := INR (List.length (values prefs))) in *.
    assert (Hc : (N * unit_roundoff <= 1.2e-10)%R).
    { apply Rle_trans with (1000000 * unit_roundoff)%R;
        [apply Rmult_le_compat_r; lra | lra]. }
    assert (Hd : (N * underflow_error <= 1e-294)%R).
    { apply Rle_trans with (1000000 * underflow_error)%R;
        [apply Rmult_le_compat_r; lra | lra]. }
    assert (HcS : (N * unit_roundoff * Rsum (values prefs)
                   <= 1.2e-10 * Rsum (values prefs))%R)
      by (apply Rmult_le_compat_r; lra).
    lra.
  - intros Hbranch.
    destruct (@rounded_weights_sum rnd Hrnd (values prefs) Hlen' Hpos Hsum
                Hbranch) as (Hs0 & Hout & Hone).
    set (s := Rounded.py_sum rnd (values prefs)) in *.
    assert (Hincl : incl (meta_categories m) (keys prefs)).
    { intros k Hk. apply Hsame. exact Hk. }
    assert (Hs : s <> 0%R) by lra.
    rewrite (@rounded_normalize_preferences_run rnd m prefs Hnd Hmeta Hincl
               Hbranch Hs).
    fold s.
    assert (Hnd' : NoDup (keys (rounded_scale rnd s prefs)))
      by (rewrite keys_rounded_scale; exact Hnd).
    assert (Hsame' : forall k, In k (keys (rounded_scale rnd s prefs))
                               <-> In k (meta_categories m))
      by (intros k; rewrite keys_rounded_scale; apply Hsame).
    pose proof (@values_pick_Permutation _ _ Hnd' Hmeta Hsame') as Hperm.
    rewrite values_rounded_scale in Hperm.
    assert (Hexact : (Rabs (Rsum (values (pick (rounded_scale rnd s prefs)
                                               (meta_categories m))) - 1)
                      <= 4e-10)%R).
    { rewrite (Rsum_Permutation Hperm). exact Hone. }
    eexists. eexists. split; [reflexivity |].
    split; [apply keys_pick |]. split; [| split].
    + intros k v Hv. apply dict_get_pick.
      * apply Hsame. apply dict_get_Some_In in Hv.
        change k with (fst (k, v)). apply in_map. exact Hv.
      * rewrite dict_get_rounded_scale, Hv. reflexivity.
    + lra.
    + apply (rounded_sum_near_one Hrnd).
      * rewrite (Permutation_length Hperm). rewrite length_map. exact Hlen'.
      * apply (Permutation_Forall (Permutation_sym Hperm)). exact Hout.
      * exact Hexact.
Qed.

Lemma rounding_half_a_roundoff_up : rounding half_a_roundoff_up.
Proof.
  pose proof unit_roundoff_bounds as (Hu0 & Hu).
  pose proof underflow_error_bounds as (He0 & He).
  unfold half_a_roundoff_up. split.
  - ring.
  - intros x y Hxy. apply Rmult_le_compat_r; lra.
  - intros x _.
    replace (x * (1 + unit_roundoff / 2) - x)%R
      with (x * (unit_roundoff / 2))%R by ring.
    rewrite Rabs_mult. rewrite (Rabs_pos_eq (unit_roundoff / 2)) by lra.
    pose proof (Rabs_pos x). nra.
Qed.

(** C6 for the weights [{'Y': 3, 'X': 1}] over the categories
    [['X', 'Y']], with a rounding that errs on every operation. *)
Lemma C6_witness_Y3_X1 :
  exists out h',
    Rounded.normalize_preferences half_a_roundoff_up
      {| self_model := Some Scenario.xy_model;
         preferences := [("Y", 3); ("X", 1)]%string%R |}
    = (Ok out, h')
    /\ keys out = ["X"; "Y"]%string
    /\ (forall k v,
           dict_get [("Y", 3); ("X", 1)]%string%R k = Some v ->
           dict_get out k
           = Some (half_a_roundoff_up
                     (v / Rounded.py_sum half_a_roundoff_up [3; 1])%R))
    /\ (Rabs (Rsum (values out) - 1) <= 1e-9)%R
    /\ (Rabs (Rounded.py_sum half_a_roundoff_up (values out) - 1)
        <= 1e-9)%R.
Proof.
  destruct (@C6_normalized_weights_sum_to_one_up_to_rounding
              half_a_roundoff_up Scenario.xy_model
              [("Y", 3); ("X", 1)]%string%R)
    as (Hbranch & Hrun).
  - exact rounding_half_a_roundoff_up.
  - repeat constructor; cbn; intuition discriminate.
  - repeat constructor; cbn; intuition discriminate.
  - intros k. cbn. tauto.
  - cbn [values map snd].
    apply Forall_cons; [lra |]. apply Forall_cons; [lra |].
    apply Forall_nil.
  - cbn [values map snd Rsum]. lra.
  - cbn [List.length]. lia.
  - apply Hrun. apply Hbranch. cbn [values map snd Rsum]. lra.
Defined.

(* ================================================================== *)
(** * The normalisation in binary64 arithmetic                          *)
(* ================================================================== *)

(** C6 fails as stated: the weights [{'X': 1e308, 'Y': 1e308}] have the
    meta categories as their keys and a sum that is not below 1e-3, but
    the sum overflows to infinity, both weights become 0, and the
    normalised weights add up to 0. *)
Lemma C6_counterexample_overflow :
  PrimFloat.ltb (Binary64.py_sum (values Binary64.huge)) 1e-3%float = false
  /\ Binary64.normalize_preferences ["X"; "Y"]%string Binary64.huge
     = (Ok [("X", 0); ("Y", 0)]%string%float,
        [("X", 0); ("Y", 0)]%string%float)
  /\ Binary64.py_sum [0; 0]%float = 0%float.
Proof.
  split; [| split]; vm_compute; reflexivity.
Qed.

(** On the weights [{'Y': 3, 'X': 1}] the normalisation returns
    [{'X': 0.25, 'Y': 0.75}] and leaves [{'Y': 0.75, 'X': 0.25}] in the
    caller's dict. *)
Lemma normalize_three_and_one :
  Binary64.normalize_preferences ["X"; "Y"]%string Binary64.three_and_one
  = (Ok [("X", 0.25); ("Y", 0.75)]%string%float,
     [("Y", 0.75); ("X", 0.25)]%string%float).
Proof. vm_compute. reflexivity. Qed.

(** A second normalisation changes the weights again: after a call with
    [{'X': 0.5, 'Y': 0.2, 'Z': 0.2}] the weights add up to
    [1.0000000000000002] in floats, so that a second call with the same
    dict divides them once more. *)
Lemma second_normalisation_changes_the_weights :
  exists once twice a b,
    Binary64.normalize_preferences ["X"; "Y"; "Z"]%string Binary64.everyday
    = (Ok once, once)
    /\ Binary64.normalize_preferences ["X"; "Y"; "Z"]%string once
       = (Ok twice, twice)
    /\ dict_get once "X"%string = Some a
    /\ dict_get twice "X"%string = Some b
    /\ PrimFloat.eqb a b = false.
Proof.
  eexists. eexists. eexists. eexists.
  split; [vm_compute; reflexivity |].
  split; [vm_compute; reflexivity |].
  split; [vm_compute; reflexivity |].
  split; vm_compute; reflexivity.
Qed.
